(** * env-secure: encryption of a .env file at rest

    A shallow embedding of [lib/secure-env.js] (key derivation, line cipher,
    file codec, secret key retrieval) and of the key commands of
    [bin/env-secure.js], with the properties of the specification settled on
    it.

    Conventions of the embedding.
    - A JavaScript string is a [string] of the Standard Library: a sequence of
      code units, here the code units below 256. Where a property ranges over
      every JavaScript string, plaintexts and passphrases are lists of UTF-16
      code units ([Utf8], [Wide], [WidePassphrase]).
    - A Node [Buffer] is a [list byte].
    - A function that throws returns [Err e]; [error] has one constructor per
      [throw] site of the source, and [classify] gives the class of the
      specification's taxonomy.
    - The file system, the system's random source and the console are fields
      of an explicit [World] that every function threads through.
    - Node's [crypto] module is an interface ([NodeCrypto]); what is assumed of
      AES-256-CBC and scrypt is stated in [CryptoLaws]. *)

From Stdlib Require Import Strings.String Strings.Ascii Strings.Byte.
From Stdlib Require Import NArith ZArith Zify List Bool Lia.
From stdpp Require Import gmap strings list fin_maps.

Open Scope string_scope.
Open Scope list_scope.
Open Scope stdpp_scope.

(** ** JavaScript strings *)

Module Js.

(** The code units below 256 that [String.prototype.trim] strips: TAB, LF, VT,
    FF, CR, SPACE and NBSP (ECMAScript WhiteSpace and LineTerminator). *)
Definition isWhiteSpace (c : ascii) : bool :=
  match N_of_ascii c with
  | 9 | 10 | 11 | 12 | 13 | 32 | 160 => true
  | _ => false
  end%N.

(** The code units below 256 that the regular expression atom [.] refuses:
    LF and CR. *)
Definition isLineTerminator (c : ascii) : bool :=
  match N_of_ascii c with
  | 10 | 13 => true
  | _ => false
  end%N.

Definition notLineTerminator (c : ascii) : bool := negb (isLineTerminator c).

(** [!s] for a string: only the empty string is falsy. *)
Definition falsy (s : string) : bool :=
  match s with
  | EmptyString => true
  | String _ _ => false
  end.

Fixpoint trimStart (s : string) : string :=
  match s with
  | EmptyString => EmptyString
  | String c s' => if isWhiteSpace c then trimStart s' else s
  end.

Fixpoint trimEnd (s : string) : string :=
  match s with
  | EmptyString => EmptyString
  | String c s' =>
      match trimEnd s' with
      | EmptyString => if isWhiteSpace c then EmptyString else String c EmptyString
      | t => String c t
      end
  end.

(** [s.trim()] *)
Definition trim (s : string) : string := trimEnd (trimStart s).

(** [s.split(sep)] for a separator of one code unit: never empty, the pieces
    between the occurrences of the separator, in order. *)
Fixpoint split (sep : ascii) (s : string) : list string :=
  match s with
  | EmptyString => [EmptyString]
  | String c s' =>
      if Ascii.eqb c sep then EmptyString :: split sep s'
      else match split sep s' with
           | h :: t => String c h :: t
           | [] => [String c EmptyString]
           end
  end.

(** [l.join(sep)] *)
Definition join (sep : string) (l : list string) : string := String.concat sep l.

(** [a[i]] for an array of strings read by a test for falsiness only:
    [undefined] (index out of range) is rendered as the empty string, which is
    falsy too. *)
Definition at_ (l : list string) (i : nat) : string := nth i l EmptyString.

(** The rest of [s] after the prefix [p], when [s] starts with [p]. *)
Fixpoint stripPrefix (p s : string) : option string :=
  match p with
  | EmptyString => Some s
  | String a p' =>
      match s with
      | EmptyString => None
      | String b s' => if Ascii.eqb a b then stripPrefix p' s' else None
      end
  end.

(** [s.startsWith(p)] *)
Definition startsWith (s p : string) : bool :=
  match stripPrefix p s with
  | Some _ => true
  | None => false
  end.

Fixpoint takeWhile (f : ascii -> bool) (s : string) : string :=
  match s with
  | EmptyString => EmptyString
  | String c s' => if f c then String c (takeWhile f s') else EmptyString
  end.

(** Every code unit of [s] satisfies [f]. *)
Fixpoint allChars (f : ascii -> bool) (s : string) : bool :=
  match s with
  | EmptyString => true
  | String c s' => f c && allChars f s'
  end.

(** The code unit [c] does not occur in [s]. *)
Definition lacks (c : ascii) (s : string) : bool :=
  allChars (fun x => negb (Ascii.eqb x c)) s.

(** An attempt of the regular expression [/<label>(.+)/] at the start of [s]:
    the label, then the longest run of code units that are not line
    terminators, which must not be empty. The result is capture group 1. *)
Definition matchHere (label s : string) : option string :=
  match stripPrefix label s with
  | Some rest =>
      match takeWhile notLineTerminator rest with
      | EmptyString => None
      | v => Some v
      end
  | None => None
  end.

(** [s.match(/<label>(.+)/)], reduced to its capture group 1: the leftmost
    position of [s] where an attempt succeeds; [None] is [null]. *)
Fixpoint matchLabel (label s : string) : option string :=
  match matchHere label s with
  | Some v => Some v
  | None =>
      match s with
      | EmptyString => None
      | String _ s' => matchLabel label s'
      end
  end.

(** At position [i] of [s] stands the label, followed by the value [v]: a
    non-empty run of code units that are not line terminators, which reaches
    the end of its line. *)
Definition valuedAt (label s : string) (i : nat) (v : string) : Prop :=
  exists pre post,
    s = pre +:+ label +:+ v +:+ post /\ String.length pre = i /\
    v <> EmptyString /\ allChars notLineTerminator v = true /\
    (post = EmptyString \/
     exists c rest, post = String c rest /\ isLineTerminator c = true).

(** [/<label>/.test(s)]: the label occurs somewhere in [s]. *)
Fixpoint test (label s : string) : bool :=
  match stripPrefix label s with
  | Some _ => true
  | None =>
      match s with
      | EmptyString => false
      | String _ s' => test label s'
      end
  end.

End Js.

(** ** Hexadecimal text of a buffer *)

Module Hex.

(** The digit (lower case) of a value below 16. *)
Definition digit (n : N) : ascii :=
  match n with
  | 0 => "0" | 1 => "1" | 2 => "2" | 3 => "3" | 4 => "4" | 5 => "5"
  | 6 => "6" | 7 => "7" | 8 => "8" | 9 => "9" | 10 => "a" | 11 => "b"
  | 12 => "c" | 13 => "d" | 14 => "e" | _ => "f"
  end%N%char.

(** The value of a hexadecimal digit, of either case. *)
Definition value (c : ascii) : option N :=
  let n := N_of_ascii c in
  if (N.leb 48 n && N.leb n 57)%N then Some (n - 48)%N
  else if (N.leb 97 n && N.leb n 102)%N then Some (n - 87)%N
  else if (N.leb 65 n && N.leb n 70)%N then Some (n - 55)%N
  else None.

Definition isHexDigit (c : ascii) : bool :=
  match value c with
  | Some _ => true
  | None => false
  end.

Definition byteOfN (n : N) : byte :=
  match Byte.of_N n with
  | Some b => b
  | None => x00
  end.

(** [buf.toString("hex")]: two lower-case digits per byte. *)
Fixpoint toHex (buf : list byte) : string :=
  match buf with
  | [] => EmptyString
  | b :: buf' =>
      String (digit (Byte.to_N b / 16)) (String (digit (Byte.to_N b mod 16)) (toHex buf'))
  end.

(** [Buffer.from(s, "hex")]: one byte per pair of digits; decoding stops,
    without an error, at the first pair that is not two hexadecimal digits
    (Node: "data truncation may occur when decoding strings that do not
    exclusively consist of an even number of hexadecimal characters"). *)
Fixpoint fromHex (s : string) : list byte :=
  match s with
  | String a (String b s') =>
      match value a, value b with
      | Some h, Some l => byteOfN (16 * h + l)%N :: fromHex s'
      | _, _ => []
      end
  | _ => []
  end.

End Hex.

(** ** Errors *)

(** One constructor per [throw] site of [lib/secure-env.js], and one for
    each library that can throw below it. *)
Inductive error : Type :=
| PassphraseEmpty            (* "Passphrase cannot be empty." *)
| EncryptArgsMissing         (* "Text and secret key are required for encryption." *)
| DecryptArgsMissing         (* "Encrypted text and secret key are required for decryption." *)
| BadTokenFormat             (* "Invalid encrypted text format. Expected 'iv:encryptedText'." *)
| FileMissing (path : string)  (* `File ${filePath} does not exist.` *)
| SecretKeyMissing           (* "Secret key is required for encryption." *)
| FileEmpty (path : string)  (* `File ${filePath} is empty.` *)
| BadEncryptedFile           (* "Encrypted file is invalid: Secret key not found." *)
| CryptoFailure              (* an exception of node:crypto (cipher, decipher) *)
| FsFailure (path : string). (* an exception of fs (reading a missing file) *)

(** The taxonomy of the specification (section 7). *)
Inductive errorClass : Type :=
| InvalidInput | MalformedToken | DecryptionFailed | InvalidFormat
| MissingSecretKey | FileStateError.

Definition classify (e : error) : errorClass :=
  match e with
  | PassphraseEmpty | EncryptArgsMissing | DecryptArgsMissing => InvalidInput
  | BadTokenFormat => MalformedToken
  | CryptoFailure => DecryptionFailed
  | BadEncryptedFile => InvalidFormat
  | SecretKeyMissing => MissingSecretKey
  | FileMissing _ | FileEmpty _ | FsFailure _ => FileStateError
  end.

Inductive result (A : Type) : Type :=
| Ok (a : A)
| Err (e : error).
Arguments Ok {A} a.
Arguments Err {A} e.

(** ** The world: files, random source, console *)

Record World : Type := mkWorld {
  cwd : string;                  (* process.cwd() *)
  files : gmap string string;    (* path |-> text of the file *)
  entropy : nat -> byte;         (* the bytes the random source will give *)
  console : list string          (* lines written by console.log / console.error *)
}.

Definition M (A : Type) : Type := World -> result A * World.

Definition ret {A} (a : A) : M A := fun w => (Ok a, w).

Definition throw {A} (e : error) : M A := fun w => (Err e, w).

Definition bind {A B} (m : M A) (k : A -> M B) : M B :=
  fun w =>
    match m w with
    | (Ok a, w') => k a w'
    | (Err e, w') => (Err e, w')
    end.

Notation "x <- m ;; k" := (bind m (fun x => k))
  (at level 100, m at next level, right associativity).
Notation "m ;;; k" := (bind m (fun _ => k))
  (at level 100, right associativity).

(** [array.forEach] / [array.map] with a callback that has effects: left to
    right, the first exception ends the loop. *)
Fixpoint mapM {A B} (f : A -> M B) (l : list A) : M (list B) :=
  match l with
  | [] => ret []
  | x :: l' => y <- f x ;; ys <- mapM f l' ;; ret (y :: ys)
  end.

Module Fs.

(** [fs.existsSync(p)] *)
Definition existsSync (p : string) : M bool :=
  fun w => (Ok (bool_decide (is_Some (files w !! p))), w).

(** [fs.readFileSync(p, "utf-8")] *)
Definition readFileSync (p : string) : M string :=
  fun w =>
    match files w !! p with
    | Some text => (Ok text, w)
    | None => (Err (FsFailure p), w)
    end.

(** [fs.writeFileSync(p, text)], where the file system accepts the write
    (the directory is there and may be written to): only the outcomes of the
    program's own checks are modelled, not the failures of the disk. A file is
    known by the text of its path. *)
Definition writeFileSync (p text : string) : M unit :=
  fun w => (Ok tt, mkWorld (cwd w) (<[p := text]> (files w)) (entropy w) (console w)).

(** [fs.removeSync(p)], where the file system accepts the removal; of a file
    that is not there it changes nothing. *)
Definition removeSync (p : string) : M unit :=
  fun w => (Ok tt, mkWorld (cwd w) (delete p (files w)) (entropy w) (console w)).

End Fs.

Module Path.

(** [path.join(dir, name)] for an absolute, normalised [dir] other than the
    root [/] and a plain file name. *)
Definition join (dir name : string) : string := dir +:+ "/" +:+ name.

(** [path.basename(p)]: what follows the last slash. *)
Definition basename (p : string) : string := List.last (Js.split "/" p) EmptyString.

End Path.

(** The text of [.env] in the working directory, if the file is there. *)
Definition envFile (w : World) : option string :=
  files w !! Path.join (cwd w) ".env".

(** [process.cwd()] *)
Definition getCwd : M string := fun w => (Ok (cwd w), w).

(** [console.log(chalk.green(msg))], [console.error(chalk.red(msg))]: the
    line, without the colour escapes. *)
Definition consoleLog (msg : string) : M unit :=
  fun w => (Ok tt, mkWorld (cwd w) (files w) (entropy w) (console w ++ [msg])).

(** Two worlds that differ at most in what is left of the random source. *)
Definition sameButEntropy (w w' : World) : Prop :=
  cwd w' = cwd w /\ files w' = files w /\ console w' = console w.

(** The 16 bytes that the next call of [crypto.randomBytes(16)] gives. *)
Definition nextIV (w : World) : list byte := List.map (entropy w) (seq 0 16).

(** [crypto.randomBytes(n)]: the next [n] bytes of the random source. *)
Definition randomBytes (n : nat) : M (list byte) :=
  fun w =>
    (Ok (List.map (entropy w) (seq 0 n)),
     mkWorld (cwd w) (files w) (fun i => entropy w (n + i)) (console w)).

(** ** Node's crypto module *)

(** The password of [scryptSync]: a string or a buffer. *)
Inductive password : Type :=
| PwString (s : string)
| PwBuffer (b : list byte).

(** [!secretKey]: of a string, whether it is empty; a buffer is an object,
    never falsy. *)
Definition pwFalsy (p : password) : bool :=
  match p with
  | PwString s => Js.falsy s
  | PwBuffer _ => false
  end.

Class NodeCrypto : Type := {
  (** [crypto.scryptSync(password, salt, keylen)] *)
  scryptSync : password -> string -> nat -> list byte;
  (** [c = crypto.createCipheriv("aes-256-cbc", key, iv)] followed by
      [c.update(text, "utf-8")] and [c.final()]: the bytes of the ciphertext,
      [None] when the library throws. *)
  aesEncrypt : list byte -> list byte -> string -> option (list byte);
  (** [d = crypto.createDecipheriv("aes-256-cbc", key, iv)] followed by
      [d.update(encrypted, "hex", "utf-8") + d.final("utf-8")], on the
      hexadecimal text as the source passes it: [None] when the library
      throws (wrong length of key or IV, bad padding, ...). *)
  aesDecrypt : list byte -> list byte -> string -> option string
}.

(** What the proofs assume of the library: the derived key has the length
    asked for, and AES-256-CBC with a 32-byte key and a 16-byte IV encrypts
    every non-empty text to a non-empty ciphertext that decrypts, under the
    same key and IV, to that text. *)
Class CryptoLaws (crypto : NodeCrypto) : Prop := {
  scrypt_length : forall p s n, length (scryptSync p s n) = n;
  aes_round_trip : forall key iv text,
    length key = 32 -> length iv = 16 -> text <> EmptyString ->
    exists c, aesEncrypt key iv text = Some c /\ c <> [] /\
              aesDecrypt key iv (Hex.toHex c) = Some text
}.

(** ** lib/secure-env.js *)

Definition salt : string := "some-fixed-salt".
Definition keyLength : nat := 32.
Definition reservedLabel : string := "ENV_SECURE_KEY=".
Definition headerMarker : string := "SECRET_KEY=".
Definition LF : ascii := "010"%char.
Definition newline : string := String LF EmptyString.

(** [`${iv.toString("hex")}:${encrypted}`], for the ciphertext [c] whose
    hexadecimal text is [encrypted]. *)
Definition token (iv c : list byte) : string :=
  Hex.toHex iv +:+ ":" +:+ Hex.toHex c.

Section Library.
Context {crypto : NodeCrypto}.

(** The key under which [encryptEnv] and [decryptEnv] seal and open the
    header: [encryptString] derives its key from the buffer that
    [deriveKeyFromPassphrase] returns. *)
Definition wrappingKey (passphrase : string) : list byte :=
  scryptSync (PwBuffer (scryptSync (PwString passphrase) salt keyLength)) salt keyLength.

Definition deriveKeyFromPassphrase (passphrase : string) : M (list byte) :=
  if Js.falsy passphrase then throw PassphraseEmpty
  else ret (scryptSync (PwString passphrase) salt keyLength).

Definition encryptString (text : string) (secretKey : password) : M string :=
  if Js.falsy text || pwFalsy secretKey then throw EncryptArgsMissing
  else
    let key := scryptSync secretKey salt keyLength in
    iv <- randomBytes 16 ;;
    match aesEncrypt key iv text with
    | Some c => ret (token iv c)
    | None => throw CryptoFailure
    end.

Definition decryptString (encryptedText : string) (secretKey : password) : M string :=
  if Js.falsy encryptedText || pwFalsy secretKey then throw DecryptArgsMissing
  else
    let parts := Js.split ":" encryptedText in
    let ivHex := Js.at_ parts 0 in
    let encrypted := Js.at_ parts 1 in
    if Js.falsy ivHex || Js.falsy encrypted then throw BadTokenFormat
    else
      let key := scryptSync secretKey salt keyLength in
      let iv := Hex.fromHex ivHex in
      match aesDecrypt key iv encrypted with
      | Some decrypted => ret decrypted
      | None => throw CryptoFailure
      end.

(** [null] is [None]. *)
Definition getSecretKey : M (option string) :=
  dir <- getCwd ;;
  let envFilePath := Path.join dir ".env" in
  present <- Fs.existsSync envFilePath ;;
  if negb present then ret None
  else
    envContent <- Fs.readFileSync envFilePath ;;
    match Js.matchLabel reservedLabel envContent with
    | None => ret None
    | Some group1 =>
        if Js.falsy group1 then ret None else ret (Some (Js.trim group1))
    end.

(** [line.trim() === "" || line.startsWith("#")] *)
Definition passedThrough (line : string) : bool :=
  String.eqb (Js.trim line) "" || Js.startsWith line "#".

(** The callback of [lines.forEach] in [encryptEnv]; its result is what it
    pushes on [encryptedLines]. *)
Definition encryptLine (secretKey : string) (line : string) : M string :=
  if passedThrough line then ret line
  else encryptString line (PwString secretKey).

(** The callback of [lines.slice(1).map] in [decryptEnv]. *)
Definition decryptLine (secretKey : string) (line : string) : M string :=
  if passedThrough line then ret line
  else decryptString line (PwString secretKey).

Definition encryptEnv (filePath outputPath passphrase : string) : M unit :=
  present <- Fs.existsSync filePath ;;
  if negb present then throw (FileMissing filePath)
  else
    stored <- getSecretKey ;;
    match stored with
    | None => throw SecretKeyMissing
    | Some secretKey =>
        if Js.falsy secretKey then throw SecretKeyMissing
        else
          envContent <- Fs.readFileSync filePath ;;
          if Js.falsy envContent then throw (FileEmpty filePath)
          else
            let lines := Js.split LF envContent in
            derivedKey <- deriveKeyFromPassphrase passphrase ;;
            encryptedSecretKey <-
              encryptString (reservedLabel +:+ secretKey) (PwBuffer derivedKey) ;;
            pushed <- mapM (encryptLine secretKey) lines ;;
            let encryptedLines := (headerMarker +:+ encryptedSecretKey) :: pushed in
            Fs.writeFileSync outputPath (Js.join newline encryptedLines) ;;;
            Fs.removeSync filePath ;;;
            consoleLog ("Successfully encrypted " +:+ Path.basename filePath +:+
                        " to " +:+ Path.basename outputPath +:+ ".")
    end.

Definition decryptEnv (filePath outputPath passphrase : string) : M unit :=
  present <- Fs.existsSync filePath ;;
  if negb present then throw (FileMissing filePath)
  else
    envContent <- Fs.readFileSync filePath ;;
    let lines := Js.split LF envContent in
    let secretKeyLine := Js.at_ lines 0 in
    if Js.falsy secretKeyLine || negb (Js.startsWith secretKeyLine headerMarker)
    then throw BadEncryptedFile
    else
      let encryptedSecretKey := Js.at_ (Js.split "=" secretKeyLine) 1 in
      derivedKey <- deriveKeyFromPassphrase passphrase ;;
      decryptedSecretKeyLine <- decryptString encryptedSecretKey (PwBuffer derivedKey) ;;
      match Js.matchLabel reservedLabel decryptedSecretKeyLine with
      | None => throw BadEncryptedFile
      | Some secretKey =>
          if Js.falsy secretKey then throw BadEncryptedFile
          else
            decryptedLines <- mapM (decryptLine secretKey) (List.tail lines) ;;
            Fs.writeFileSync outputPath (Js.join newline decryptedLines) ;;;
            Fs.removeSync filePath ;;;
            consoleLog ("Successfully decrypted " +:+ Path.basename filePath +:+
                        " to " +:+ Path.basename outputPath +:+ ".")
      end.

(** What [encryptEnv] writes for the lines [lines]: a header token [iv], [c]
    that wraps the secret key under the passphrase, and one line [encs] per
    input line. *)
Definition sealed (passphrase secretKey : string) (lines : list string)
    (iv c : list byte) (encs : list string) : Prop :=
  iv <> [] /\ c <> [] /\
  aesEncrypt (wrappingKey passphrase) iv (reservedLabel +:+ secretKey) = Some c /\
  aesDecrypt (wrappingKey passphrase) iv (Hex.toHex c) = Some (reservedLabel +:+ secretKey) /\
  length encs = length lines /\
  (forall i l, lines !! i = Some l -> passedThrough l = true -> encs !! i = Some l) /\
  Forall (fun l => Js.lacks LF l = true) encs /\
  (forall w, mapM (decryptLine secretKey) encs w = (Ok lines, w)).

End Library.

(** ** bin/env-secure.js: the key commands *)

Module Cli.

(** How a command ends: it returns, or it calls [process.exit(code)]. *)
Inductive outcome : Type :=
| Finished
| Exited (code : nat).

Definition Cmd : Type := World -> outcome * World.

(** [error.message]; the text of the exceptions of the libraries is theirs, a
    stand-in is given. *)
Definition message (e : error) : string :=
  match e with
  | PassphraseEmpty => "Passphrase cannot be empty."
  | EncryptArgsMissing => "Text and secret key are required for encryption."
  | DecryptArgsMissing => "Encrypted text and secret key are required for decryption."
  | BadTokenFormat => "Invalid encrypted text format. Expected 'iv:encryptedText'."
  | FileMissing path => "File " +:+ path +:+ " does not exist."
  | SecretKeyMissing => "Secret key is required for encryption."
  | FileEmpty path => "File " +:+ path +:+ " is empty."
  | BadEncryptedFile => "Encrypted file is invalid: Secret key not found."
  | CryptoFailure => "crypto error"
  | FsFailure path => "fs error: " +:+ path
  end.

(** [console.error(chalk.red(msg)); process.exit(1)] *)
Definition fail (msg : string) : Cmd :=
  fun w => (Exited 1, snd (consoleLog msg w)).

(** The end of an action: an exception that reaches a [catch] is reported
    and the process exits with 1. *)
Definition finish (m : M unit) : Cmd :=
  fun w =>
    match m w with
    | (Ok _, w') => (Finished, w')
    | (Err e, w') => fail (message e) w'
    end.

Definition envFilePath : M string :=
  dir <- getCwd ;; ret (Path.join dir ".env").

Definition isSecretKeySet : M bool :=
  p <- envFilePath ;;
  present <- Fs.existsSync p ;;
  if negb present then ret false
  else envContent <- Fs.readFileSync p ;; ret (Js.test reservedLabel envContent).

Definition updateSecretKey (newSecretKey : string) : M unit :=
  p <- envFilePath ;;
  Fs.writeFileSync p (reservedLabel +:+ newSecretKey +:+ newline).

(** The action of [set-key]; [secretKey] is the answer to the prompt (the
    questions that the prompts print are not recorded). *)
Definition setKey (secretKey : string) : Cmd :=
  fun w =>
    match isSecretKeySet w with
    | (Ok true, w1) =>
        fail "Error: Secret key is already set. Use `rotate-key` to change it." w1
    | (Ok false, w1) =>
        if Js.falsy secretKey then fail "Error: Secret key cannot be empty." w1
        else finish (updateSecretKey secretKey ;;;
                     consoleLog "Secret key saved successfully.") w1
    | (Err e, w1) => (Exited 1, w1)
    end.

(** The action of [rotate-key]; [currentSecretKey] and [newSecretKey] are the
    answers to its two prompts. *)
Definition rotateKey (currentSecretKey newSecretKey : string) : Cmd :=
  fun w =>
    match isSecretKeySet w with
    | (Ok false, w1) =>
        fail "Error: Secret key is not set. Use `set-key` to set it first." w1
    | (Ok true, w1) =>
        match getSecretKey w1 with
        | (Ok stored, w2) =>
            if negb (bool_decide (Some currentSecretKey = stored))
            then fail "Error: Current secret key is incorrect." w2
            else if Js.falsy newSecretKey
            then fail "Error: New secret key cannot be empty." w2
            else finish (updateSecretKey newSecretKey ;;;
                         consoleLog "Secret key updated successfully.") w2
        | (Err e, w2) => fail (message e) w2
        end
    | (Err e, w1) => (Exited 1, w1)
    end.

Section Commands.
Context {crypto : NodeCrypto}.

(** The action of [encrypt]; [passphrase] is the answer to the prompt. *)
Definition encryptCommand (passphrase : string) : Cmd :=
  fun w =>
    let inputFile := Path.join (cwd w) ".env" in
    let outputFile := Path.join (cwd w) ".env.enc" in
    match Fs.existsSync inputFile w with
    | (Ok false, w1) => fail ("Error: File " +:+ inputFile +:+ " does not exist.") w1
    | (Ok true, w1) =>
        if Js.falsy passphrase then fail "Error: Passphrase cannot be empty." w1
        else finish (encryptEnv inputFile outputFile passphrase) w1
    | (Err e, w1) => (Exited 1, w1)
    end.

(** The action of [decrypt]; [passphrase] is the answer to the prompt. *)
Definition decryptCommand (passphrase : string) : Cmd :=
  fun w =>
    let inputFile := Path.join (cwd w) ".env.enc" in
    let outputFile := Path.join (cwd w) ".env" in
    match Fs.existsSync inputFile w with
    | (Ok false, w1) => fail ("Error: File " +:+ inputFile +:+ " does not exist.") w1
    | (Ok true, w1) =>
        if Js.falsy passphrase then fail "Error: Passphrase cannot be empty." w1
        else finish (decryptEnv inputFile outputFile passphrase) w1
    | (Err e, w1) => (Exited 1, w1)
    end.

End Commands.

End Cli.

(** ** Notions used to state what the functions do *)

(** The 16 bytes of the random source from offset [k] on. *)
Definition window (w : World) (k : nat) : list byte :=
  List.map (fun i => entropy w (k + i)) (seq 0 16).

(** [w'] is [w] after [k] bytes of the random source have been taken. *)
Definition consumed (k : nat) (w w' : World) : Prop :=
  sameButEntropy w w' /\ forall i, entropy w' i = entropy w (k + i).

(** The lines that [encryptEnv] seals: those that are neither blank nor a
    comment. *)
Definition dataLines (lines : list string) : list string :=
  List.filter (fun l => negb (passedThrough l)) lines.

(** The line that [encryptEnv] and [decryptEnv] log when they are done. *)
Definition doneMessage (verb filePath outputPath : string) : string :=
  "Successfully " +:+ verb +:+ " " +:+ Path.basename filePath +:+
  " to " +:+ Path.basename outputPath +:+ ".".

(** ** The words of the specification *)

Module Spec.

(** The specification's reading of [getSecretKey]: the remainder, up to the
    end of the line, of the first occurrence of the reserved label, trimmed;
    nothing when the file is absent or the label does not occur. *)
Fixpoint afterFirstOccurrence (label s : string) : option string :=
  match Js.stripPrefix label s with
  | Some rest => Some rest
  | None =>
      match s with
      | EmptyString => None
      | String _ s' => afterFirstOccurrence label s'
      end
  end.

Definition firstOccurrenceValue (envFile : option string) : option string :=
  match envFile with
  | None => None
  | Some text =>
      match afterFirstOccurrence reservedLabel text with
      | Some rest => Some (Js.trim (Js.takeWhile Js.notLineTerminator rest))
      | None => None
      end
  end.

(** "Valid hex": an even number of hexadecimal digits. *)
Fixpoint validHex (s : string) : bool :=
  match s with
  | EmptyString => true
  | String a (String b s') => Hex.isHexDigit a && Hex.isHexDigit b && validHex s'
  | String _ EmptyString => false
  end.

(** [s] contains [t]. *)
Definition contains (s t : string) : bool := Js.test t s.

(** The specification's wrong-passphrase property, for a given crypto
    library: whatever file was encrypted under [pass1], decrypting it under
    any other non-empty passphrase fails with DecryptionFailed. *)
Definition wrongPassphraseRejected (crypto : NodeCrypto) : Prop :=
  forall (w : World) (filePath outputPath restoredPath pass1 pass2 secret : string)
         (lines : list string),
    Forall (fun l => Js.lacks LF l = true) lines ->
    Exists (fun l => passedThrough l = false) lines ->
    files w !! filePath = Some (Js.join newline lines) ->
    fst (getSecretKey w) = Ok (Some secret) -> secret <> "" ->
    pass1 <> "" -> pass2 <> "" -> pass1 <> pass2 ->
    filePath <> outputPath -> outputPath <> restoredPath ->
    exists w1,
      encryptEnv filePath outputPath pass1 w = (Ok tt, w1) /\
      exists e, fst (decryptEnv outputPath restoredPath pass2 w1) = Err e /\
                classify e = DecryptionFailed.

End Spec.

(** ** Counting buffers and passphrases *)

Module Counting.

(** Every byte. *)
Definition allBytes : list byte :=
  List.map (fun n => Hex.byteOfN (N.of_nat n)) (seq 0 256).

(** Every buffer of [n] bytes. *)
Fixpoint allBuffers (n : nat) : list (list byte) :=
  match n with
  | 0 => [[]]
  | S n' => flat_map (fun b => List.map (cons b) (allBuffers n')) allBytes
  end.

(** The string of [n + 1] letters [a]. *)
Fixpoint letters (n : nat) : string :=
  match n with
  | 0 => "a"
  | S n' => String "a" (letters n')
  end.

(** [n] different non-empty passphrases. *)
Definition passphrases (n : nat) : list string := List.map letters (seq 0 n).

End Counting.

(** ** A small cipher that satisfies [CryptoLaws]

    It shows that the laws are consistent and runs the program on concrete
    inputs. The key is the password followed by the salt, cut or padded with
    zeros to the length asked for; the cipher appends the byte 0x80 to the
    text and masks every byte with the exclusive or of the bytes of key and
    IV; the decipher refuses a result that does not end in 0x80. *)

Module Toy.

Definition xorByte (a b : byte) : byte :=
  let '(a0, (a1, (a2, (a3, (a4, (a5, (a6, a7))))))) := Byte.to_bits a in
  let '(b0, (b1, (b2, (b3, (b4, (b5, (b6, b7))))))) := Byte.to_bits b in
  Byte.of_bits (xorb a0 b0, (xorb a1 b1, (xorb a2 b2, (xorb a3 b3,
               (xorb a4 b4, (xorb a5 b5, (xorb a6 b6, xorb a7 b7))))))).

Definition passwordBytes (p : password) : list byte :=
  match p with
  | PwString s => list_byte_of_string s
  | PwBuffer b => b
  end.

Definition scrypt (p : password) (salt : string) (n : nat) : list byte :=
  firstn n (passwordBytes p ++ list_byte_of_string salt ++ repeat x00 n).

Definition mask (key iv : list byte) : byte := fold_right xorByte x00 (key ++ iv).

Definition wellSized (key iv : list byte) : bool :=
  Nat.eqb (length key) 32 && Nat.eqb (length iv) 16.

Definition encrypt (key iv : list byte) (text : string) : option (list byte) :=
  if wellSized key iv
  then Some (List.map (xorByte (mask key iv)) (list_byte_of_string text ++ [x80]))
  else None.

Definition decrypt (key iv : list byte) (encrypted : string) : option string :=
  if wellSized key iv
  then match rev (List.map (xorByte (mask key iv)) (Hex.fromHex encrypted)) with
       | x80 :: body => Some (string_of_list_byte (rev body))
       | _ => None
       end
  else None.

Definition crypto : NodeCrypto :=
  {| scryptSync := scrypt; aesEncrypt := encrypt; aesDecrypt := decrypt |}.

(** A random source that counts up from [start]. *)
Definition counter (start : N) (i : nat) : byte :=
  Hex.byteOfN ((start + N.of_nat i) mod 256).

(** A world with the given files, in the directory [/app]. *)
Definition world (fs : list (string * string)) : World :=
  mkWorld "/app" (list_to_map fs) (counter 0) [].

End Toy.

(** ** UTF-8, between JavaScript strings and buffers *)

(** Where a claim ranges over every JavaScript string, a string is the list
    of its UTF-16 code units, each below 65536; the code units from 0xD800 to
    0xDFFF are the surrogates. *)
Module Utf8.

Definition isHigh (u : N) : bool := ((0xD800 <=? u) && (u <=? 0xDBFF))%N.
Definition isLow (u : N) : bool := ((0xDC00 <=? u) && (u <=? 0xDFFF))%N.

(** A string without a lone surrogate: every high surrogate is followed by a
    low one, and no low surrogate stands elsewhere. *)
Fixpoint wellFormed (s : list N) : bool :=
  match s with
  | [] => true
  | u :: s' =>
      if isHigh u then
        match s' with
        | v :: s'' => isLow v && wellFormed s''
        | [] => false
        end
      else negb (isLow u) && (u <? 0x10000)%N && wellFormed s'
  end.

(** The bytes of U+FFFD, which stand for a lone surrogate. *)
Definition replacement : list N := [0xEF; 0xBF; 0xBD]%N.

(** The one to four bytes of a code point. *)
Definition encodeScalar (cp : N) : list N :=
  (if cp <? 0x80 then [cp]
   else if cp <? 0x800 then [0xC0 + cp / 64; 0x80 + cp mod 64]
   else if cp <? 0x10000 then
     [0xE0 + cp / 4096; 0x80 + (cp / 64) mod 64; 0x80 + cp mod 64]
   else
     [0xF0 + cp / 262144; 0x80 + (cp / 4096) mod 64; 0x80 + (cp / 64) mod 64;
      0x80 + cp mod 64])%N.

Fixpoint encodeUnits (s : list N) : list N :=
  match s with
  | [] => []
  | u :: s' =>
      if isHigh u then
        match s' with
        | v :: s'' =>
            if isLow v then
              encodeScalar (0x10000 + (u - 0xD800) * 1024 + (v - 0xDC00))%N ++ encodeUnits s''
            else replacement ++ encodeUnits s'
        | [] => replacement
        end
      else if isLow u then replacement ++ encodeUnits s'
      else encodeScalar u ++ encodeUnits s'
  end.

(** [Buffer.from(s, "utf-8")], and what [cipher.update(s, "utf-8")] and
    [scryptSync(s, ...)] read of a string: a surrogate pair gives the four
    bytes of its code point, a lone surrogate the three bytes of U+FFFD. *)
Definition encode (s : list N) : list byte := List.map Hex.byteOfN (encodeUnits s).

(** The decoder of the Encoding Standard, which [buf.toString("utf-8")] and
    the string decoder behind [decipher.update(.., "utf-8")] and
    [decipher.final("utf-8")] follow: the code point under construction, the
    number of continuation bytes it needs and has seen, and the bounds of the
    next byte. *)
Record state : Type := mkState {
  codePoint : N; needed : N; seen : N; lower : N; upper : N
}.

Definition start : state := mkState 0 0 0 0x80 0xBF.

(** A code point as code units: one, or a surrogate pair. *)
Definition emit (cp : N) : list N :=
  (if cp <? 0x10000 then [cp]
   else [0xD800 + (cp - 0x10000) / 1024; 0xDC00 + (cp - 0x10000) mod 1024])%N.

(** A byte met while no code point is under construction. *)
Definition lead (b : N) : list N * state :=
  (if b <=? 0x7F then ([b], start)
   else if (0xC2 <=? b) && (b <=? 0xDF) then ([], mkState (b - 0xC0) 1 0 0x80 0xBF)
   else if (0xE0 <=? b) && (b <=? 0xEF) then
     ([], mkState (b - 0xE0) 2 0 (if b =? 0xE0 then 0xA0 else 0x80)
                                 (if b =? 0xED then 0x9F else 0xBF))
   else if (0xF0 <=? b) && (b <=? 0xF4) then
     ([], mkState (b - 0xF0) 3 0 (if b =? 0xF0 then 0x90 else 0x80)
                                 (if b =? 0xF4 then 0x8F else 0xBF))
   else ([0xFFFD], start))%N.

(** One byte: a continuation byte within the bounds extends the code point
    and, when it is the last one, completes it; any other byte ends the
    sequence with U+FFFD and is read again as a first byte. *)
Definition step (st : state) (b : N) : list N * state :=
  (if needed st =? 0 then lead b
   else if (lower st <=? b) && (b <=? upper st) then
     let cp := codePoint st * 64 + (b - 0x80) in
     if seen st + 1 =? needed st then (emit cp, start)
     else ([], mkState cp (needed st) (seen st + 1) 0x80 0xBF)
   else let (out, st') := lead b in (0xFFFD :: out, st'))%N.

Fixpoint run (st : state) (bs : list N) : list N :=
  match bs with
  | [] => if (needed st =? 0)%N then [] else [0xFFFD%N]
  | b :: bs' => let (out, st') := step st b in out ++ run st' bs'
  end.

Definition decode (buf : list byte) : list N := run start (List.map Byte.to_N buf).

End Utf8.

(** ** Plaintexts and passphrases over every JavaScript string

    The exported functions take any JavaScript string. What they do with a
    plaintext or a passphrase outside the code units below 256 is decided by
    the UTF-8 conversion at the border of Node's crypto module:
    [cipher.update(text, "utf-8")] and [scryptSync(passphrase, ...)] read the
    UTF-8 bytes of the string, [decipher.update(.., "utf-8")] and
    [decipher.final("utf-8")] decode bytes to a string. Tokens, file texts and
    the stored secret key stay as above. *)

(** AES-256-CBC on the bytes themselves. *)
Class NodeCipher : Type := {
  (** [c = crypto.createCipheriv("aes-256-cbc", key, iv)], [c.update(data)]
      and [c.final()] on the bytes [data]: the bytes of the ciphertext,
      [None] when the library throws. *)
  cipherBytes : list byte -> list byte -> list byte -> option (list byte);
  (** [d = crypto.createDecipheriv("aes-256-cbc", key, iv)],
      [d.update(encrypted, "hex")] and [d.final()]: the bytes of the
      plaintext, [None] when the library throws. *)
  decipherHex : list byte -> list byte -> string -> option (list byte)
}.

(** AES-256-CBC with a 32-byte key and a 16-byte IV encrypts every non-empty
    sequence of bytes to a non-empty ciphertext that decrypts, under the same
    key and IV, to those bytes. *)
Class CipherLaws (cipher : NodeCipher) : Prop := {
  cipher_round_trip : forall key iv data,
    length key = 32 -> length iv = 16 -> data <> [] ->
    exists c, cipherBytes key iv data = Some c /\ c <> [] /\
              decipherHex key iv (Hex.toHex c) = Some data
}.

Module Wide.

(** [!s] of a string [s] *)
Definition falsy (s : list N) : bool :=
  match s with
  | [] => true
  | _ :: _ => false
  end.

Section Library.
Context {crypto : NodeCrypto}.

Section LineCipher.
Context {cipher : NodeCipher}.

Definition encryptString (text : list N) (secretKey : password) : M string :=
  if falsy text || pwFalsy secretKey then throw EncryptArgsMissing
  else
    let key := scryptSync secretKey salt keyLength in
    iv <- randomBytes 16 ;;
    match cipherBytes key iv (Utf8.encode text) with
    | Some c => ret (token iv c)
    | None => throw CryptoFailure
    end.

Definition decryptString (encryptedText : string) (secretKey : password) : M (list N) :=
  if Js.falsy encryptedText || pwFalsy secretKey then throw DecryptArgsMissing
  else
    let parts := Js.split ":" encryptedText in
    let ivHex := Js.at_ parts 0 in
    let encrypted := Js.at_ parts 1 in
    if Js.falsy ivHex || Js.falsy encrypted then throw BadTokenFormat
    else
      let key := scryptSync secretKey salt keyLength in
      let iv := Hex.fromHex ivHex in
      match decipherHex key iv encrypted with
      | Some decrypted => ret (Utf8.decode decrypted)
      | None => throw CryptoFailure
      end.

End LineCipher.

End Library.

End Wide.

(** [encryptEnv] and [decryptEnv] with a passphrase that is any JavaScript
    string. *)
Module WidePassphrase.

Section Library.
Context {crypto : NodeCrypto}.

(** [scryptSync] reads a string password as its UTF-8 bytes, so what it
    derives from the string is what it derives from the buffer of these
    bytes. *)
Definition deriveKeyFromPassphrase (passphrase : list N) : M (list byte) :=
  if Wide.falsy passphrase then throw PassphraseEmpty
  else ret (scryptSync (PwBuffer (Utf8.encode passphrase)) salt keyLength).

(** The key under which the header is sealed and opened. *)
Definition wrappingKey (passphrase : list N) : list byte :=
  scryptSync (PwBuffer (scryptSync (PwBuffer (Utf8.encode passphrase)) salt keyLength))
             salt keyLength.

Definition encryptEnv (filePath outputPath : string) (passphrase : list N) : M unit :=
  present <- Fs.existsSync filePath ;;
  if negb present then throw (FileMissing filePath)
  else
    stored <- getSecretKey ;;
    match stored with
    | None => throw SecretKeyMissing
    | Some secretKey =>
        if Js.falsy secretKey then throw SecretKeyMissing
        else
          envContent <- Fs.readFileSync filePath ;;
          if Js.falsy envContent then throw (FileEmpty filePath)
          else
            let lines := Js.split LF envContent in
            derivedKey <- deriveKeyFromPassphrase passphrase ;;
            encryptedSecretKey <-
              encryptString (reservedLabel +:+ secretKey) (PwBuffer derivedKey) ;;
            pushed <- mapM (encryptLine secretKey) lines ;;
            let encryptedLines := (headerMarker +:+ encryptedSecretKey) :: pushed in
            Fs.writeFileSync outputPath (Js.join newline encryptedLines) ;;;
            Fs.removeSync filePath ;;;
            consoleLog ("Successfully encrypted " +:+ Path.basename filePath +:+
                        " to " +:+ Path.basename outputPath +:+ ".")
    end.

Definition decryptEnv (filePath outputPath : string) (passphrase : list N) : M unit :=
  present <- Fs.existsSync filePath ;;
  if negb present then throw (FileMissing filePath)
  else
    envContent <- Fs.readFileSync filePath ;;
    let lines := Js.split LF envContent in
    let secretKeyLine := Js.at_ lines 0 in
    if Js.falsy secretKeyLine || negb (Js.startsWith secretKeyLine headerMarker)
    then throw BadEncryptedFile
    else
      let encryptedSecretKey := Js.at_ (Js.split "=" secretKeyLine) 1 in
      derivedKey <- deriveKeyFromPassphrase passphrase ;;
      decryptedSecretKeyLine <-
        decryptString encryptedSecretKey (PwBuffer derivedKey) ;;
      match Js.matchLabel reservedLabel decryptedSecretKeyLine with
      | None => throw BadEncryptedFile
      | Some secretKey =>
          if Js.falsy secretKey then throw BadEncryptedFile
          else
            decryptedLines <- mapM (decryptLine secretKey) (List.tail lines) ;;
            Fs.writeFileSync outputPath (Js.join newline decryptedLines) ;;;
            Fs.removeSync filePath ;;;
            consoleLog ("Successfully decrypted " +:+ Path.basename filePath +:+
                        " to " +:+ Path.basename outputPath +:+ ".")
      end.

End Library.

End WidePassphrase.

(** The small cipher on bytes: the same mask and the same closing byte. *)
Module ToyBytes.

Definition encrypt (key iv data : list byte) : option (list byte) :=
  if Toy.wellSized key iv
  then Some (List.map (Toy.xorByte (Toy.mask key iv)) (data ++ [x80]))
  else None.

Definition decrypt (key iv : list byte) (encrypted : string) : option (list byte) :=
  if Toy.wellSized key iv
  then match rev (List.map (Toy.xorByte (Toy.mask key iv)) (Hex.fromHex encrypted)) with
       | x80 :: body => Some (rev body)
       | _ => None
       end
  else None.

Definition cipher : NodeCipher := {| cipherBytes := encrypt; decipherHex := decrypt |}.

End ToyBytes.

(** * Properties *)

(** ** Strings *)

#[local] Arguments String.append : simpl nomatch.

Example split_lines :
  Js.split LF ("A=1" +:+ newline +:+ newline +:+ "#c") = ["A=1"; ""; "#c"].
Proof. reflexivity. Qed.

Example split_empty : Js.split ":" "" = [""].
Proof. reflexivity. Qed.

Example split_trailing : Js.split LF ("A=1" +:+ newline) = ["A=1"; ""].
Proof. reflexivity. Qed.

Example trim_both_ends : Js.trim (String "009" "  a b  ") = "a b".
Proof. reflexivity. Qed.

Example matchLabel_leftmost :
  Js.matchLabel "K=" ("xK=" +:+ newline +:+ "yK=v w" +:+ newline +:+ "K=z") = Some "v w".
Proof. reflexivity. Qed.

Example fromHex_truncates : Hex.fromHex "1ag123" = [x1a].
Proof. reflexivity. Qed.

Example fromHex_odd : Hex.fromHex "1a7" = [x1a].
Proof. reflexivity. Qed.

Example toHex_lower_case : Hex.toHex [x1a; xff; x00] = "1aff00".
Proof. reflexivity. Qed.

Lemma append_nil_r (s : string) : s +:+ "" = s.
Proof. induction s as [|c s IH]; simpl; [reflexivity | now rewrite IH]. Qed.

Lemma append_inj_l (s a b : string) : s +:+ a = s +:+ b -> a = b.
Proof.
  induction s as [|c s IH]; cbn [append]; [auto |].
  intros [= H]. auto.
Qed.

Lemma append_assoc (s t u : string) : (s +:+ t) +:+ u = s +:+ (t +:+ u).
Proof. induction s as [|c s IH]; simpl; [reflexivity | now rewrite IH]. Qed.

Lemma allChars_app f (s t : string) :
  Js.allChars f (s +:+ t) = Js.allChars f s && Js.allChars f t.
Proof.
  induction s as [|c s IH]; simpl; [reflexivity |].
  rewrite IH. now rewrite andb_assoc.
Qed.

Lemma allChars_impl (f g : ascii -> bool) (s : string) :
  (forall c, f c = true -> g c = true) ->
  Js.allChars f s = true -> Js.allChars g s = true.
Proof.
  intros Hfg. induction s as [|c s IH]; simpl; [reflexivity |].
  intros [Hc Hs]%andb_true_iff. rewrite (Hfg _ Hc). simpl. auto.
Qed.

Lemma split_not_nil sep s : Js.split sep s <> [].
Proof.
  destruct s as [|c s]; simpl; [discriminate |].
  destruct (Ascii.eqb c sep); [discriminate |].
  destruct (Js.split sep s); discriminate.
Qed.

Lemma split_lacks sep s : Js.lacks sep s = true -> Js.split sep s = [s].
Proof.
  unfold Js.lacks. induction s as [|c s IH]; simpl; [reflexivity |].
  intros [Hc Hs]%andb_true_iff. apply negb_true_iff in Hc. rewrite Hc.
  now rewrite (IH Hs).
Qed.

Lemma split_app sep s t :
  Js.lacks sep s = true -> Js.split sep (s +:+ String sep t) = s :: Js.split sep t.
Proof.
  unfold Js.lacks. induction s as [|c s IH]; simpl.
  - intros _. now rewrite Ascii.eqb_refl.
  - intros [Hc Hs]%andb_true_iff. apply negb_true_iff in Hc. rewrite Hc.
    now rewrite (IH Hs).
Qed.

Lemma split_pieces sep s : Forall (fun p => Js.lacks sep p = true) (Js.split sep s).
Proof.
  induction s as [|c s IH]; simpl.
  - constructor; [reflexivity | constructor].
  - destruct (Ascii.eqb c sep) eqn:E.
    + constructor; [reflexivity | assumption].
    + destruct (Js.split sep s) as [|h t]; inversion IH; subst.
      * constructor; [| constructor]. unfold Js.lacks. simpl. now rewrite E.
      * constructor; [| assumption]. unfold Js.lacks in *. simpl. now rewrite E.
Qed.

Lemma join_cons sep x y l :
  Js.join sep (x :: y :: l) = x +:+ sep +:+ Js.join sep (y :: l).
Proof. reflexivity. Qed.

Lemma join_split sep s : Js.join (String sep "") (Js.split sep s) = s.
Proof.
  induction s as [|c s IH]; [reflexivity |].
  simpl Js.split. destruct (Ascii.eqb c sep) eqn:E.
  - apply Ascii.eqb_eq in E. subst c.
    pose proof (split_not_nil sep s) as Hne.
    destruct (Js.split sep s) as [|h t]; [congruence |].
    rewrite join_cons. simpl. now rewrite <- IH.
  - pose proof (split_not_nil sep s) as Hne.
    destruct (Js.split sep s) as [|h t]; [congruence |].
    destruct t as [|h' t].
    + simpl in *. now rewrite IH.
    + rewrite join_cons in *. simpl. now rewrite <- IH.
Qed.

Lemma split_join sep (l : list string) :
  l <> [] -> Forall (fun p => Js.lacks sep p = true) l ->
  Js.split sep (Js.join (String sep "") l) = l.
Proof.
  induction l as [|x l IH]; [congruence |].
  intros _ Hall. inversion Hall as [|? ? Hx Hl]; subst.
  destruct l as [|y l].
  - simpl. now apply split_lacks.
  - rewrite join_cons. simpl append at 2.
    rewrite split_app by assumption. f_equal. apply IH; [discriminate | assumption].
Qed.

Lemma takeWhile_all f s : Js.allChars f s = true -> Js.takeWhile f s = s.
Proof.
  induction s as [|c s IH]; simpl; [reflexivity |].
  intros [Hc Hs]%andb_true_iff. rewrite Hc. now rewrite IH.
Qed.

Lemma takeWhile_allChars f s : Js.allChars f (Js.takeWhile f s) = true.
Proof.
  induction s as [|c s IH]; simpl; [reflexivity |].
  destruct (f c) eqn:E; simpl; [| reflexivity]. now rewrite E.
Qed.

Lemma stripPrefix_cons a p b s :
  Js.stripPrefix (String a p) (String b s) =
  if Ascii.eqb a b then Js.stripPrefix p s else None.
Proof. reflexivity. Qed.

Lemma stripPrefix_app p s : Js.stripPrefix p (p +:+ s) = Some s.
Proof.
  induction p as [|a p IH]; simpl; [reflexivity |].
  now rewrite Ascii.eqb_refl.
Qed.

Lemma stripPrefix_Some p s rest : Js.stripPrefix p s = Some rest -> s = p +:+ rest.
Proof.
  revert s. induction p as [|a p IH]; simpl; intros s H.
  - congruence.
  - destruct s as [|b s]; [discriminate |].
    destruct (Ascii.eqb a b) eqn:E; [| discriminate].
    apply Ascii.eqb_eq in E. subst b. now rewrite (IH _ H).
Qed.

Lemma startsWith_app p s : Js.startsWith (p +:+ s) p = true.
Proof. unfold Js.startsWith. now rewrite stripPrefix_app. Qed.

Lemma trimStart_allChars f s : Js.allChars f s = true -> Js.allChars f (Js.trimStart s) = true.
Proof.
  induction s as [|c s IH]; simpl; [reflexivity |].
  intros H. destruct (Js.isWhiteSpace c); [| exact H].
  apply andb_true_iff in H. now apply IH.
Qed.

Lemma trimEnd_allChars f s : Js.allChars f s = true -> Js.allChars f (Js.trimEnd s) = true.
Proof.
  induction s as [|c s IH]; simpl; [reflexivity |].
  intros [Hc Hs]%andb_true_iff. specialize (IH Hs).
  destruct (Js.trimEnd s) as [|d t].
  - destruct (Js.isWhiteSpace c); simpl; [reflexivity |]. now rewrite Hc.
  - simpl in *. now rewrite Hc.
Qed.

Lemma trim_allChars f s : Js.allChars f s = true -> Js.allChars f (Js.trim s) = true.
Proof. intros H. unfold Js.trim. now apply trimEnd_allChars, trimStart_allChars. Qed.

Lemma trim_not_empty c s : Js.isWhiteSpace c = false -> Js.trim (String c s) <> "".
Proof.
  intros Hc. unfold Js.trim. simpl. rewrite Hc. simpl.
  destruct (Js.trimEnd s); [rewrite Hc |]; discriminate.
Qed.

(** *** The regular expression *)

Lemma matchHere_app label v :
  v <> "" -> Js.allChars Js.notLineTerminator v = true ->
  Js.matchHere label (label +:+ v) = Some v.
Proof.
  intros Hne Hv. unfold Js.matchHere. rewrite stripPrefix_app.
  rewrite (takeWhile_all _ _ Hv). destruct v; congruence.
Qed.

Lemma matchLabel_app label v :
  v <> "" -> Js.allChars Js.notLineTerminator v = true ->
  Js.matchLabel label (label +:+ v) = Some v.
Proof.
  intros Hne Hv. pose proof (matchHere_app label v Hne Hv) as H.
  destruct (label +:+ v); simpl; now rewrite H.
Qed.

Lemma matchHere_group label s v :
  Js.matchHere label s = Some v ->
  v <> "" /\ Js.allChars Js.notLineTerminator v = true.
Proof.
  unfold Js.matchHere. destruct (Js.stripPrefix label s) as [rest|]; [| discriminate].
  pose proof (takeWhile_allChars Js.notLineTerminator rest) as Hall.
  destruct (Js.takeWhile Js.notLineTerminator rest); [discriminate |].
  intros [= <-]. split; [discriminate | assumption].
Qed.

Lemma matchLabel_unfold label s :
  Js.matchLabel label s =
  match Js.matchHere label s with
  | Some v => Some v
  | None => match s with
            | EmptyString => None
            | String _ s' => Js.matchLabel label s'
            end
  end.
Proof. destruct s; reflexivity. Qed.

Lemma matchLabel_group label s v :
  Js.matchLabel label s = Some v ->
  v <> "" /\ Js.allChars Js.notLineTerminator v = true.
Proof.
  induction s as [|c s IH]; rewrite matchLabel_unfold;
    destruct (Js.matchHere label _) eqn:E.
  - intros [= <-]. eapply matchHere_group, E.
  - discriminate.
  - intros [= <-]. eapply matchHere_group, E.
  - exact IH.
Qed.

(** ** Hexadecimal text *)

Lemma fromHex_toHex_byte (b : byte) (s : string) :
  Hex.fromHex (Hex.toHex [b] +:+ s) = b :: Hex.fromHex s.
Proof. destruct b; reflexivity. Qed.

Lemma toHex_cons b buf : Hex.toHex (b :: buf) = Hex.toHex [b] +:+ Hex.toHex buf.
Proof. reflexivity. Qed.

Lemma fromHex_toHex_app buf s : Hex.fromHex (Hex.toHex buf +:+ s) = buf ++ Hex.fromHex s.
Proof.
  induction buf as [|b buf IH]; [reflexivity |].
  rewrite toHex_cons, append_assoc, fromHex_toHex_byte, IH. reflexivity.
Qed.

Lemma fromHex_toHex buf : Hex.fromHex (Hex.toHex buf) = buf.
Proof.
  rewrite <- (append_nil_r (Hex.toHex buf)), fromHex_toHex_app.
  simpl. apply app_nil_r.
Qed.

Lemma toHex_byte_digits (b : byte) : Js.allChars Hex.isHexDigit (Hex.toHex [b]) = true.
Proof. destruct b; reflexivity. Qed.

Lemma toHex_digits buf : Js.allChars Hex.isHexDigit (Hex.toHex buf) = true.
Proof.
  induction buf as [|b buf IH]; [reflexivity |].
  rewrite toHex_cons, allChars_app, toHex_byte_digits, IH. reflexivity.
Qed.

Lemma toHex_not_empty buf : buf <> [] -> Hex.toHex buf <> "".
Proof. destruct buf; [congruence | discriminate]. Qed.

Lemma hexDigit_cases (c : ascii) :
  Hex.isHexDigit c = true ->
  Js.isWhiteSpace c = false /\ Ascii.eqb c ":" = false /\ Ascii.eqb c "=" = false /\
  Ascii.eqb c LF = false /\ Ascii.eqb c "#" = false.
Proof.
  destruct c as [[] [] [] [] [] [] [] []]; intros H;
    first [discriminate H | repeat split; reflexivity].
Qed.

Lemma toHex_lacks buf (c : ascii) :
  (forall d, Hex.isHexDigit d = true -> Ascii.eqb d c = false) ->
  Js.lacks c (Hex.toHex buf) = true.
Proof.
  intros Hc. unfold Js.lacks. eapply allChars_impl; [| apply toHex_digits].
  intros d Hd. simpl. now rewrite (Hc d Hd).
Qed.

Lemma toHex_lacks_colon buf : Js.lacks ":" (Hex.toHex buf) = true.
Proof. apply toHex_lacks. intros d Hd. apply (hexDigit_cases d Hd). Qed.


(** ** Tokens *)

Lemma token_split iv c : Js.split ":" (token iv c) = [Hex.toHex iv; Hex.toHex c].
Proof.
  unfold token. change (":" +:+ Hex.toHex c) with (String ":" (Hex.toHex c)).
  rewrite split_app by apply toHex_lacks_colon.
  now rewrite split_lacks by apply toHex_lacks_colon.
Qed.

Lemma token_lacks iv c (x : ascii) :
  Ascii.eqb ":" x = false ->
  (forall d, Hex.isHexDigit d = true -> Ascii.eqb d x = false) ->
  Js.lacks x (token iv c) = true.
Proof.
  intros Hx Hd. unfold token, Js.lacks. rewrite !allChars_app.
  fold (Js.lacks x (Hex.toHex iv)). fold (Js.lacks x (Hex.toHex c)).
  rewrite !toHex_lacks by assumption.
  change (Js.allChars (fun x0 : ascii => negb (Ascii.eqb x0 x)) ":")
    with (negb (Ascii.eqb ":" x) && true).
  now rewrite Hx.
Qed.

Lemma token_lacks_LF iv c : Js.lacks LF (token iv c) = true.
Proof. apply token_lacks; [reflexivity |]. intros d Hd. apply (hexDigit_cases d Hd). Qed.

Lemma token_lacks_equals iv c : Js.lacks "=" (token iv c) = true.
Proof. apply token_lacks; [reflexivity |]. intros d Hd. apply (hexDigit_cases d Hd). Qed.

Lemma token_head iv c :
  iv <> [] -> exists d rest, token iv c = String d rest /\ Hex.isHexDigit d = true.
Proof.
  intros Hiv. destruct iv as [|b iv]; [congruence |].
  pose proof (toHex_byte_digits b) as Hb.
  unfold token. rewrite toHex_cons. simpl in *.
  apply andb_true_iff in Hb as [Hb _]. eauto.
Qed.

Lemma token_not_passedThrough iv c : iv <> [] -> passedThrough (token iv c) = false.
Proof.
  intros Hiv. destruct (token_head iv c Hiv) as (d & rest & -> & Hd).
  destruct (hexDigit_cases d Hd) as (Hws & _ & _ & _ & Hhash).
  unfold passedThrough. apply orb_false_iff. split.
  - apply String.eqb_neq. now apply trim_not_empty.
  - unfold Js.startsWith. rewrite stripPrefix_cons, Ascii.eqb_sym, Hhash. reflexivity.
Qed.

Lemma token_not_falsy iv c : iv <> [] -> Js.falsy (token iv c) = false.
Proof. intros Hiv. now destruct (token_head iv c Hiv) as (d & rest & -> & _). Qed.

Lemma header_split iv c :
  Js.at_ (Js.split "=" (headerMarker +:+ token iv c)) 1 = token iv c.
Proof.
  change (headerMarker +:+ token iv c) with ("SECRET_KEY" +:+ String "=" (token iv c)).
  rewrite split_app by reflexivity.
  now rewrite split_lacks by apply token_lacks_equals.
Qed.

Lemma header_lacks_LF iv c : Js.lacks LF (headerMarker +:+ token iv c) = true.
Proof.
  unfold Js.lacks. rewrite allChars_app. fold (Js.lacks LF (token iv c)).
  now rewrite token_lacks_LF.
Qed.

(** ** The monad *)

Lemma bind_Ok {A B} (m : M A) (k : A -> M B) w a w' :
  m w = (Ok a, w') -> bind m k w = k a w'.
Proof. intros H. unfold bind. now rewrite H. Qed.

Lemma sameButEntropy_trans w1 w2 w3 :
  sameButEntropy w1 w2 -> sameButEntropy w2 w3 -> sameButEntropy w1 w3.
Proof. intros (?&?&?) (?&?&?). repeat split; congruence. Qed.

Lemma existsSync_present p text w :
  files w !! p = Some text -> Fs.existsSync p w = (Ok true, w).
Proof.
  intros H. unfold Fs.existsSync. rewrite bool_decide_eq_true_2; [reflexivity |].
  rewrite H. eauto.
Qed.

Lemma existsSync_absent p w :
  files w !! p = None -> Fs.existsSync p w = (Ok false, w).
Proof.
  intros H. unfold Fs.existsSync. rewrite bool_decide_eq_false_2; [reflexivity |].
  rewrite H. intros [? ?]. discriminate.
Qed.

Lemma readFileSync_present p text w :
  files w !! p = Some text -> Fs.readFileSync p w = (Ok text, w).
Proof. intros H. unfold Fs.readFileSync. now rewrite H. Qed.

Lemma falsy_false s : s <> "" -> Js.falsy s = false.
Proof. destruct s; [congruence | reflexivity]. Qed.

(** ** The line cipher *)

Section Cipher.
Context {crypto : NodeCrypto}.

Lemma nextIV_length w : length (nextIV w) = 16.
Proof. unfold nextIV. now rewrite length_map, length_seq. Qed.

Lemma nextIV_not_nil w : nextIV w <> [].
Proof. intros H. pose proof (nextIV_length w) as L. rewrite H in L. discriminate. Qed.

Lemma randomBytes_16 w :
  exists w', randomBytes 16 w = (Ok (nextIV w), w') /\ sameButEntropy w w'.
Proof. eexists. split; [reflexivity |]. now repeat split. Qed.

(** Opening a token of the shape that [encryptString] writes: the outcome is
    the decipher's. *)
Lemma decryptString_token iv c key w :
  iv <> [] -> c <> [] -> pwFalsy key = false ->
  decryptString (token iv c) key w =
  (match aesDecrypt (scryptSync key salt keyLength) iv (Hex.toHex c) with
   | Some text => Ok text
   | None => Err CryptoFailure
   end, w).
Proof.
  intros Hiv Hc Hkey. unfold decryptString.
  rewrite token_not_falsy, Hkey by assumption. cbn [orb]. cbv zeta.
  rewrite token_split. unfold Js.at_. cbn [nth].
  rewrite !falsy_false by now apply toHex_not_empty.
  cbn [orb]. rewrite fromHex_toHex.
  now destruct (aesDecrypt _ _ _).
Qed.

Context {laws : CryptoLaws crypto}.

Lemma encryptString_run text key w :
  text <> "" -> pwFalsy key = false ->
  exists c w',
    encryptString text key w = (Ok (token (nextIV w) c), w') /\
    sameButEntropy w w' /\ c <> [] /\
    aesEncrypt (scryptSync key salt keyLength) (nextIV w) text = Some c /\
    aesDecrypt (scryptSync key salt keyLength) (nextIV w) (Hex.toHex c) = Some text.
Proof.
  intros Htext Hkey.
  destruct (aes_round_trip (scryptSync key salt keyLength) (nextIV w) text)
    as (c & Henc & Hc & Hdec);
    [apply scrypt_length | apply nextIV_length | assumption |].
  destruct (randomBytes_16 w) as (w' & Hrand & Hsame).
  exists c, w'. repeat split; try assumption; try apply Hsame.
  unfold encryptString. rewrite (falsy_false _ Htext), Hkey. cbn [orb]. cbv zeta.
  rewrite (bind_Ok _ _ _ _ _ Hrand). now rewrite Henc.
Qed.

Lemma passedThrough_not_empty l : passedThrough l = false -> l <> "".
Proof. intros H ->. discriminate H. Qed.

Lemma encryptLine_run sk l w :
  sk <> "" ->
  exists e w',
    encryptLine sk l w = (Ok e, w') /\ sameButEntropy w w' /\
    (passedThrough l = true -> e = l) /\
    (Js.lacks LF l = true -> Js.lacks LF e = true) /\
    (forall w'', decryptLine sk e w'' = (Ok l, w'')).
Proof.
  intros Hsk. unfold encryptLine. destruct (passedThrough l) eqn:Hp.
  - exists l, w. repeat split; auto.
    intros w''. unfold decryptLine. now rewrite Hp.
  - destruct (encryptString_run l (PwString sk) w) as (c & w' & Hrun & Hsame & Hc & _ & Hdec);
      [now apply passedThrough_not_empty | now apply falsy_false |].
    exists (token (nextIV w) c), w'. repeat split; try assumption; try apply Hsame.
    + discriminate.
    + intros _. apply token_lacks_LF.
    + intros w''. unfold decryptLine.
      rewrite token_not_passedThrough by apply nextIV_not_nil.
      rewrite decryptString_token;
        [| apply nextIV_not_nil | assumption | now apply falsy_false].
      now rewrite Hdec.
Qed.

Lemma encryptLines_run sk (lines : list string) w :
  sk <> "" ->
  exists encs w',
    mapM (encryptLine sk) lines w = (Ok encs, w') /\ sameButEntropy w w' /\
    length encs = length lines /\
    (forall i l, lines !! i = Some l -> passedThrough l = true -> encs !! i = Some l) /\
    (Forall (fun l => Js.lacks LF l = true) lines ->
     Forall (fun l => Js.lacks LF l = true) encs) /\
    (forall w'', mapM (decryptLine sk) encs w'' = (Ok lines, w'')).
Proof.
  intros Hsk. revert w. induction lines as [|l lines IH]; intros w.
  - exists [], w. repeat split; auto.
  - destruct (encryptLine_run sk l w Hsk) as (e & w1 & Hrun & Hsame1 & Hpass & Hlf & Hdec).
    destruct (IH w1) as (encs & w2 & Hruns & Hsame2 & Hlen & Hpasss & Hlfs & Hdecs).
    exists (e :: encs), w2. split; [| split; [| split; [| split; [| split]]]].
    + simpl. rewrite (bind_Ok _ _ _ _ _ Hrun), (bind_Ok _ _ _ _ _ Hruns). reflexivity.
    + eapply sameButEntropy_trans; eassumption.
    + simpl. now rewrite Hlen.
    + intros [|i] l' Hl Hp; simpl in *.
      * injection Hl as ->. now rewrite (Hpass Hp).
      * eauto.
    + intros Hall. inversion Hall; subst. constructor; auto.
    + intros w''. simpl. rewrite (bind_Ok _ _ _ _ _ (Hdec w'')), (bind_Ok _ _ _ _ _ (Hdecs w'')).
      reflexivity.
Qed.

End Cipher.

(** ** The secret key in [.env] *)

Lemma bind_run {A B} (m : M A) (k : A -> M B) w :
  bind m k w = match m w with
               | (Ok a, w') => k a w'
               | (Err e, w') => (Err e, w')
               end.
Proof. reflexivity. Qed.

Lemma getSecretKey_run w :
  getSecretKey w =
  (Ok match envFile w with
      | Some text => option_map Js.trim (Js.matchLabel reservedLabel text)
      | None => None
      end, w).
Proof.
  unfold getSecretKey, envFile, getCwd. rewrite bind_run. cbv zeta.
  destruct (files w !! Path.join (cwd w) ".env") as [text|] eqn:E.
  - rewrite (bind_Ok _ _ _ _ _ (existsSync_present _ _ _ E)). cbn [negb].
    rewrite (bind_Ok _ _ _ _ _ (readFileSync_present _ _ _ E)).
    destruct (Js.matchLabel reservedLabel text) as [g|] eqn:G; [| reflexivity].
    destruct (matchLabel_group _ _ _ G) as [Hne _].
    now rewrite (falsy_false _ Hne).
  - now rewrite (bind_Ok _ _ _ _ _ (existsSync_absent _ _ E)).
Qed.

Lemma getSecretKey_chars w secret :
  fst (getSecretKey w) = Ok (Some secret) ->
  Js.allChars Js.notLineTerminator secret = true.
Proof.
  rewrite getSecretKey_run. cbn [fst]. destruct (envFile w) as [text|]; [| discriminate].
  destruct (Js.matchLabel reservedLabel text) as [g|] eqn:G; [| discriminate].
  intros [= <-]. apply trim_allChars. eapply matchLabel_group, G.
Qed.

(** ** The file codec *)

Section Codec.
Context {crypto : NodeCrypto}.

Lemma deriveKeyFromPassphrase_run passphrase w :
  passphrase <> "" ->
  deriveKeyFromPassphrase passphrase w =
  (Ok (scryptSync (PwString passphrase) salt keyLength), w).
Proof. intros H. unfold deriveKeyFromPassphrase. now rewrite (falsy_false _ H). Qed.

(** [decryptEnv] on a file of the shape that [encryptEnv] writes, up to the
    point where the header is opened and read. *)
Lemma decryptEnv_header w filePath outputPath passphrase iv c (encs : list string) :
  files w !! filePath = Some (Js.join newline ((headerMarker +:+ token iv c) :: encs)) ->
  iv <> [] -> c <> [] -> Forall (fun l => Js.lacks LF l = true) encs ->
  passphrase <> "" ->
  decryptEnv filePath outputPath passphrase w =
  match aesDecrypt (wrappingKey passphrase) iv (Hex.toHex c) with
  | None => (Err CryptoFailure, w)
  | Some line =>
      match Js.matchLabel reservedLabel line with
      | None => (Err BadEncryptedFile, w)
      | Some secretKey =>
          if Js.falsy secretKey then (Err BadEncryptedFile, w)
          else
            (decryptedLines <- mapM (decryptLine secretKey) encs ;;
             Fs.writeFileSync outputPath (Js.join newline decryptedLines) ;;;
             Fs.removeSync filePath ;;;
             consoleLog ("Successfully decrypted " +:+ Path.basename filePath +:+
                         " to " +:+ Path.basename outputPath +:+ ".")) w
      end
  end.
Proof.
  intros Hfile Hiv Hc Hencs Hpass. unfold decryptEnv.
  rewrite (bind_Ok _ _ _ _ _ (existsSync_present _ _ _ Hfile)). cbn [negb].
  rewrite (bind_Ok _ _ _ _ _ (readFileSync_present _ _ _ Hfile)). cbv zeta.
  unfold newline, LF. rewrite split_join;
    [| discriminate | constructor; [apply header_lacks_LF | assumption]].
  change (Js.at_ ((headerMarker +:+ token iv c) :: encs) 0)
    with (headerMarker +:+ token iv c).
  cbn [List.tail].
  change (Js.falsy (headerMarker +:+ token iv c)) with false.
  rewrite startsWith_app. cbn [orb negb].
  rewrite header_split.
  rewrite (bind_Ok _ _ _ _ _ (deriveKeyFromPassphrase_run _ _ Hpass)).
  rewrite bind_run, decryptString_token by (assumption || reflexivity).
  fold (wrappingKey passphrase).
  destruct (aesDecrypt _ _ _) as [line|]; [| reflexivity].
  destruct (Js.matchLabel reservedLabel line) as [sk|]; [| reflexivity].
  destruct (Js.falsy sk); reflexivity.
Qed.

Lemma decryptEnv_rejected w filePath outputPath passphrase iv c (encs : list string) :
  files w !! filePath = Some (Js.join newline ((headerMarker +:+ token iv c) :: encs)) ->
  iv <> [] -> c <> [] -> Forall (fun l => Js.lacks LF l = true) encs ->
  passphrase <> "" ->
  aesDecrypt (wrappingKey passphrase) iv (Hex.toHex c) = None ->
  decryptEnv filePath outputPath passphrase w = (Err CryptoFailure, w).
Proof.
  intros Hfile Hiv Hc Hencs Hpass Hrej.
  rewrite (decryptEnv_header _ _ _ _ _ _ _ Hfile) by assumption. now rewrite Hrej.
Qed.

(** [decryptEnv] on a sealed file, under a passphrase whose wrapping key is
    the one the file was sealed with. *)
Lemma decryptEnv_sealed w filePath outputPath pass pass' secret lines iv c encs :
  files w !! filePath = Some (Js.join newline ((headerMarker +:+ token iv c) :: encs)) ->
  sealed pass secret lines iv c encs ->
  secret <> "" -> Js.allChars Js.notLineTerminator secret = true ->
  pass' <> "" -> wrappingKey pass' = wrappingKey pass ->
  exists w',
    decryptEnv filePath outputPath pass' w = (Ok tt, w') /\
    cwd w' = cwd w /\ entropy w' = entropy w /\
    files w' = delete filePath (<[outputPath := Js.join newline lines]> (files w)).
Proof.
  intros Hfile (Hiv & Hc & _ & Hdec & _ & _ & Hlf & Hlines) Hsecret Hchars Hpass Hkey.
  rewrite (decryptEnv_header _ _ _ _ _ _ _ Hfile) by assumption.
  rewrite Hkey, Hdec, (matchLabel_app _ _ Hsecret Hchars), (falsy_false _ Hsecret).
  rewrite (bind_Ok _ _ _ _ _ (Hlines w)).
  eexists. split; [reflexivity |]. now repeat split.
Qed.

Context {laws : CryptoLaws crypto}.

Lemma encryptEnv_run w filePath outputPath passphrase content secret :
  files w !! filePath = Some content -> content <> "" ->
  fst (getSecretKey w) = Ok (Some secret) -> secret <> "" ->
  passphrase <> "" ->
  exists c encs w',
    encryptEnv filePath outputPath passphrase w = (Ok tt, w') /\
    cwd w' = cwd w /\
    files w' = delete filePath
      (<[outputPath := Js.join newline ((headerMarker +:+ token (nextIV w) c) :: encs)]>
         (files w)) /\
    sealed passphrase secret (Js.split LF content) (nextIV w) c encs.
Proof.
  intros Hfile Hcontent Hget Hsecret Hpass.
  assert (Hget' : getSecretKey w = (Ok (Some secret), w)).
  { rewrite getSecretKey_run in *. cbn [fst] in Hget. congruence. }
  destruct (encryptString_run (reservedLabel +:+ secret)
              (PwBuffer (scryptSync (PwString passphrase) salt keyLength)) w)
    as (c & w1 & Hseal & Hsame1 & Hc & Henc & Hdec); [discriminate | reflexivity |].
  destruct (encryptLines_run secret (Js.split LF content) w1 Hsecret)
    as (encs & w2 & Hlines & Hsame2 & Hlen & Hpt & Hlf & Hback).
  pose proof (sameButEntropy_trans _ _ _ Hsame1 Hsame2) as (Hcwd & Hfiles & _).
  exists c, encs. eexists.
  split; [| split; [| split]].
  - unfold encryptEnv.
    rewrite (bind_Ok _ _ _ _ _ (existsSync_present _ _ _ Hfile)). cbn [negb].
    rewrite (bind_Ok _ _ _ _ _ Hget'), (falsy_false _ Hsecret).
    rewrite (bind_Ok _ _ _ _ _ (readFileSync_present _ _ _ Hfile)), (falsy_false _ Hcontent).
    cbv zeta.
    rewrite (bind_Ok _ _ _ _ _ (deriveKeyFromPassphrase_run _ _ Hpass)).
    rewrite (bind_Ok _ _ _ _ _ Hseal), (bind_Ok _ _ _ _ _ Hlines).
    reflexivity.
  - exact Hcwd.
  - cbn. now rewrite Hfiles.
  - repeat split; try assumption.
    + apply nextIV_not_nil.
    + apply Hlf, split_pieces.
Qed.

(** [encryptEnv], then [decryptEnv] under the same passphrase: the text of
    the file comes back, and each file is removed once it has been read. *)
Lemma encrypt_then_decrypt w filePath outputPath restoredPath pass content secret :
  files w !! filePath = Some content -> content <> "" ->
  fst (getSecretKey w) = Ok (Some secret) -> secret <> "" ->
  pass <> "" ->
  filePath <> outputPath -> outputPath <> restoredPath ->
  exists w1 w2 encrypted,
    encryptEnv filePath outputPath pass w = (Ok tt, w1) /\
    files w1 !! outputPath = Some encrypted /\
    files w1 !! filePath = None /\
    (forall i l, Js.split LF content !! i = Some l -> passedThrough l = true ->
                 Js.split LF encrypted !! S i = Some l) /\
    decryptEnv outputPath restoredPath pass w1 = (Ok tt, w2) /\
    files w2 !! restoredPath = Some content /\
    files w2 !! outputPath = None.
Proof.
  intros Hfile Hcontent Hget Hsecret Hpass Hne1 Hne2.
  destruct (encryptEnv_run w filePath outputPath pass _ secret Hfile Hcontent Hget
              Hsecret Hpass)
    as (c & encs & w1 & Henc & _ & Hfiles1 & Hsealed).
  assert (Hout : files w1 !! outputPath =
                 Some (Js.join newline ((headerMarker +:+ token (nextIV w) c) :: encs))).
  { rewrite Hfiles1, lookup_delete_ne, lookup_insert_eq by assumption. reflexivity. }
  destruct (decryptEnv_sealed w1 outputPath restoredPath pass pass secret _ _ c encs
              Hout Hsealed Hsecret (getSecretKey_chars _ _ Hget) Hpass eq_refl)
    as (w2 & Hdec & _ & _ & Hfiles2).
  destruct Hsealed as (_ & _ & _ & _ & _ & Hpt & Hlfe & _).
  exists w1, w2. eexists.
  split; [exact Henc |]. split; [exact Hout |].
  split; [now rewrite Hfiles1, lookup_delete_eq |].
  split; [| split; [exact Hdec | split]].
  - intros i l Hl Hp. unfold newline.
    rewrite split_join; [| discriminate | constructor; [apply header_lacks_LF | assumption]].
    cbn. eauto.
  - rewrite Hfiles2, lookup_delete_ne, lookup_insert_eq by assumption.
    unfold newline, LF. now rewrite join_split.
  - now rewrite Hfiles2, lookup_delete_eq.
Qed.

End Codec.

(** ** The small cipher satisfies the laws *)

Lemma xorb_cancel (x y : bool) : xorb x (xorb x y) = y.
Proof. now destruct x, y. Qed.

Lemma xorByte_cancel (m a : byte) : Toy.xorByte m (Toy.xorByte m a) = a.
Proof.
  unfold Toy.xorByte.
  destruct (Byte.to_bits m) as (m0 & m1 & m2 & m3 & m4 & m5 & m6 & m7).
  destruct (Byte.to_bits a) as (a0 & a1 & a2 & a3 & a4 & a5 & a6 & a7) eqn:Ea.
  rewrite Byte.to_bits_of_bits, !xorb_cancel, <- Ea.
  apply Byte.of_bits_to_bits.
Qed.

Lemma map_xorByte_cancel (m : byte) (l : list byte) :
  List.map (Toy.xorByte m) (List.map (Toy.xorByte m) l) = l.
Proof.
  induction l as [|a l IH]; [reflexivity |].
  cbn [List.map]. now rewrite xorByte_cancel, IH.
Qed.

Lemma toy_scrypt_length p s n : length (Toy.scrypt p s n) = n.
Proof.
  unfold Toy.scrypt. rewrite length_take, !length_app, repeat_length. lia.
Qed.

Lemma toy_round_trip key iv text :
  length key = 32 -> length iv = 16 -> text <> "" ->
  exists c, Toy.encrypt key iv text = Some c /\ c <> [] /\
            Toy.decrypt key iv (Hex.toHex c) = Some text.
Proof.
  intros Hkey Hiv _. unfold Toy.encrypt, Toy.decrypt, Toy.wellSized.
  rewrite Hkey, Hiv. cbn [Nat.eqb andb].
  eexists. split; [reflexivity |]. split.
  - rewrite map_app. intros H. apply app_eq_nil in H as [_ H]. discriminate H.
  - rewrite fromHex_toHex, map_xorByte_cancel, rev_app_distr. cbn [rev app].
    now rewrite rev_involutive, string_of_list_byte_of_string.
Qed.

Lemma toy_laws : CryptoLaws Toy.crypto.
Proof.
  constructor.
  - exact toy_scrypt_length.
  - exact toy_round_trip.
Qed.

(** * The claims *)

(** The round trip of the line cipher on the strings of the file model: for
    every non-empty text of code units below 256 and every valid key,
    [encryptString] returns a token and [decryptString] of that token under
    the same key returns the text. *)
Theorem seal_open_round_trip {crypto : NodeCrypto} {laws : CryptoLaws crypto}
    (text : string) (key : password) (w : World) :
  text <> "" -> pwFalsy key = false ->
  exists tok w',
    encryptString text key w = (Ok tok, w') /\
    forall w'', decryptString tok key w'' = (Ok text, w'').
Proof.
  intros Htext Hkey.
  destruct (encryptString_run text key w Htext Hkey) as (c & w' & Hrun & _ & Hc & _ & Hdec).
  exists (token (nextIV w) c), w'. split; [exact Hrun |].
  intros w''. rewrite decryptString_token by (apply nextIV_not_nil || assumption).
  now rewrite Hdec.
Qed.

Lemma seal_open_round_trip_witness :
  CryptoLaws Toy.crypto /\ "A=1" <> "" /\ pwFalsy (PwString "s3cr3t") = false /\
  exists tok w',
    encryptString (crypto := Toy.crypto) "A=1" (PwString "s3cr3t") (Toy.world []) = (Ok tok, w') /\
    forall w'', decryptString (crypto := Toy.crypto) tok (PwString "s3cr3t") w'' = (Ok "A=1", w'').
Proof.
  split; [exact toy_laws |]. split; [discriminate |]. split; [reflexivity |].
  apply (seal_open_round_trip (laws := toy_laws)); [discriminate | reflexivity].
Defined.

(** ** UTF-8 *)

Ltac divlia := zify; Z.to_euclidean_division_equations; lia.

(** Settles the comparisons of the goal, one after the other. *)
Ltac settle :=
  repeat match goal with
    | |- context [(?a <=? ?b)%N] =>
        first [ replace (a <=? b)%N with true by (symmetry; apply N.leb_le; divlia)
              | replace (a <=? b)%N with false by (symmetry; apply N.leb_gt; divlia) ]
    | |- context [(?a <? ?b)%N] =>
        first [ replace (a <? b)%N with true by (symmetry; apply N.ltb_lt; divlia)
              | replace (a <? b)%N with false by (symmetry; apply N.ltb_ge; divlia) ]
    | |- context [(?a =? ?b)%N] =>
        first [ replace (a =? b)%N with true by (symmetry; apply N.eqb_eq; divlia)
              | replace (a =? b)%N with false by (symmetry; apply N.eqb_neq; divlia) ]
    end.

Ltac eqcases :=
  repeat match goal with
    | |- context [(?a =? ?b)%N] => destruct (N.eqb_spec a b)
    end.

Lemma run_cons st b bs :
  Utf8.run st (b :: bs) = fst (Utf8.step st b) ++ Utf8.run (snd (Utf8.step st b)) bs.
Proof. cbn [Utf8.run]. now destruct (Utf8.step st b). Qed.

Lemma step_start b : Utf8.step Utf8.start b = Utf8.lead b.
Proof. reflexivity. Qed.

Lemma lead_one b : (b < 0x80)%N -> Utf8.lead b = ([b], Utf8.start).
Proof. intros H. unfold Utf8.lead. settle. reflexivity. Qed.

Lemma lead_two b :
  (0xC2 <= b <= 0xDF)%N -> Utf8.lead b = ([], Utf8.mkState (b - 0xC0) 1 0 0x80 0xBF).
Proof. intros H. unfold Utf8.lead. settle. reflexivity. Qed.

Lemma lead_three b :
  (0xE0 <= b <= 0xEF)%N ->
  Utf8.lead b = ([], Utf8.mkState (b - 0xE0) 2 0 (if (b =? 0xE0)%N then 0xA0 else 0x80)%N
                                             (if (b =? 0xED)%N then 0x9F else 0xBF)%N).
Proof. intros H. unfold Utf8.lead. settle. reflexivity. Qed.

Lemma lead_four b :
  (0xF0 <= b <= 0xF4)%N ->
  Utf8.lead b = ([], Utf8.mkState (b - 0xF0) 3 0 (if (b =? 0xF0)%N then 0x90 else 0x80)%N
                                             (if (b =? 0xF4)%N then 0x8F else 0xBF)%N).
Proof. intros H. unfold Utf8.lead. settle. reflexivity. Qed.

Lemma step_last cp n s lo up b :
  (lo <= b <= up)%N -> (s + 1 = n)%N ->
  Utf8.step (Utf8.mkState cp n s lo up) b = (Utf8.emit (cp * 64 + (b - 0x80))%N, Utf8.start).
Proof.
  intros H Hn. unfold Utf8.step.
  cbn [Utf8.needed Utf8.lower Utf8.upper Utf8.seen Utf8.codePoint]. settle. reflexivity.
Qed.

Lemma step_more cp n s lo up b :
  (lo <= b <= up)%N -> (s + 1 < n)%N ->
  Utf8.step (Utf8.mkState cp n s lo up) b =
  ([], Utf8.mkState (cp * 64 + (b - 0x80))%N n (s + 1)%N 0x80 0xBF).
Proof.
  intros H Hn. unfold Utf8.step.
  cbn [Utf8.needed Utf8.lower Utf8.upper Utf8.seen Utf8.codePoint]. settle. reflexivity.
Qed.

Lemma emit_unit cp : (cp < 0x10000)%N -> Utf8.emit cp = [cp].
Proof. intros H. unfold Utf8.emit. settle. reflexivity. Qed.

Lemma emit_pair (hi lo : N) :
  (0xD800 <= hi <= 0xDBFF)%N -> (0xDC00 <= lo <= 0xDFFF)%N ->
  Utf8.emit (0x10000 + (hi - 0xD800) * 1024 + (lo - 0xDC00))%N = [hi; lo].
Proof. intros Hh Hl. unfold Utf8.emit. settle. f_equal; [| f_equal]; divlia. Qed.

(** The decoder reads back what the encoder writes of a code point. *)
Lemma run_encodeScalar (cp : N) rest :
  (cp < 0xD800 \/ 0xDFFF < cp)%N -> (cp < 0x110000)%N ->
  Utf8.run Utf8.start (Utf8.encodeScalar cp ++ rest) = Utf8.emit cp ++ Utf8.run Utf8.start rest.
Proof.
  intros Hs Hmax. unfold Utf8.encodeScalar.
  destruct (N.ltb_spec cp 0x80) as [H1|H1];
    [| destruct (N.ltb_spec cp 0x800) as [H2|H2];
       [| destruct (N.ltb_spec cp 0x10000) as [H3|H3]]]; cbn [app].
  - rewrite run_cons, step_start, lead_one by assumption.
    now rewrite emit_unit by divlia.
  - rewrite run_cons, step_start, lead_two by divlia. cbn [fst snd app].
    rewrite run_cons, step_last by divlia. cbn [fst snd].
    f_equal. f_equal. divlia.
  - rewrite run_cons, step_start, lead_three by divlia. cbn [fst snd app].
    rewrite run_cons, step_more by (eqcases; divlia). cbn [fst snd app].
    rewrite run_cons, step_last by divlia. cbn [fst snd].
    f_equal. f_equal. divlia.
  - rewrite run_cons, step_start, lead_four by divlia. cbn [fst snd app].
    rewrite run_cons, step_more by (eqcases; divlia). cbn [fst snd app].
    rewrite run_cons, step_more by divlia. cbn [fst snd app].
    rewrite run_cons, step_last by divlia. cbn [fst snd].
    f_equal. f_equal. divlia.
Qed.

Lemma isHigh_true u : Utf8.isHigh u = true -> (0xD800 <= u <= 0xDBFF)%N.
Proof. unfold Utf8.isHigh. intros [H1 H2]%andb_true_iff. apply N.leb_le in H1, H2. lia. Qed.

Lemma isLow_true u : Utf8.isLow u = true -> (0xDC00 <= u <= 0xDFFF)%N.
Proof. unfold Utf8.isLow. intros [H1 H2]%andb_true_iff. apply N.leb_le in H1, H2. lia. Qed.

Lemma not_surrogate u :
  Utf8.isHigh u = false -> Utf8.isLow u = false -> (u < 0xD800 \/ 0xDFFF < u)%N.
Proof.
  unfold Utf8.isHigh, Utf8.isLow. intros H1 H2.
  apply andb_false_iff in H1, H2.
  destruct H1 as [H1|H1], H2 as [H2|H2]; apply N.leb_gt in H1, H2; lia.
Qed.

Lemma byteOfN_to_N (n : N) : (n < 256)%N -> Byte.to_N (Hex.byteOfN n) = n.
Proof.
  intros H. unfold Hex.byteOfN. destruct (Byte.of_N n) as [b|] eqn:E.
  - now apply Byte.to_of_N.
  - apply Byte.of_N_None_iff in E. lia.
Qed.

Lemma encodeScalar_bytes cp :
  (cp < 0x110000)%N -> Forall (fun b => (b < 256)%N) (Utf8.encodeScalar cp).
Proof.
  intros H. unfold Utf8.encodeScalar.
  destruct (N.ltb_spec cp 0x80); [| destruct (N.ltb_spec cp 0x800);
    [| destruct (N.ltb_spec cp 0x10000)]];
    repeat (constructor; [divlia |]); constructor.
Qed.

Lemma encodeScalar_not_nil cp : Utf8.encodeScalar cp <> [].
Proof.
  unfold Utf8.encodeScalar.
  destruct (cp <? 0x80)%N; [discriminate |].
  destruct (cp <? 0x800)%N; [discriminate |].
  destruct (cp <? 0x10000)%N; discriminate.
Qed.

(** On a string without a lone surrogate the decoder undoes the encoder. *)
Lemma run_encodeUnits (n : nat) : forall (s rest : list N),
  length s <= n -> Utf8.wellFormed s = true ->
  Utf8.run Utf8.start (Utf8.encodeUnits s ++ rest) = s ++ Utf8.run Utf8.start rest /\
  Forall (fun b => (b < 256)%N) (Utf8.encodeUnits s).
Proof.
  induction n as [|n IH]; intros [|u s] rest Hlen Hwf; cbn [length] in Hlen;
    try (split; [reflexivity | constructor]); [lia |].
  cbn [Utf8.wellFormed Utf8.encodeUnits] in *.
  destruct (Utf8.isHigh u) eqn:Hh.
  - destruct s as [|v s]; [discriminate |].
    apply andb_true_iff in Hwf as [Hl Hwf]. rewrite Hl.
    pose proof (isHigh_true _ Hh) as Hu. pose proof (isLow_true _ Hl) as Hv.
    cbn [length] in Hlen.
    destruct (IH s rest ltac:(lia) Hwf) as [Hrun Hbytes].
    split; [| apply Forall_app; split; [apply encodeScalar_bytes; lia | exact Hbytes]].
    rewrite <- app_assoc, run_encodeScalar by lia.
    now rewrite emit_pair, Hrun by assumption.
  - apply andb_true_iff in Hwf as [[Hl Hmax]%andb_true_iff Hwf].
    apply negb_true_iff in Hl. rewrite Hl. apply N.ltb_lt in Hmax.
    destruct (IH s rest ltac:(lia) Hwf) as [Hrun Hbytes].
    split; [| apply Forall_app; split; [apply encodeScalar_bytes; lia | exact Hbytes]].
    rewrite <- app_assoc, run_encodeScalar by (try lia; now apply not_surrogate).
    now rewrite emit_unit, Hrun by assumption.
Qed.

Lemma map_to_N_byteOfN (l : list N) :
  Forall (fun b => (b < 256)%N) l -> List.map Byte.to_N (List.map Hex.byteOfN l) = l.
Proof.
  induction 1 as [|b l Hb _ IH]; [reflexivity |].
  cbn [List.map]. now rewrite byteOfN_to_N, IH.
Qed.

Lemma decode_encode (s : list N) :
  Utf8.wellFormed s = true -> Utf8.decode (Utf8.encode s) = s.
Proof.
  intros Hwf. unfold Utf8.decode, Utf8.encode.
  destruct (run_encodeUnits (length s) s [] (le_n _) Hwf) as [Hrun Hbytes].
  rewrite map_to_N_byteOfN by assumption.
  rewrite app_nil_r in Hrun. rewrite Hrun. cbn. apply app_nil_r.
Qed.

Lemma encode_not_nil (s : list N) : s <> [] -> Utf8.encode s <> [].
Proof.
  destruct s as [|u s]; [congruence |]. intros _. unfold Utf8.encode.
  cbn [Utf8.encodeUnits].
  assert (Hne : forall (a b : list N), a <> [] -> List.map Hex.byteOfN (a ++ b) <> []).
  { intros [|x a] b H; [congruence | discriminate]. }
  destruct (Utf8.isHigh u).
  - destruct s as [|v s]; [discriminate |].
    destruct (Utf8.isLow v); apply Hne; [apply encodeScalar_not_nil | discriminate].
  - destruct (Utf8.isLow u); apply Hne; [discriminate | apply encodeScalar_not_nil].
Qed.

Example encode_lone_surrogate : Utf8.encode [0xD800%N] = [xef; xbf; xbd].
Proof. reflexivity. Qed.

Example decode_replacement : Utf8.decode [xef; xbf; xbd] = [0xFFFD%N].
Proof. reflexivity. Qed.

Example encode_pair : Utf8.encode [0xD83D; 0xDE00]%N = [xf0; x9f; x98; x80].
Proof. reflexivity. Qed.

Example decode_truncated : Utf8.decode [xe2; x82; "A"%byte] = [0xFFFD; 0x41]%N.
Proof. reflexivity. Qed.

(** ** The line cipher over every JavaScript string *)

Lemma toy_bytes_laws : CipherLaws ToyBytes.cipher.
Proof.
  constructor. intros key iv data Hkey Hiv _. cbn [cipherBytes decipherHex ToyBytes.cipher].
  unfold ToyBytes.encrypt, ToyBytes.decrypt, Toy.wellSized.
  rewrite Hkey, Hiv. cbn [Nat.eqb andb].
  eexists. split; [reflexivity |]. split.
  - rewrite map_app. intros H. apply app_eq_nil in H as [_ H]. discriminate H.
  - rewrite fromHex_toHex, map_xorByte_cancel, rev_app_distr. cbn [rev app].
    now rewrite rev_involutive.
Qed.

Section WideCipher.
Context {crypto : NodeCrypto} {cipher : NodeCipher}.

Lemma wide_decryptString_token iv c key w :
  iv <> [] -> c <> [] -> pwFalsy key = false ->
  Wide.decryptString (token iv c) key w =
  (match decipherHex (scryptSync key salt keyLength) iv (Hex.toHex c) with
   | Some data => Ok (Utf8.decode data)
   | None => Err CryptoFailure
   end, w).
Proof.
  intros Hiv Hc Hkey. unfold Wide.decryptString.
  rewrite token_not_falsy, Hkey by assumption. cbn [orb]. cbv zeta.
  rewrite token_split. unfold Js.at_. cbn [nth].
  rewrite !falsy_false by now apply toHex_not_empty.
  cbn [orb]. rewrite fromHex_toHex.
  now destruct (decipherHex _ _ _).
Qed.

Context {laws : CryptoLaws crypto} {cipherLaws : CipherLaws cipher}.

(** Sealing, then opening: what comes back is the plaintext after a passage
    through UTF-8. *)
Lemma wide_seal_open text key w :
  text <> [] -> pwFalsy key = false ->
  exists tok w',
    Wide.encryptString text key w = (Ok tok, w') /\
    forall w'', Wide.decryptString tok key w'' =
                (Ok (Utf8.decode (Utf8.encode text)), w'').
Proof.
  intros Htext Hkey.
  destruct (cipher_round_trip (scryptSync key salt keyLength) (nextIV w) (Utf8.encode text))
    as (c & Henc & Hc & Hdec);
    [apply scrypt_length | apply nextIV_length | now apply encode_not_nil |].
  destruct (randomBytes_16 w) as (w' & Hrand & _).
  exists (token (nextIV w) c), w'. split.
  - unfold Wide.encryptString. destruct text; [congruence |].
    cbn [Wide.falsy]. rewrite Hkey. cbn [orb]. cbv zeta.
    rewrite (bind_Ok _ _ _ _ _ Hrand). now rewrite Henc.
  - intros w''. rewrite wide_decryptString_token by (apply nextIV_not_nil || assumption).
    now rewrite Hdec.
Qed.

End WideCipher.

(** C5, as the code has it. Line cipher round trip: for every non-empty
    plaintext without a lone surrogate and every valid key (a non-empty string
    or a buffer), [encryptString] returns a token and [decryptString] of that
    token under the same key returns the plaintext: open(seal(p, k), k) = p. *)
Theorem seal_open_round_trip_well_formed
    {crypto : NodeCrypto} {cipher : NodeCipher}
    {laws : CryptoLaws crypto} {cipherLaws : CipherLaws cipher}
    (text : list N) (key : password) (w : World) :
  text <> [] -> Utf8.wellFormed text = true -> pwFalsy key = false ->
  exists tok w',
    Wide.encryptString text key w = (Ok tok, w') /\
    forall w'', Wide.decryptString tok key w'' = (Ok text, w'').
Proof.
  intros Htext Hwf Hkey.
  destruct (wide_seal_open text key w Htext Hkey) as (tok & w' & Henc & Hdec).
  exists tok, w'. split; [exact Henc |].
  intros w''. now rewrite Hdec, decode_encode.
Qed.

(** The witness: the two code units of U+1F600, a letter with a diaeresis
    and an ASCII letter. *)
Lemma seal_open_round_trip_well_formed_witness :
  [0xD83D; 0xDE00; 0xE4; 0x41]%N <> [] /\
  Utf8.wellFormed [0xD83D; 0xDE00; 0xE4; 0x41]%N = true /\
  pwFalsy (PwString "s3cr3t") = false /\
  exists tok w',
    Wide.encryptString (crypto := Toy.crypto) (cipher := ToyBytes.cipher)
      [0xD83D; 0xDE00; 0xE4; 0x41]%N (PwString "s3cr3t") (Toy.world []) = (Ok tok, w') /\
    forall w'', Wide.decryptString (crypto := Toy.crypto) (cipher := ToyBytes.cipher)
                  tok (PwString "s3cr3t") w'' = (Ok [0xD83D; 0xDE00; 0xE4; 0x41]%N, w'').
Proof.
  split; [discriminate |]. split; [reflexivity |]. split; [reflexivity |].
  apply (seal_open_round_trip_well_formed (laws := toy_laws) (cipherLaws := toy_bytes_laws));
    [discriminate | reflexivity | reflexivity].
Defined.

(** The plaintext of the one code unit 0xD800, a lone surrogate, is sealed as
    the bytes of U+FFFD, and what opens is the code unit 0xFFFD, under every
    crypto library that satisfies the laws. *)
Lemma lone_surrogate_opens_as_replacement :
  forall (crypto : NodeCrypto) (cipher : NodeCipher),
    CryptoLaws crypto -> CipherLaws cipher ->
    exists tok w',
      Wide.encryptString [0xD800%N] (PwString "k") (Toy.world []) = (Ok tok, w') /\
      Wide.decryptString tok (PwString "k") w' = (Ok [0xFFFD%N], w') /\
      [0xFFFD%N] <> [0xD800%N].
Proof.
  intros crypto cipher laws cipherLaws.
  destruct (wide_seal_open [0xD800%N] (PwString "k") (Toy.world []))
    as (tok & w' & Henc & Hdec); [discriminate | reflexivity |].
  exists tok, w'. split; [exact Henc |]. split; [| discriminate].
  rewrite Hdec. reflexivity.
Qed.

(** C5, as stated, fails: under no crypto library that satisfies the laws
    does the plaintext of the one code unit 0xD800, a lone surrogate, come
    back from sealing and opening under the key [k]. *)
Lemma lone_surrogate_not_restored :
  ~ exists (crypto : NodeCrypto) (cipher : NodeCipher),
      CryptoLaws crypto /\ CipherLaws cipher /\
      exists tok w',
        Wide.encryptString [0xD800%N] (PwString "k") (Toy.world []) = (Ok tok, w') /\
        Wide.decryptString tok (PwString "k") w' = (Ok [0xD800%N], w').
Proof.
  intros (crypto & cipher & laws & cipherLaws & tok & w' & Henc & Hdec).
  destruct (lone_surrogate_opens_as_replacement crypto cipher laws cipherLaws)
    as (tok' & w'' & Henc' & Hdec' & _).
  rewrite Henc in Henc'. injection Henc' as <- <-.
  rewrite Hdec in Hdec'. discriminate Hdec'.
Qed.

(** C9. Key derivation is a pure, deterministic function of its input and the
    fixed salt: on the empty string it fails with InvalidInput; on any other
    string it returns a key of 32 bytes, the same at every call, whatever the
    state of the world, which it leaves as it is. *)
Theorem derive_deterministic {crypto : NodeCrypto} {laws : CryptoLaws crypto}
    (s : string) (w1 w2 : World) :
  (s = "" ->
   deriveKeyFromPassphrase s w1 = (Err PassphraseEmpty, w1) /\
   classify PassphraseEmpty = InvalidInput) /\
  (s <> "" ->
   exists key, length key = 32 /\
     deriveKeyFromPassphrase s w1 = (Ok key, w1) /\
     deriveKeyFromPassphrase s w2 = (Ok key, w2)).
Proof.
  split.
  - intros ->. split; reflexivity.
  - intros Hs. exists (scryptSync (PwString s) salt keyLength).
    split; [apply scrypt_length |].
    split; now apply deriveKeyFromPassphrase_run.
Qed.

Lemma derive_deterministic_witness :
  CryptoLaws Toy.crypto /\ "pw" <> "" /\
  exists key, length key = 32 /\
    deriveKeyFromPassphrase (crypto := Toy.crypto) "pw" (Toy.world []) = (Ok key, Toy.world []) /\
    deriveKeyFromPassphrase (crypto := Toy.crypto) "pw" (Toy.world [("/app/.env", "A=1")]) =
      (Ok key, Toy.world [("/app/.env", "A=1")]).
Proof.
  split; [exact toy_laws |]. split; [discriminate |].
  apply (derive_deterministic (laws := toy_laws) "pw"). discriminate.
Defined.

Lemma join_not_empty (lines : list string) :
  Exists (fun l => passedThrough l = false) lines -> Js.join newline lines <> "".
Proof.
  destruct lines as [|x [|y lines]].
  - intros H. inversion H.
  - intros H. inversion H as [? ? Hx | ? ? Hx]; subst; [| inversion Hx].
    now apply passedThrough_not_empty.
  - intros _. rewrite join_cons. destruct x; discriminate.
Qed.

(** C1. File round trip: for every sequence of lines with at least one data
    line, stored as a file, every non-empty secret key that [getSecretKey]
    finds and every non-empty passphrase, [encryptEnv] followed by
    [decryptEnv] under the same passphrase restores exactly the lines, in
    order; a blank or comment line at position [i] stands unchanged at
    position [i + 1] of the encrypted file, after the header. *)
Theorem file_round_trip {crypto : NodeCrypto} {laws : CryptoLaws crypto}
    (w : World) (filePath outputPath restoredPath pass secret : string)
    (lines : list string) :
  Forall (fun l => Js.lacks LF l = true) lines ->
  Exists (fun l => passedThrough l = false) lines ->
  files w !! filePath = Some (Js.join newline lines) ->
  fst (getSecretKey w) = Ok (Some secret) -> secret <> "" ->
  pass <> "" ->
  filePath <> outputPath -> outputPath <> restoredPath ->
  exists w1 w2 encrypted restored,
    encryptEnv filePath outputPath pass w = (Ok tt, w1) /\
    files w1 !! outputPath = Some encrypted /\
    (forall i l, lines !! i = Some l -> passedThrough l = true ->
                 Js.split LF encrypted !! S i = Some l) /\
    decryptEnv outputPath restoredPath pass w1 = (Ok tt, w2) /\
    files w2 !! restoredPath = Some restored /\
    Js.split LF restored = lines.
Proof.
  intros Hlf Hdata Hfile Hget Hsecret Hpass Hne1 Hne2.
  assert (Hlines : Js.split LF (Js.join newline lines) = lines).
  { apply split_join; [| assumption]. intros ->. inversion Hdata. }
  destruct (encrypt_then_decrypt w filePath outputPath restoredPath pass _ secret
              Hfile (join_not_empty _ Hdata) Hget Hsecret Hpass Hne1 Hne2)
    as (w1 & w2 & encrypted & Henc & Hout & _ & Hpt & Hdec & Hback & _).
  rewrite Hlines in Hpt.
  exists w1, w2, encrypted, (Js.join newline lines). auto 10.
Qed.

Lemma file_round_trip_witness :
  let lines := ["ENV_SECURE_KEY=s3cr3t"; "# database"; ""; "DB_URL=postgres://x"] in
  let w := Toy.world [("/app/.env", Js.join newline lines)] in
  CryptoLaws Toy.crypto /\
  Forall (fun l => Js.lacks LF l = true) lines /\
  Exists (fun l => passedThrough l = false) lines /\
  files w !! "/app/.env" = Some (Js.join newline lines) /\
  fst (getSecretKey w) = Ok (Some "s3cr3t") /\ "s3cr3t" <> "" /\ "pw" <> "" /\
  "/app/.env" <> "/app/.env.enc" /\ "/app/.env.enc" <> "/app/.env" /\
  exists w1 w2 encrypted restored,
    encryptEnv (crypto := Toy.crypto) "/app/.env" "/app/.env.enc" "pw" w = (Ok tt, w1) /\
    files w1 !! "/app/.env.enc" = Some encrypted /\
    (forall i l, lines !! i = Some l -> passedThrough l = true ->
                 Js.split LF encrypted !! S i = Some l) /\
    decryptEnv (crypto := Toy.crypto) "/app/.env.enc" "/app/.env" "pw" w1 = (Ok tt, w2) /\
    files w2 !! "/app/.env" = Some restored /\
    Js.split LF restored = lines.
Proof.
  intros lines w.
  assert (Hlf : Forall (fun l => Js.lacks LF l = true) lines)
    by (repeat constructor).
  assert (Hdata : Exists (fun l => passedThrough l = false) lines)
    by (constructor; reflexivity).
  repeat (split; [first [exact toy_laws | assumption | reflexivity | discriminate] |]).
  apply (file_round_trip (laws := toy_laws) w "/app/.env" "/app/.env.enc" "/app/.env" "pw" "s3cr3t" lines);
    first [assumption | reflexivity | discriminate].
Defined.

Section Rejections.
Context {crypto : NodeCrypto}.

Lemma decryptString_world tok key w : snd (decryptString tok key w) = w.
Proof.
  unfold decryptString.
  destruct (Js.falsy tok || pwFalsy key); [reflexivity |]. cbv zeta.
  destruct (Js.falsy _ || Js.falsy _); [reflexivity |].
  now destruct (aesDecrypt _ _ _).
Qed.

Lemma decryptString_result tok key w r :
  fst (decryptString tok key w) = r -> decryptString tok key w = (r, w).
Proof.
  intros <-. rewrite <- (decryptString_world tok key w) at 3.
  now destruct (decryptString tok key w).
Qed.

End Rejections.

(** C8. Format rejection: under every non-empty passphrase, [decryptEnv]
    fails with InvalidFormat when the first line of its input does not start
    with [SECRET_KEY=], and also when the header token opens to a string that
    the pattern [ENV_SECURE_KEY=<value>] does not match; nothing is written. *)
Theorem decryptEnv_invalid_format {crypto : NodeCrypto}
    (w : World) (filePath outputPath pass content : string) :
  pass <> "" ->
  files w !! filePath = Some content ->
  let header := Js.at_ (Js.split LF content) 0 in
  let headerToken := Js.at_ (Js.split "=" header) 1 in
  (Js.startsWith header headerMarker = false ->
   decryptEnv filePath outputPath pass w = (Err BadEncryptedFile, w)) /\
  (forall line,
     Js.startsWith header headerMarker = true ->
     fst (decryptString headerToken
            (PwBuffer (scryptSync (PwString pass) salt keyLength)) w) = Ok line ->
     Js.matchLabel reservedLabel line = None ->
     decryptEnv filePath outputPath pass w = (Err BadEncryptedFile, w)) /\
  classify BadEncryptedFile = InvalidFormat.
Proof.
  intros Hpass Hfile header headerToken.
  assert (Hstart : decryptEnv filePath outputPath pass w =
    (if Js.falsy header || negb (Js.startsWith header headerMarker)
     then throw BadEncryptedFile
     else
       derivedKey <- deriveKeyFromPassphrase pass ;;
       decryptedSecretKeyLine <- decryptString headerToken (PwBuffer derivedKey) ;;
       match Js.matchLabel reservedLabel decryptedSecretKeyLine with
       | None => throw BadEncryptedFile
       | Some secretKey =>
           if Js.falsy secretKey then throw BadEncryptedFile
           else
             decryptedLines <- mapM (decryptLine secretKey)
                                 (List.tail (Js.split LF content)) ;;
             Fs.writeFileSync outputPath (Js.join newline decryptedLines) ;;;
             Fs.removeSync filePath ;;;
             consoleLog ("Successfully decrypted " +:+ Path.basename filePath +:+
                         " to " +:+ Path.basename outputPath +:+ ".")
       end) w).
  { unfold decryptEnv.
    rewrite (bind_Ok _ _ _ _ _ (existsSync_present _ _ _ Hfile)). cbn [negb].
    now rewrite (bind_Ok _ _ _ _ _ (readFileSync_present _ _ _ Hfile)). }
  split; [| split; [| reflexivity]].
  - intros Hno. rewrite Hstart, Hno. cbn [negb]. now rewrite orb_true_r.
  - intros line Hyes Hopen Hmatch. rewrite Hstart, Hyes. cbn [negb].
    assert (Hfalsy : Js.falsy header = false).
    { destruct header; [discriminate Hyes | reflexivity]. }
    rewrite Hfalsy. cbn [orb].
    rewrite (bind_Ok _ _ _ _ _ (deriveKeyFromPassphrase_run _ _ Hpass)).
    rewrite (bind_Ok _ _ _ _ _ (decryptString_result _ _ _ _ Hopen)).
    now rewrite Hmatch.
Qed.

Lemma decryptEnv_invalid_format_witness :
  let plain := Toy.world [("/app/.env.enc", "A=1")] in
  let other := Toy.world
    [("/app/.env.enc", "SECRET_KEY=000102030405060708090a0b0c0d0e0f:070a030300ef")] in
  ("pw" <> "" /\ files plain !! "/app/.env.enc" = Some "A=1" /\
   Js.startsWith "A=1" headerMarker = false /\
   decryptEnv (crypto := Toy.crypto) "/app/.env.enc" "/app/.env" "pw" plain =
     (Err BadEncryptedFile, plain)) /\
  (fst (decryptString (crypto := Toy.crypto) "000102030405060708090a0b0c0d0e0f:070a030300ef"
          (PwBuffer (Toy.scrypt (PwString "pw") salt keyLength)) other) = Ok "hello" /\
   Js.matchLabel reservedLabel "hello" = None /\
   decryptEnv (crypto := Toy.crypto) "/app/.env.enc" "/app/.env" "pw" other =
     (Err BadEncryptedFile, other)).
Proof.
  intros plain other. split.
  - split; [discriminate |]. split; [reflexivity |]. split; [reflexivity |].
    apply (decryptEnv_invalid_format (crypto := Toy.crypto) plain
             "/app/.env.enc" "/app/.env" "pw" "A=1");
      [discriminate | reflexivity | reflexivity].
  - split; [reflexivity |]. split; [reflexivity |].
    apply (decryptEnv_invalid_format (crypto := Toy.crypto) other
             "/app/.env.enc" "/app/.env" "pw"
             "SECRET_KEY=000102030405060708090a0b0c0d0e0f:070a030300ef")
      with (line := "hello");
      [discriminate | reflexivity | reflexivity | reflexivity | reflexivity].
Defined.

(** ** Reading a token *)

Lemma colon_append s : ":" +:+ s = String ":" s.
Proof. reflexivity. Qed.

Lemma split_first_two a b rest :
  Js.lacks ":" a = true -> Js.lacks ":" b = true ->
  (rest = "" \/ exists r, rest = ":" +:+ r) ->
  Js.at_ (Js.split ":" (a +:+ ":" +:+ b +:+ rest)) 0 = a /\
  Js.at_ (Js.split ":" (a +:+ ":" +:+ b +:+ rest)) 1 = b.
Proof.
  intros Ha Hb Hrest. rewrite colon_append, split_app by assumption.
  destruct Hrest as [-> | [r ->]].
  - rewrite append_nil_r, split_lacks by assumption. now split.
  - rewrite colon_append, split_app by assumption. now split.
Qed.

(** C7, as the code has it. [decryptString] splits the token on every [:]
    and reads the first two pieces as the IV part and the ciphertext part,
    whatever follows a second [:]. It fails with InvalidInput on the empty
    token, and with MalformedToken when the token has no [:] or one of the
    two pieces is empty. In every other case, hexadecimal or not, it does not
    fail with MalformedToken: the IV is what [Buffer.from] decodes of the IV
    part, and the outcome is the decipher's, the text or DecryptionFailed. *)
Theorem decryptString_format {crypto : NodeCrypto}
    (tok : string) (key : password) (w : World) :
  pwFalsy key = false ->
  (tok = "" -> decryptString tok key w = (Err DecryptArgsMissing, w)) /\
  (tok <> "" -> Js.lacks ":" tok = true ->
   decryptString tok key w = (Err BadTokenFormat, w)) /\
  (forall a b rest,
     tok = a +:+ ":" +:+ b +:+ rest ->
     Js.lacks ":" a = true -> Js.lacks ":" b = true ->
     (rest = "" \/ exists r, rest = ":" +:+ r) ->
     (a = "" \/ b = "" -> decryptString tok key w = (Err BadTokenFormat, w)) /\
     (a <> "" -> b <> "" ->
      decryptString tok key w =
      (match aesDecrypt (scryptSync key salt keyLength) (Hex.fromHex a) b with
       | Some text => Ok text
       | None => Err CryptoFailure
       end, w))) /\
  classify DecryptArgsMissing = InvalidInput /\
  classify BadTokenFormat = MalformedToken /\
  classify CryptoFailure = DecryptionFailed.
Proof.
  intros Hkey. split; [| split; [| split; [| now repeat split]]].
  - intros ->. reflexivity.
  - intros Hne Hlacks. unfold decryptString.
    rewrite (falsy_false _ Hne), Hkey. cbn [orb]. cbv zeta.
    rewrite (split_lacks _ _ Hlacks). unfold Js.at_. cbn [nth Js.falsy].
    now rewrite orb_true_r.
  - intros a b rest -> Ha Hb Hrest.
    destruct (split_first_two a b rest Ha Hb Hrest) as [H0 H1].
    assert (Htok : Js.falsy (a +:+ ":" +:+ b +:+ rest) = false).
    { destruct a; reflexivity. }
    split.
    + intros Hempty. unfold decryptString. rewrite Htok, Hkey. cbn [orb]. cbv zeta.
      rewrite H0, H1. destruct Hempty as [-> | ->]; cbn [Js.falsy orb];
        [reflexivity | now rewrite orb_true_r].
    + intros Hane Hbne. unfold decryptString. rewrite Htok, Hkey. cbn [orb]. cbv zeta.
      rewrite H0, H1, (falsy_false _ Hane), (falsy_false _ Hbne). cbn [orb].
      now destruct (aesDecrypt _ _ _).
Qed.

Lemma decryptString_format_witness :
  let tok := "000102030405060708090a0b0c0d0e0fzz:423e3283:junk" in
  pwFalsy (PwString "k") = false /\
  tok = "000102030405060708090a0b0c0d0e0fzz" +:+ ":" +:+ "423e3283" +:+ ":junk" /\
  Js.lacks ":" "000102030405060708090a0b0c0d0e0fzz" = true /\
  Js.lacks ":" "423e3283" = true /\
  decryptString (crypto := Toy.crypto) tok (PwString "k") (Toy.world []) =
    (Ok "A=1", Toy.world []).
Proof.
  intros tok. repeat (split; [reflexivity |]).
  apply (decryptString_format (crypto := Toy.crypto) tok (PwString "k") (Toy.world []) eq_refl)
    with (a := "000102030405060708090a0b0c0d0e0fzz") (b := "423e3283") (rest := ":junk");
    first [reflexivity | discriminate | (right; exists "junk"; reflexivity)].
Defined.

(** Opening a token of two or more pieces whose first two are not empty: the
    outcome is the decipher's on these two. *)
Lemma decryptString_pieces {crypto : NodeCrypto} a b rest key w :
  pwFalsy key = false ->
  Js.lacks ":" a = true -> Js.lacks ":" b = true -> a <> "" -> b <> "" ->
  (rest = "" \/ exists r, rest = ":" +:+ r) ->
  decryptString (a +:+ ":" +:+ b +:+ rest) key w =
  (match aesDecrypt (scryptSync key salt keyLength) (Hex.fromHex a) b with
   | Some text => Ok text
   | None => Err CryptoFailure
   end, w).
Proof.
  intros Hkey Ha Hb Hane Hbne Hrest.
  destruct (split_first_two a b rest Ha Hb Hrest) as [H0 H1].
  assert (Htok : Js.falsy (a +:+ ":" +:+ b +:+ rest) = false) by (destruct a; reflexivity).
  unfold decryptString. rewrite Htok, Hkey. cbn [orb]. cbv zeta.
  rewrite H0, H1, (falsy_false _ Hane), (falsy_false _ Hbne). cbn [orb].
  now destruct (aesDecrypt _ _ _).
Qed.

(** Under every crypto library that satisfies the laws: take the token that
    [encryptString] returns for the text [A=1] under the key [k] when the
    random source gives the bytes 0, 1, ..., 15, and let [c] be its
    ciphertext. With [zz] written after the 32 digits of the IV part, which
    is then not valid hex, [decryptString] returns the text; and so it does
    with a third piece written after the ciphertext part, where the split
    gives three pieces, not two. *)
Lemma malformed_tokens_open :
  forall (crypto : NodeCrypto), CryptoLaws crypto ->
    let w := Toy.world [] in
    let ivHex := "000102030405060708090a0b0c0d0e0f" in
    exists (c : list byte) (w' : World),
      encryptString "A=1" (PwString "k") w = (Ok (ivHex +:+ ":" +:+ Hex.toHex c), w') /\
      (let tok := (ivHex +:+ "zz") +:+ ":" +:+ Hex.toHex c +:+ "" in
       Spec.validHex (Js.at_ (Js.split ":" tok) 0) = false /\
       decryptString tok (PwString "k") w = (Ok "A=1", w)) /\
      (let tok := ivHex +:+ ":" +:+ Hex.toHex c +:+ ":anything" in
       length (Js.split ":" tok) = 3 /\
       decryptString tok (PwString "k") w = (Ok "A=1", w)).
Proof.
  intros crypto laws w ivHex.
  destruct (encryptString_run "A=1" (PwString "k") w)
    as (c & w' & Hrun & _ & Hc & _ & Hdec); [discriminate | reflexivity |].
  assert (Hiv : nextIV w = Hex.fromHex ivHex) by reflexivity.
  assert (Hiv' : Hex.fromHex (ivHex +:+ "zz") = Hex.fromHex ivHex) by reflexivity.
  pose proof (toHex_lacks_colon c) as Hlc. pose proof (toHex_not_empty c Hc) as Hne.
  exists c, w'. split; [exact Hrun |]. split; cbv zeta.
  - split.
    + destruct (split_first_two (ivHex +:+ "zz") (Hex.toHex c) "") as [-> _];
        [reflexivity | assumption | now left | reflexivity].
    + rewrite decryptString_pieces;
        [| reflexivity | reflexivity | assumption | discriminate | assumption | now left].
      now rewrite Hiv', <- Hiv, Hdec.
  - split.
    + change (ivHex +:+ ":" +:+ Hex.toHex c +:+ ":anything")
        with (ivHex +:+ String ":" (Hex.toHex c +:+ String ":" "anything")).
      rewrite split_app by reflexivity. rewrite split_app by assumption. reflexivity.
    + rewrite decryptString_pieces;
        [| reflexivity | reflexivity | assumption | discriminate | assumption
         | right; now exists "anything"].
      now rewrite <- Hiv, Hdec.
Qed.

(** C7, as stated, fails. Take the token that [encryptString] returns for
    the text [A=1] under the key [k] when the random source gives the bytes
    0, 1, ..., 15, and write [zz] after the digits of its IV part, which is
    then not valid hex: under no crypto library that satisfies the laws does
    [decryptString] refuse it as MalformedToken. *)
Lemma decryptString_accepts_malformed_tokens :
  ~ exists (crypto : NodeCrypto),
      CryptoLaws crypto /\
      exists (c : list byte) (w' : World) (e : error),
        encryptString "A=1" (PwString "k") (Toy.world []) =
          (Ok ("000102030405060708090a0b0c0d0e0f" +:+ ":" +:+ Hex.toHex c), w') /\
        Spec.validHex "000102030405060708090a0b0c0d0e0fzz" = false /\
        fst (decryptString ("000102030405060708090a0b0c0d0e0fzz" +:+ ":" +:+ Hex.toHex c)
               (PwString "k") (Toy.world [])) = Err e /\
        classify e = MalformedToken.
Proof.
  intros (crypto & laws & c & w' & e & Henc & _ & Hdec & _).
  destruct (malformed_tokens_open crypto laws) as (c' & w'' & Henc' & [_ Hopen] & _).
  rewrite Henc in Henc'. injection Henc' as Hc _.
  rewrite <- Hc in Hopen.
  rewrite <- (append_nil_r (Hex.toHex c)) in Hdec.
  change ("000102030405060708090a0b0c0d0e0fzz" +:+ ":" +:+ Hex.toHex c +:+ "")
    with (("000102030405060708090a0b0c0d0e0f" +:+ "zz") +:+ ":" +:+ Hex.toHex c +:+ "") in Hdec.
  rewrite Hopen in Hdec. discriminate Hdec.
Qed.

(** The empty token is refused before it is split, as missing input. *)
Example decryptString_empty_token :
  decryptString (crypto := Toy.crypto) "" (PwString "k") (Toy.world []) =
    (Err DecryptArgsMissing, Toy.world []).
Proof. reflexivity. Qed.

(** What follows a second [:] is not read. *)
Example decryptString_third_piece :
  decryptString (crypto := Toy.crypto)
    "000102030405060708090a0b0c0d0e0f:423e3283:anything" (PwString "k") (Toy.world []) =
    (Ok "A=1", Toy.world []).
Proof. reflexivity. Qed.

(** ** The leftmost match *)

Lemma takeWhile_app_stop f v post :
  Js.allChars f v = true ->
  (post = "" \/ exists c rest, post = String c rest /\ f c = false) ->
  Js.takeWhile f (v +:+ post) = v.
Proof.
  intros Hv Hpost. induction v as [|d v IH]; cbn [append Js.takeWhile].
  - destruct Hpost as [-> | (c & rest & -> & Hc)]; [reflexivity |].
    cbn [Js.takeWhile]. now rewrite Hc.
  - cbn [Js.allChars] in Hv. apply andb_true_iff in Hv as [Hd Hv].
    rewrite Hd. now rewrite (IH Hv).
Qed.

Lemma takeWhile_split f s :
  exists post, s = Js.takeWhile f s +:+ post /\
               (post = "" \/ exists c rest, post = String c rest /\ f c = false).
Proof.
  induction s as [|d s (post & Hs & Hpost)]; cbn [Js.takeWhile].
  - exists "". split; [reflexivity | now left].
  - destruct (f d) eqn:Hd.
    + exists post. split; [| assumption]. cbn [append]. now rewrite <- Hs.
    + exists (String d s). split; [reflexivity |]. right. eauto.
Qed.

Lemma notLineTerminator_false c :
  Js.notLineTerminator c = false <-> Js.isLineTerminator c = true.
Proof. unfold Js.notLineTerminator. now destruct (Js.isLineTerminator c). Qed.

Lemma length_zero_empty (s : string) : String.length s = 0 -> s = "".
Proof. destruct s; [reflexivity | discriminate]. Qed.

Lemma matchHere_valuedAt label s v :
  Js.matchHere label s = Some v <-> Js.valuedAt label s 0 v.
Proof.
  split.
  - intros H. destruct (matchHere_group _ _ _ H) as [Hne Hall].
    unfold Js.matchHere in H.
    destruct (Js.stripPrefix label s) as [rest|] eqn:E; [| discriminate].
    apply stripPrefix_Some in E.
    destruct (takeWhile_split Js.notLineTerminator rest) as (post & Hrest & Hpost).
    assert (Hv : Js.takeWhile Js.notLineTerminator rest = v).
    { destruct (Js.takeWhile Js.notLineTerminator rest); [discriminate | congruence]. }
    rewrite Hv in Hrest. exists "", post. repeat split; try assumption.
    + cbn [append]. congruence.
    + destruct Hpost as [-> | (c & r & -> & Hc)]; [now left | right].
      exists c, r. split; [reflexivity | now apply notLineTerminator_false].
  - intros (pre & post & -> & Hlen & Hne & Hall & Hpost).
    apply length_zero_empty in Hlen. subst pre. cbn [append].
    unfold Js.matchHere. rewrite stripPrefix_app, takeWhile_app_stop; try assumption.
    + destruct v; congruence.
    + destruct Hpost as [-> | (c & r & -> & Hc)]; [now left | right].
      exists c, r. split; [reflexivity | now apply notLineTerminator_false].
Qed.

Lemma valuedAt_cons label c s i v :
  Js.valuedAt label (String c s) (S i) v <-> Js.valuedAt label s i v.
Proof.
  split.
  - intros (pre & post & Hs & Hlen & Hrest).
    destruct pre as [|d pre]; [discriminate Hlen |].
    cbn [append] in Hs. injection Hs as -> ->.
    exists pre, post. split; [reflexivity |]. split; [| assumption].
    cbn [String.length] in Hlen. congruence.
  - intros (pre & post & -> & <- & Hrest).
    exists (String c pre), post. now repeat split.
Qed.

Lemma valuedAt_empty label i v : ~ Js.valuedAt label "" (S i) v.
Proof. intros (pre & post & Hs & Hlen & _). destruct pre; discriminate. Qed.

Lemma matchLabel_first label s i v :
  Js.valuedAt label s i v ->
  (forall j v', j < i -> ~ Js.valuedAt label s j v') ->
  Js.matchLabel label s = Some v.
Proof.
  revert i. induction s as [|c s IH]; intros i Hat Hfirst;
    rewrite matchLabel_unfold; destruct (Js.matchHere label _) as [v0|] eqn:E.
  - destruct i as [|i]; [apply matchHere_valuedAt in Hat; congruence |].
    now apply valuedAt_empty in Hat.
  - destruct i as [|i]; [apply matchHere_valuedAt in Hat; congruence |].
    now apply valuedAt_empty in Hat.
  - destruct i as [|i]; [apply matchHere_valuedAt in Hat; congruence |].
    apply matchHere_valuedAt in E. exfalso. apply (Hfirst 0 v0); [lia | exact E].
  - destruct i as [|i]; [apply matchHere_valuedAt in Hat; congruence |].
    apply valuedAt_cons in Hat. apply (IH i Hat).
    intros j v' Hj Hv'. apply (Hfirst (S j) v'); [lia |]. now apply valuedAt_cons.
Qed.

Lemma matchLabel_none label s :
  (forall i v, ~ Js.valuedAt label s i v) -> Js.matchLabel label s = None.
Proof.
  induction s as [|c s IH]; intros Hnone;
    rewrite matchLabel_unfold; destruct (Js.matchHere label _) as [v0|] eqn:E.
  - apply matchHere_valuedAt in E. now apply Hnone in E.
  - reflexivity.
  - apply matchHere_valuedAt in E. now apply Hnone in E.
  - apply IH. intros i v Hv. apply (Hnone (S i) v). now apply valuedAt_cons.
Qed.

(** C10, as the code has it. [getSecretKey] matches the reserved label
    anywhere in the text of [.env]: it returns, trimmed, the value of the
    first occurrence of [ENV_SECURE_KEY=] that is followed on its line by at
    least one code unit (an occurrence with nothing after it on its line is
    passed over); it returns [null], and does not fail, when the file is
    absent or no occurrence has a value. It leaves the world as it is. *)
Theorem getSecretKey_first_valued_occurrence (w : World) :
  (envFile w = None -> getSecretKey w = (Ok None, w)) /\
  (forall text, envFile w = Some text ->
     (forall i v,
        Js.valuedAt reservedLabel text i v ->
        (forall j v', j < i -> ~ Js.valuedAt reservedLabel text j v') ->
        getSecretKey w = (Ok (Some (Js.trim v)), w)) /\
     ((forall i v, ~ Js.valuedAt reservedLabel text i v) ->
      getSecretKey w = (Ok None, w))).
Proof.
  split.
  - intros H. now rewrite getSecretKey_run, H.
  - intros text H. split.
    + intros i v Hat Hfirst.
      now rewrite getSecretKey_run, H, (matchLabel_first _ _ _ _ Hat Hfirst).
    + intros Hnone. now rewrite getSecretKey_run, H, (matchLabel_none _ _ Hnone).
Qed.

Lemma getSecretKey_first_valued_occurrence_witness :
  let text := "MY_ENV_SECURE_KEY= x " +:+ newline +:+ "A=1" in
  let w := Toy.world [("/app/.env", text)] in
  envFile w = Some text /\
  Js.valuedAt reservedLabel text 3 " x " /\
  (forall j v', j < 3 -> ~ Js.valuedAt reservedLabel text j v') /\
  getSecretKey w = (Ok (Some "x"), w).
Proof.
  intros text w.
  assert (Hat : Js.valuedAt reservedLabel text 3 " x ").
  { exists "MY_", (newline +:+ "A=1"). repeat split; try reflexivity; try discriminate.
    right. exists LF, "A=1". split; reflexivity. }
  assert (Hfirst : forall j v', j < 3 -> ~ Js.valuedAt reservedLabel text j v').
  { intros j v' Hj Hv'.
    destruct j as [|[|[|j]]]; [| | | lia];
      repeat (apply valuedAt_cons in Hv');
      apply matchHere_valuedAt in Hv'; discriminate Hv'. }
  split; [reflexivity |]. split; [exact Hat |]. split; [exact Hfirst |].
  exact (proj1 (proj2 (getSecretKey_first_valued_occurrence w) text eq_refl) 3 " x " Hat Hfirst).
Defined.

(** C10, as stated, fails: in this file the first occurrence of the label has
    nothing after it on its line; the claim gives the empty remainder of that
    occurrence, [getSecretKey] returns the value of the second one. *)
Lemma getSecretKey_skips_empty_value :
  let text := "ENV_SECURE_KEY=" +:+ newline +:+ "ENV_SECURE_KEY=abc" in
  let w := Toy.world [("/app/.env", text)] in
  Spec.firstOccurrenceValue (envFile w) = Some "" /\
  getSecretKey w = (Ok (Some "abc"), w).
Proof. split; reflexivity. Qed.

(** The two lines that C10 names: a comment and a longer variable name. *)
Example getSecretKey_in_comment :
  fst (getSecretKey (Toy.world [("/app/.env", "#ENV_SECURE_KEY=x")])) = Ok (Some "x").
Proof. reflexivity. Qed.

Example getSecretKey_in_longer_name :
  fst (getSecretKey (Toy.world [("/app/.env", "MY_ENV_SECURE_KEY=x")])) = Ok (Some "x").
Proof. reflexivity. Qed.

(** ** Two passphrases with one key *)

Lemma in_allBytes (b : byte) : In b Counting.allBytes.
Proof.
  unfold Counting.allBytes. apply in_map_iff. exists (Byte.to_nat b). split.
  - rewrite <- Byte.to_N_via_nat. unfold Hex.byteOfN. now rewrite Byte.of_to_N.
  - apply in_seq. pose proof (Byte.to_nat_bounded b). lia.
Qed.

Lemma in_allBuffers (buf : list byte) : In buf (Counting.allBuffers (length buf)).
Proof.
  induction buf as [|b buf IH]; [now left |].
  cbn [length Counting.allBuffers]. apply in_flat_map. exists b.
  split; [apply in_allBytes | now apply in_map].
Qed.

Lemma letters_length n : String.length (Counting.letters n) = S n.
Proof. induction n as [|n IH]; [reflexivity |]. cbn [Counting.letters String.length]. now rewrite IH. Qed.

Lemma letters_injective i j : Counting.letters i = Counting.letters j -> i = j.
Proof.
  intros H. apply (f_equal String.length) in H. rewrite !letters_length in H. congruence.
Qed.

Lemma passphrases_NoDup n : List.NoDup (Counting.passphrases n).
Proof.
  unfold Counting.passphrases. apply Finite.Injective_map_NoDup; [| apply seq_NoDup].
  intros i j. apply letters_injective.
Qed.

Lemma passphrases_not_empty n p : In p (Counting.passphrases n) -> p <> "".
Proof.
  unfold Counting.passphrases. intros (i & <- & _)%in_map_iff. now destruct i.
Qed.

Lemma NoDup_map_or_collision {A B : Type}
    (dec : forall x y : B, {x = y} + {x <> y}) (f : A -> B) (l : list A) :
  List.NoDup l ->
  List.NoDup (List.map f l) \/ exists x y, In x l /\ In y l /\ x <> y /\ f x = f y.
Proof.
  induction l as [|a l IH]; intros Hnd.
  - left. constructor.
  - inversion Hnd as [|? ? Hnotin Hl]; subst.
    destruct (IH Hl) as [Hmap | (x & y & Hx & Hy & Hne & Hf)].
    + destruct (in_dec dec (f a) (List.map f l)) as [Hin | Hout].
      * right. apply in_map_iff in Hin as (y & Hfy & Hy).
        exists a, y. repeat split; [now left | now right | | congruence].
        intros ->. contradiction.
      * left. cbn [List.map]. now constructor.
    + right. exists x, y. repeat split; try assumption; now right.
Qed.

(** A function from strings to buffers of a fixed length gives one buffer
    for two different non-empty strings. *)
Lemma fixed_length_collision (f : string -> list byte) (n : nat) :
  (forall s, length (f s) = n) ->
  exists p1 p2, p1 <> p2 /\ p1 <> "" /\ p2 <> "" /\ f p1 = f p2.
Proof.
  intros Hlen.
  set (range := Counting.allBuffers n).
  set (cands := Counting.passphrases (S (length range))).
  destruct (NoDup_map_or_collision (List.list_eq_dec Byte.byte_eq_dec) f cands
              (passphrases_NoDup _)) as [Hnd | (x & y & Hx & Hy & Hne & Hf)].
  - exfalso.
    assert (Hincl : incl (List.map f cands) range).
    { intros buf (s & <- & _)%in_map_iff. unfold range. rewrite <- (Hlen s).
      apply in_allBuffers. }
    pose proof (NoDup_incl_length Hnd Hincl) as Hle.
    rewrite length_map in Hle. unfold cands, Counting.passphrases in Hle.
    rewrite length_map, length_seq in Hle. lia.
  - exists x, y. repeat split; try assumption;
      eapply passphrases_not_empty; eassumption.
Qed.

Lemma colliding_passphrases {crypto : NodeCrypto} {laws : CryptoLaws crypto} :
  exists pass1 pass2,
    pass1 <> pass2 /\ pass1 <> "" /\ pass2 <> "" /\
    wrappingKey pass1 = wrappingKey pass2.
Proof.
  destruct (fixed_length_collision
              (fun p => scryptSync (PwString p) salt keyLength) keyLength)
    as (p1 & p2 & Hne & H1 & H2 & Hkey); [intros s; apply scrypt_length |].
  exists p1, p2. repeat split; try assumption.
  unfold wrappingKey. now rewrite Hkey.
Qed.

(** Different passphrases do not always derive different keys, whatever the
    crypto library: the keys have 32 bytes, so two different non-empty
    passphrases derive the same key, and a file encrypted under one decrypts
    under the other. *)
Lemma wrong_passphrase_not_always_rejected :
  ~ exists crypto : NodeCrypto, CryptoLaws crypto /\ Spec.wrongPassphraseRejected crypto.
Proof.
  intros (crypto & laws & Hclaim).
  destruct (colliding_passphrases (laws := laws)) as (pass1 & pass2 & Hne & H1 & H2 & Hkey).
  set (lines := ["ENV_SECURE_KEY=k"; "A=1"]).
  set (w := Toy.world [("/app/.env", Js.join newline lines)]).
  assert (Hlf : Forall (fun l => Js.lacks LF l = true) lines) by (repeat constructor).
  assert (Hdata : Exists (fun l => passedThrough l = false) lines)
    by (constructor; reflexivity).
  assert (Hfile : files w !! "/app/.env" = Some (Js.join newline lines)) by reflexivity.
  assert (Hget : fst (getSecretKey w) = Ok (Some "k")) by reflexivity.
  assert (Hk : "k" <> "") by discriminate.
  assert (Hp1 : "/app/.env" <> "/app/.env.enc") by discriminate.
  assert (Hp2 : "/app/.env.enc" <> "/app/.env") by discriminate.
  destruct (Hclaim w "/app/.env" "/app/.env.enc" "/app/.env" pass1 pass2 "k" lines
              Hlf Hdata Hfile Hget Hk H1 H2 Hne Hp1 Hp2)
    as (w1 & Henc & e & Hfail & _).
  destruct (encryptEnv_run w "/app/.env" "/app/.env.enc" pass1 _ "k" Hfile
              (join_not_empty _ Hdata) Hget Hk H1)
    as (c & encs & w1' & Henc' & _ & Hfiles1 & Hsealed).
  assert (w1' = w1) as -> by congruence.
  assert (Hout : files w1 !! "/app/.env.enc" =
                 Some (Js.join newline ((headerMarker +:+ token (nextIV w) c) :: encs))).
  { rewrite Hfiles1, lookup_delete_ne, lookup_insert_eq by assumption. reflexivity. }
  assert (Hlines : Js.split LF (Js.join newline lines) = lines) by reflexivity.
  rewrite Hlines in Hsealed.
  destruct (decryptEnv_sealed w1 "/app/.env.enc" "/app/.env" pass1 pass2 "k" lines _ c encs
              Hout Hsealed Hk (getSecretKey_chars _ _ Hget) H2 (eq_sym Hkey))
    as (w2 & Hdec & _).
  rewrite Hdec in Hfail. discriminate Hfail.
Qed.

(** ** A passphrase that is any JavaScript string *)

Section WideCodec.
Context {crypto : NodeCrypto}.

Lemma wide_deriveKey_run passphrase w :
  passphrase <> [] ->
  WidePassphrase.deriveKeyFromPassphrase passphrase w =
  (Ok (scryptSync (PwBuffer (Utf8.encode passphrase)) salt keyLength), w).
Proof. intros H. destruct passphrase; [congruence | reflexivity]. Qed.

(** [decryptEnv] on a file of the shape that [encryptEnv] writes, up to the
    point where the header is opened and read. *)
Lemma wide_decryptEnv_header w filePath outputPath passphrase iv c (encs : list string) :
  files w !! filePath = Some (Js.join newline ((headerMarker +:+ token iv c) :: encs)) ->
  iv <> [] -> c <> [] -> Forall (fun l => Js.lacks LF l = true) encs ->
  passphrase <> [] ->
  WidePassphrase.decryptEnv filePath outputPath passphrase w =
  match aesDecrypt (WidePassphrase.wrappingKey passphrase) iv (Hex.toHex c) with
  | None => (Err CryptoFailure, w)
  | Some line =>
      match Js.matchLabel reservedLabel line with
      | None => (Err BadEncryptedFile, w)
      | Some secretKey =>
          if Js.falsy secretKey then (Err BadEncryptedFile, w)
          else
            (decryptedLines <- mapM (decryptLine secretKey) encs ;;
             Fs.writeFileSync outputPath (Js.join newline decryptedLines) ;;;
             Fs.removeSync filePath ;;;
             consoleLog ("Successfully decrypted " +:+ Path.basename filePath +:+
                         " to " +:+ Path.basename outputPath +:+ ".")) w
      end
  end.
Proof.
  intros Hfile Hiv Hc Hencs Hpass. unfold WidePassphrase.decryptEnv.
  rewrite (bind_Ok _ _ _ _ _ (existsSync_present _ _ _ Hfile)). cbn [negb].
  rewrite (bind_Ok _ _ _ _ _ (readFileSync_present _ _ _ Hfile)). cbv zeta.
  unfold newline, LF. rewrite split_join;
    [| discriminate | constructor; [apply header_lacks_LF | assumption]].
  change (Js.at_ ((headerMarker +:+ token iv c) :: encs) 0)
    with (headerMarker +:+ token iv c).
  cbn [List.tail].
  change (Js.falsy (headerMarker +:+ token iv c)) with false.
  rewrite startsWith_app. cbn [orb negb].
  rewrite header_split.
  rewrite (bind_Ok _ _ _ _ _ (wide_deriveKey_run _ _ Hpass)).
  rewrite bind_run, decryptString_token by (assumption || reflexivity).
  fold (WidePassphrase.wrappingKey passphrase).
  destruct (aesDecrypt _ _ _) as [line|]; [| reflexivity].
  destruct (Js.matchLabel reservedLabel line) as [sk|]; [| reflexivity].
  destruct (Js.falsy sk); reflexivity.
Qed.

Context {laws : CryptoLaws crypto}.

Lemma wide_encryptEnv_run w filePath outputPath passphrase content secret :
  files w !! filePath = Some content -> content <> "" ->
  fst (getSecretKey w) = Ok (Some secret) -> secret <> "" ->
  passphrase <> [] ->
  exists c encs w',
    WidePassphrase.encryptEnv filePath outputPath passphrase w = (Ok tt, w') /\
    files w' = delete filePath
      (<[outputPath := Js.join newline ((headerMarker +:+ token (nextIV w) c) :: encs)]>
         (files w)) /\
    c <> [] /\
    aesEncrypt (WidePassphrase.wrappingKey passphrase) (nextIV w) (reservedLabel +:+ secret)
      = Some c /\
    aesDecrypt (WidePassphrase.wrappingKey passphrase) (nextIV w) (Hex.toHex c)
      = Some (reservedLabel +:+ secret) /\
    Forall (fun l => Js.lacks LF l = true) encs /\
    (forall w, mapM (decryptLine secret) encs w = (Ok (Js.split LF content), w)).
Proof.
  intros Hfile Hcontent Hget Hsecret Hpass.
  assert (Hget' : getSecretKey w = (Ok (Some secret), w)).
  { rewrite getSecretKey_run in *. cbn [fst] in Hget. congruence. }
  destruct (encryptString_run (reservedLabel +:+ secret)
              (PwBuffer (scryptSync (PwBuffer (Utf8.encode passphrase)) salt keyLength)) w)
    as (c & w1 & Hseal & Hsame1 & Hc & Henc & Hdec); [discriminate | reflexivity |].
  destruct (encryptLines_run secret (Js.split LF content) w1 Hsecret)
    as (encs & w2 & Hlines & Hsame2 & Hlen & Hpt & Hlf & Hback).
  pose proof (sameButEntropy_trans _ _ _ Hsame1 Hsame2) as (Hcwd & Hfiles & _).
  exists c, encs. eexists.
  split; [| split; [| repeat split; try assumption]].
  - unfold WidePassphrase.encryptEnv.
    rewrite (bind_Ok _ _ _ _ _ (existsSync_present _ _ _ Hfile)). cbn [negb].
    rewrite (bind_Ok _ _ _ _ _ Hget'), (falsy_false _ Hsecret).
    rewrite (bind_Ok _ _ _ _ _ (readFileSync_present _ _ _ Hfile)), (falsy_false _ Hcontent).
    cbv zeta.
    rewrite (bind_Ok _ _ _ _ _ (wide_deriveKey_run _ _ Hpass)).
    rewrite (bind_Ok _ _ _ _ _ Hseal), (bind_Ok _ _ _ _ _ Hlines).
    reflexivity.
  - cbn. now rewrite Hfiles.
  - apply Hlf, split_pieces.
Qed.

End WideCodec.

(** C6, as the code has it. After [encryptEnv] under [pass1], what
    [decryptEnv] does under a non-empty [pass2] is decided by the decipher on
    the header token under the key derived from [pass2]: when the decipher
    refuses the token, [decryptEnv] fails with DecryptionFailed and the world
    is as before; when it returns a text without the reserved label and a
    value, [decryptEnv] fails with InvalidFormat and the world is as before;
    [decryptEnv] succeeds only when it returns a text with the label and a
    value. That the passphrases differ does not make it fail: when [pass2]
    has the UTF-8 bytes of [pass1], the key is the same and the lines are
    restored. *)
Theorem wrong_passphrase_outcome {crypto : NodeCrypto} {laws : CryptoLaws crypto}
    (w : World) (filePath outputPath restoredPath secret : string)
    (pass1 pass2 : list N) (lines : list string) :
  Forall (fun l => Js.lacks LF l = true) lines ->
  Exists (fun l => passedThrough l = false) lines ->
  files w !! filePath = Some (Js.join newline lines) ->
  fst (getSecretKey w) = Ok (Some secret) -> secret <> "" ->
  pass1 <> [] -> pass2 <> [] ->
  filePath <> outputPath -> outputPath <> restoredPath ->
  exists c w1,
    WidePassphrase.encryptEnv filePath outputPath pass1 w = (Ok tt, w1) /\
    aesEncrypt (WidePassphrase.wrappingKey pass1) (nextIV w) (reservedLabel +:+ secret)
      = Some c /\
    let opened := aesDecrypt (WidePassphrase.wrappingKey pass2) (nextIV w) (Hex.toHex c) in
    let result := WidePassphrase.decryptEnv outputPath restoredPath pass2 w1 in
    (opened = None -> result = (Err CryptoFailure, w1)) /\
    (forall line, opened = Some line ->
       Js.matchLabel reservedLabel line = None \/ Js.matchLabel reservedLabel line = Some "" ->
       result = (Err BadEncryptedFile, w1)) /\
    (fst result = Ok tt ->
       exists line secretKey,
         opened = Some line /\ Js.matchLabel reservedLabel line = Some secretKey /\
         secretKey <> "") /\
    (Utf8.encode pass2 = Utf8.encode pass1 ->
       exists w2, result = (Ok tt, w2) /\
                  files w2 !! restoredPath = Some (Js.join newline lines) /\
                  files w2 !! outputPath = None) /\
    classify CryptoFailure = DecryptionFailed /\
    classify BadEncryptedFile = InvalidFormat.
Proof.
  intros Hlf Hdata Hfile Hget Hsecret Hpass1 Hpass2 Hne1 Hne2.
  destruct (wide_encryptEnv_run w filePath outputPath pass1 _ secret Hfile
              (join_not_empty _ Hdata) Hget Hsecret Hpass1)
    as (c & encs & w1 & Hrun & Hfiles1 & Hc & Henc & Hdec & Hlfe & Hback).
  assert (Hout : files w1 !! outputPath =
                 Some (Js.join newline ((headerMarker +:+ token (nextIV w) c) :: encs))).
  { rewrite Hfiles1, lookup_delete_ne, lookup_insert_eq by assumption. reflexivity. }
  exists c, w1. split; [exact Hrun |]. split; [exact Henc |]. cbv zeta.
  rewrite (wide_decryptEnv_header _ _ _ _ _ _ _ Hout) by (apply nextIV_not_nil || assumption).
  split; [| split; [| split; [| split; [| now split]]]].
  - now intros ->.
  - intros line -> [-> | ->]; reflexivity.
  - destruct (aesDecrypt (WidePassphrase.wrappingKey pass2) _ _) as [line|];
      [| cbn [fst]; discriminate].
    destruct (Js.matchLabel reservedLabel line) as [sk|] eqn:Hsome;
      [| cbn [fst]; discriminate].
    destruct (Js.falsy sk) eqn:Hsk; [cbn [fst]; discriminate |].
    intros _. exists line, sk. split; [reflexivity |]. split; [exact Hsome |].
    intros ->. discriminate Hsk.
  - intros Hbytes. unfold WidePassphrase.wrappingKey in *. rewrite Hbytes, Hdec.
    rewrite (matchLabel_app _ _ Hsecret (getSecretKey_chars _ _ Hget)), (falsy_false _ Hsecret).
    rewrite (bind_Ok _ _ _ _ _ (Hback w1)).
    eexists. split; [reflexivity |]. cbn [snd files].
    split.
    + rewrite lookup_delete_ne, lookup_insert_eq by assumption.
      unfold newline, LF. now rewrite join_split.
    + now rewrite lookup_delete_eq.
Qed.

Lemma wrong_passphrase_outcome_witness :
  let lines := ["ENV_SECURE_KEY=k"; "A=1"] in
  let w := Toy.world [("/app/.env", Js.join newline lines)] in
  let pass1 := [0x70; 0x77]%N in
  let pass2 := [0x6F; 0x74; 0x68; 0x65; 0x72]%N in
  CryptoLaws Toy.crypto /\
  Forall (fun l => Js.lacks LF l = true) lines /\
  Exists (fun l => passedThrough l = false) lines /\
  files w !! "/app/.env" = Some (Js.join newline lines) /\
  fst (getSecretKey w) = Ok (Some "k") /\ "k" <> "" /\ pass1 <> [] /\ pass2 <> [] /\
  "/app/.env" <> "/app/.env.enc" /\ "/app/.env.enc" <> "/app/.env" /\
  exists c w1,
    WidePassphrase.encryptEnv (crypto := Toy.crypto) "/app/.env" "/app/.env.enc" pass1 w
      = (Ok tt, w1) /\
    Toy.encrypt (WidePassphrase.wrappingKey (crypto := Toy.crypto) pass1) (nextIV w)
      (reservedLabel +:+ "k") = Some c /\
    let opened :=
      Toy.decrypt (WidePassphrase.wrappingKey (crypto := Toy.crypto) pass2) (nextIV w)
        (Hex.toHex c) in
    let result :=
      WidePassphrase.decryptEnv (crypto := Toy.crypto) "/app/.env.enc" "/app/.env" pass2 w1 in
    (opened = None -> result = (Err CryptoFailure, w1)) /\
    (forall line, opened = Some line ->
       Js.matchLabel reservedLabel line = None \/ Js.matchLabel reservedLabel line = Some "" ->
       result = (Err BadEncryptedFile, w1)) /\
    (fst result = Ok tt ->
       exists line secretKey,
         opened = Some line /\ Js.matchLabel reservedLabel line = Some secretKey /\
         secretKey <> "") /\
    (Utf8.encode pass2 = Utf8.encode pass1 ->
       exists w2, result = (Ok tt, w2) /\
                  files w2 !! "/app/.env" = Some (Js.join newline lines) /\
                  files w2 !! "/app/.env.enc" = None) /\
    classify CryptoFailure = DecryptionFailed /\
    classify BadEncryptedFile = InvalidFormat.
Proof.
  intros lines w pass1 pass2.
  assert (Hlf : Forall (fun l => Js.lacks LF l = true) lines) by (repeat constructor).
  assert (Hdata : Exists (fun l => passedThrough l = false) lines)
    by (constructor; reflexivity).
  repeat (split; [first [exact toy_laws | assumption | reflexivity | discriminate] |]).
  apply (wrong_passphrase_outcome (laws := toy_laws) w "/app/.env" "/app/.env.enc"
           "/app/.env" "k" pass1 pass2 lines);
    first [assumption | reflexivity | discriminate].
Defined.

(** On that input the decipher refuses the header, and [decryptEnv] fails
    with DecryptionFailed. *)
Example wrong_passphrase_refused :
  let w := Toy.world [("/app/.env", Js.join newline ["ENV_SECURE_KEY=k"; "A=1"])] in
  exists w1,
    WidePassphrase.encryptEnv (crypto := Toy.crypto) "/app/.env" "/app/.env.enc"
      [0x70; 0x77]%N w = (Ok tt, w1) /\
    WidePassphrase.decryptEnv (crypto := Toy.crypto) "/app/.env.enc" "/app/.env"
      [0x6F; 0x74; 0x68; 0x65; 0x72]%N w1 = (Err CryptoFailure, w1).
Proof. eexists. split; vm_compute; reflexivity. Qed.

(** Under every crypto library that satisfies the laws: the passphrase of
    the one code unit 0xD800, a lone surrogate, and the passphrase of the one
    code unit 0xFFFD are different strings with the same UTF-8 bytes, so
    [scryptSync] derives one key from both, and the file encrypted under the
    first decrypts under the second. *)
Lemma same_bytes_passphrase_restores :
  forall (crypto : NodeCrypto), CryptoLaws crypto ->
    let lines := ["ENV_SECURE_KEY=k"; "A=1"] in
    let w := Toy.world [("/app/.env", Js.join newline lines)] in
    [0xD800%N] <> [0xFFFD%N] /\
    exists w1 w2,
      WidePassphrase.encryptEnv "/app/.env" "/app/.env.enc" [0xD800%N] w = (Ok tt, w1) /\
      WidePassphrase.decryptEnv "/app/.env.enc" "/app/.env" [0xFFFD%N] w1 = (Ok tt, w2) /\
      files w2 !! "/app/.env" = Some (Js.join newline lines).
Proof.
  intros crypto laws lines w. split; [discriminate |].
  assert (Hget : fst (getSecretKey w) = Ok (Some "k")) by reflexivity.
  destruct (wide_encryptEnv_run w "/app/.env" "/app/.env.enc" [0xD800%N]
              (Js.join newline lines) "k")
    as (c & encs & w1 & Hrun & Hfiles1 & Hc & _ & Hdec & Hlfe & Hback);
    [reflexivity | discriminate | exact Hget | discriminate | discriminate |].
  assert (Hout : files w1 !! "/app/.env.enc" =
                 Some (Js.join newline ((headerMarker +:+ token (nextIV w) c) :: encs))).
  { rewrite Hfiles1, lookup_delete_ne, lookup_insert_eq by discriminate. reflexivity. }
  exists w1. eexists. split; [exact Hrun |].
  rewrite (wide_decryptEnv_header _ _ _ _ _ _ _ Hout)
    by (apply nextIV_not_nil || assumption || discriminate).
  change (WidePassphrase.wrappingKey [0xFFFD%N]) with (WidePassphrase.wrappingKey [0xD800%N]).
  rewrite Hdec.
  change (Js.matchLabel reservedLabel (reservedLabel +:+ "k")) with (Some "k").
  cbn [Js.falsy]. rewrite (bind_Ok _ _ _ _ _ (Hback w1)).
  split; [reflexivity |]. cbn [snd files].
  now rewrite lookup_delete_ne, lookup_insert_eq by discriminate.
Qed.

(** C6, as stated, fails: the passphrases of the one code unit 0xD800 and of
    the one code unit 0xFFFD differ, and under no crypto library that
    satisfies the laws does [decryptEnv] under the second fail on the file
    that [encryptEnv] wrote under the first. *)
Lemma same_bytes_passphrase_accepted :
  ~ exists (crypto : NodeCrypto),
      CryptoLaws crypto /\
      let lines := ["ENV_SECURE_KEY=k"; "A=1"] in
      let w := Toy.world [("/app/.env", Js.join newline lines)] in
      [0xD800%N] <> [0xFFFD%N] /\
      exists (w1 : World) (e : error),
        WidePassphrase.encryptEnv "/app/.env" "/app/.env.enc" [0xD800%N] w = (Ok tt, w1) /\
        fst (WidePassphrase.decryptEnv "/app/.env.enc" "/app/.env" [0xFFFD%N] w1) = Err e /\
        classify e = DecryptionFailed.
Proof.
  intros (crypto & laws & _ & w1 & e & Henc & Hdec & _).
  destruct (same_bytes_passphrase_restores crypto laws) as (_ & w1' & w2 & Henc' & Hdec' & _).
  rewrite Henc in Henc'. injection Henc' as <-.
  rewrite Hdec' in Hdec. discriminate Hdec.
Qed.

(** ** The end-to-end scenario *)

Lemma decryptEnv_empty_passphrase {crypto : NodeCrypto}
    w filePath outputPath iv c (encs : list string) :
  files w !! filePath = Some (Js.join newline ((headerMarker +:+ token iv c) :: encs)) ->
  Forall (fun l => Js.lacks LF l = true) encs ->
  decryptEnv filePath outputPath "" w = (Err PassphraseEmpty, w).
Proof.
  intros Hfile Hencs. unfold decryptEnv.
  rewrite (bind_Ok _ _ _ _ _ (existsSync_present _ _ _ Hfile)). cbn [negb].
  rewrite (bind_Ok _ _ _ _ _ (readFileSync_present _ _ _ Hfile)). cbv zeta.
  unfold newline, LF. rewrite split_join;
    [| discriminate | constructor; [apply header_lacks_LF | assumption]].
  change (Js.at_ ((headerMarker +:+ token iv c) :: encs) 0)
    with (headerMarker +:+ token iv c).
  change (Js.falsy (headerMarker +:+ token iv c)) with false.
  rewrite startsWith_app. cbn [orb negb]. reflexivity.
Qed.

(** C3, as the code has it. On the input lines ["A=1"; ""; "#comment";
    "B=2"] with the secret key "s3cr3t" and the passphrase "pw", [encryptEnv]
    writes exactly 5 lines: the header and one line per input line, of which
    the lines at positions 2 and 3 (counting the header as 0) are "" and
    "#comment", unchanged. [decryptEnv] under "pw" restores exactly the 4
    input lines. Under the empty passphrase it fails with InvalidInput, and
    under any other passphrase for which the decipher refuses the header
    token it fails with DecryptionFailed. *)
Theorem scenario_five_lines {crypto : NodeCrypto} {laws : CryptoLaws crypto}
    (w : World) (filePath outputPath restoredPath : string) :
  files w !! filePath = Some (Js.join newline ["A=1"; ""; "#comment"; "B=2"]) ->
  fst (getSecretKey w) = Ok (Some "s3cr3t") ->
  filePath <> outputPath -> outputPath <> restoredPath ->
  exists w1 c first last,
    encryptEnv filePath outputPath "pw" w = (Ok tt, w1) /\
    (exists encrypted,
       files w1 !! outputPath = Some encrypted /\
       Js.split LF encrypted =
         [headerMarker +:+ token (nextIV w) c; first; ""; "#comment"; last]) /\
    (exists w2 restored,
       decryptEnv outputPath restoredPath "pw" w1 = (Ok tt, w2) /\
       files w2 !! restoredPath = Some restored /\
       Js.split LF restored = ["A=1"; ""; "#comment"; "B=2"]) /\
    (decryptEnv outputPath restoredPath "" w1 = (Err PassphraseEmpty, w1) /\
     classify PassphraseEmpty = InvalidInput) /\
    (forall pass,
       pass <> "" ->
       aesDecrypt (wrappingKey pass) (nextIV w) (Hex.toHex c) = None ->
       decryptEnv outputPath restoredPath pass w1 = (Err CryptoFailure, w1) /\
       classify CryptoFailure = DecryptionFailed).
Proof.
  intros Hfile Hget Hne1 Hne2.
  set (lines := ["A=1"; ""; "#comment"; "B=2"]) in *.
  assert (Hsecret : "s3cr3t" <> "") by discriminate.
  assert (Hpass : "pw" <> "") by discriminate.
  destruct (encryptEnv_run w filePath outputPath "pw" _ "s3cr3t" Hfile
              ltac:(discriminate) Hget Hsecret Hpass)
    as (c & encs & w1 & Henc & _ & Hfiles1 & Hsealed).
  change (Js.split LF (Js.join newline lines)) with lines in Hsealed.
  assert (Hout : files w1 !! outputPath =
                 Some (Js.join newline ((headerMarker +:+ token (nextIV w) c) :: encs))).
  { rewrite Hfiles1, lookup_delete_ne, lookup_insert_eq by assumption. reflexivity. }
  destruct (decryptEnv_sealed w1 outputPath restoredPath "pw" "pw" "s3cr3t" lines _ c encs
              Hout Hsealed Hsecret eq_refl Hpass eq_refl)
    as (w2 & Hdec & _ & _ & Hfiles2).
  destruct Hsealed as (Hiv & Hc & _ & _ & Hlen & Hpt & Hlfe & _).
  destruct encs as [|e1 [|e2 [|e3 [|e4 [|e5 encs]]]]]; try discriminate Hlen.
  pose proof (Hpt 1 "" eq_refl eq_refl) as He2. injection He2 as ->.
  pose proof (Hpt 2 "#comment" eq_refl eq_refl) as He3. injection He3 as ->.
  exists w1, c, e1, e4. split; [exact Henc |]. split; [| split; [| split]].
  - eexists. split; [exact Hout |]. unfold newline.
    apply split_join; [discriminate |]. constructor; [apply header_lacks_LF | assumption].
  - exists w2, (Js.join newline lines). split; [exact Hdec |]. split; [| reflexivity].
    rewrite Hfiles2, lookup_delete_ne, lookup_insert_eq by assumption. reflexivity.
  - split; [| reflexivity].
    now apply (decryptEnv_empty_passphrase w1 outputPath restoredPath (nextIV w) c
                 [e1; ""; "#comment"; e4]).
  - intros pass Hp Hrej. split; [| reflexivity].
    now apply (decryptEnv_rejected w1 outputPath restoredPath pass (nextIV w) c
                 [e1; ""; "#comment"; e4]).
Qed.

Lemma scenario_five_lines_witness :
  let w := Toy.world [("/app/.env", "ENV_SECURE_KEY=s3cr3t");
                      ("/app/config.env", Js.join newline ["A=1"; ""; "#comment"; "B=2"])] in
  CryptoLaws Toy.crypto /\
  files w !! "/app/config.env" = Some (Js.join newline ["A=1"; ""; "#comment"; "B=2"]) /\
  fst (getSecretKey w) = Ok (Some "s3cr3t") /\
  "/app/config.env" <> "/app/config.env.enc" /\
  "/app/config.env.enc" <> "/app/config.env" /\
  exists w1 c first last,
    encryptEnv (crypto := Toy.crypto) "/app/config.env" "/app/config.env.enc" "pw" w = (Ok tt, w1) /\
    (exists encrypted,
       files w1 !! "/app/config.env.enc" = Some encrypted /\
       Js.split LF encrypted =
         [headerMarker +:+ token (nextIV w) c; first; ""; "#comment"; last]) /\
    (exists w2 restored,
       decryptEnv (crypto := Toy.crypto) "/app/config.env.enc" "/app/config.env" "pw" w1 = (Ok tt, w2) /\
       files w2 !! "/app/config.env" = Some restored /\
       Js.split LF restored = ["A=1"; ""; "#comment"; "B=2"]) /\
    (decryptEnv (crypto := Toy.crypto) "/app/config.env.enc" "/app/config.env" "" w1 =
       (Err PassphraseEmpty, w1) /\
     classify PassphraseEmpty = InvalidInput) /\
    (forall pass,
       pass <> "" ->
       Toy.decrypt (wrappingKey (crypto := Toy.crypto) pass) (nextIV w) (Hex.toHex c) = None ->
       decryptEnv (crypto := Toy.crypto) "/app/config.env.enc" "/app/config.env" pass w1 =
         (Err CryptoFailure, w1) /\
       classify CryptoFailure = DecryptionFailed).
Proof.
  intros w.
  repeat (split; [first [exact toy_laws | reflexivity | discriminate] |]).
  apply (scenario_five_lines (laws := toy_laws) w "/app/config.env" "/app/config.env.enc"
           "/app/config.env");
    first [reflexivity | discriminate].
Defined.

(** C3, as stated, fails: on the scenario's input [encryptEnv] writes 5
    lines, not 4. *)
Lemma scenario_output_is_not_four_lines :
  let w := Toy.world [("/app/.env", "ENV_SECURE_KEY=s3cr3t");
                      ("/app/config.env", Js.join newline ["A=1"; ""; "#comment"; "B=2"])] in
  let run := encryptEnv (crypto := Toy.crypto) "/app/config.env" "/app/config.env.enc" "pw" w in
  fst (getSecretKey w) = Ok (Some "s3cr3t") /\
  fst run = Ok tt /\
  (fun encrypted => length (Js.split LF encrypted)) <$> files (snd run) !! "/app/config.env.enc"
    = Some 5.
Proof. repeat split; reflexivity. Qed.

(** C2, on the code: the secret key of this file is found in a comment line,
    and that line stands in the encrypted file as it is, secret key
    included. *)
Theorem secret_key_left_in_comment :
  let w := Toy.world
    [("/app/.env", "#ENV_SECURE_KEY=hunter2" +:+ newline +:+ "API_TOKEN=abc")] in
  let run := encryptEnv (crypto := Toy.crypto) "/app/.env" "/app/.env.enc" "pw" w in
  fst (getSecretKey w) = Ok (Some "hunter2") /\
  fst run = Ok tt /\
  exists encrypted,
    files (snd run) !! "/app/.env.enc" = Some encrypted /\
    Js.split LF encrypted !! 1 = Some "#ENV_SECURE_KEY=hunter2" /\
    Spec.contains "#ENV_SECURE_KEY=hunter2" "hunter2" = true.
Proof.
  repeat split; try reflexivity.
  eexists. repeat split; reflexivity.
Qed.

(** ** Rotation *)

Lemma updateSecretKey_run newSecretKey w :
  Cli.updateSecretKey newSecretKey w =
  (Ok tt, mkWorld (cwd w)
            (<[Path.join (cwd w) ".env" := reservedLabel +:+ newSecretKey +:+ newline]> (files w))
            (entropy w) (console w)).
Proof. reflexivity. Qed.

Lemma updateSecretKey_other_files newSecretKey w p :
  p <> Path.join (cwd w) ".env" ->
  files (snd (Cli.updateSecretKey newSecretKey w)) !! p = files w !! p.
Proof. intros Hp. rewrite updateSecretKey_run. cbn [snd files]. now rewrite lookup_insert_ne. Qed.

(** C4, on the code: [rotate-key] on a file that holds the secret key and
    another line succeeds and leaves a file of one line, the new secret key;
    the other line is gone. *)
Theorem rotateKey_discards_other_lines :
  let w := Toy.world
    [("/app/.env", "ENV_SECURE_KEY=old" +:+ newline +:+ "API_TOKEN=abc")] in
  let run := Cli.rotateKey "old" "new" w in
  fst run = Cli.Finished /\
  files (snd run) !! "/app/.env" = Some ("ENV_SECURE_KEY=new" +:+ newline) /\
  console (snd run) = ["Secret key updated successfully."].
Proof. repeat split; reflexivity. Qed.

(** * Further properties *)

(** ** What [encryptString] returns *)

Lemma window_0 w : window w 0 = nextIV w.
Proof. reflexivity. Qed.

Lemma window_length w k : length (window w k) = 16.
Proof. unfold window. now rewrite length_map, length_seq. Qed.

Lemma window_not_nil w k : window w k <> [].
Proof. intros H. pose proof (window_length w k) as L. rewrite H in L. discriminate. Qed.

Lemma consumed_window k w w' j : consumed k w w' -> window w' j = window w (k + j).
Proof.
  intros [_ Hent]. unfold window. apply map_ext. intros i.
  now rewrite Hent, Nat.add_assoc.
Qed.

Lemma consumed_0 w : consumed 0 w w.
Proof. split; [now repeat split | reflexivity]. Qed.

Lemma consumed_trans j k w1 w2 w3 :
  consumed j w1 w2 -> consumed k w2 w3 -> consumed (j + k) w1 w3.
Proof.
  intros [H12 E12] [H23 E23]. split.
  - eapply sameButEntropy_trans; eassumption.
  - intros i. now rewrite E23, E12, Nat.add_assoc.
Qed.

Lemma toHex_length buf : String.length (Hex.toHex buf) = 2 * length buf.
Proof.
  induction buf as [|b buf IH]; [reflexivity |].
  cbn [Hex.toHex String.length length]. rewrite IH. lia.
Qed.

Section Sealing.
Context {crypto : NodeCrypto}.

Lemma encryptString_Ok text key w tok w' :
  encryptString text key w = (Ok tok, w') ->
  text <> "" /\ pwFalsy key = false /\ consumed 16 w w' /\
  exists c, aesEncrypt (scryptSync key salt keyLength) (nextIV w) text = Some c /\
            tok = token (nextIV w) c.
Proof.
  unfold encryptString. destruct (Js.falsy text) eqn:Ht; [discriminate |].
  destruct (pwFalsy key) eqn:Hk; [discriminate |]. cbn [orb]. cbv zeta.
  rewrite bind_run. cbn [randomBytes]. fold (nextIV w).
  destruct (aesEncrypt _ _ _) as [c|] eqn:Hc; [| discriminate].
  intros [= <- <-]. split; [now destruct text |]. split; [reflexivity |].
  split; [| eauto]. split; [now repeat split | reflexivity].
Qed.

Lemma encryptString_frame text key w :
  sameButEntropy w (snd (encryptString text key w)).
Proof.
  unfold encryptString. destruct (Js.falsy text || pwFalsy key); [now repeat split |].
  cbv zeta. rewrite bind_run. cbn [randomBytes].
  destruct (aesEncrypt _ _ _); now repeat split.
Qed.

Lemma encryptLine_frame sk l w : sameButEntropy w (snd (encryptLine sk l w)).
Proof.
  unfold encryptLine. destruct (passedThrough l); [now repeat split |].
  apply encryptString_frame.
Qed.

Lemma encryptLines_frame sk (lines : list string) w :
  sameButEntropy w (snd (mapM (encryptLine sk) lines w)).
Proof.
  revert w. induction lines as [|l lines IH]; intros w; [now repeat split |].
  cbn [mapM]. rewrite bind_run.
  pose proof (encryptLine_frame sk l w) as H1.
  destruct (encryptLine sk l w) as [[e|err] w1]; cbn [snd] in H1; [| exact H1].
  rewrite bind_run. pose proof (IH w1) as H2.
  destruct (mapM (encryptLine sk) lines w1) as [[es|err] w2]; cbn [snd] in *;
    eapply sameButEntropy_trans; eassumption.
Qed.

(** X1. The format of a token: whenever [encryptString] returns, its result
    is 32 hexadecimal digits (the 16 bytes that the random source gave), a
    colon, and the hexadecimal text of the ciphertext; it holds no line feed
    and no [=], splits on [:] into exactly these two parts, and is never
    taken for a blank or comment line. Exactly 16 bytes of the random source
    were used, nothing else changed. *)
Theorem encryptString_token_format (text : string) (key : password) (w w' : World) (tok : string) :
  encryptString text key w = (Ok tok, w') ->
  exists c,
    aesEncrypt (scryptSync key salt keyLength) (nextIV w) text = Some c /\
    tok = Hex.toHex (nextIV w) +:+ ":" +:+ Hex.toHex c /\
    String.length (Hex.toHex (nextIV w)) = 32 /\
    Js.allChars Hex.isHexDigit (Hex.toHex (nextIV w)) = true /\
    Js.allChars Hex.isHexDigit (Hex.toHex c) = true /\
    Js.split ":" tok = [Hex.toHex (nextIV w); Hex.toHex c] /\
    Js.lacks LF tok = true /\ Js.lacks "=" tok = true /\
    passedThrough tok = false /\
    consumed 16 w w'.
Proof.
  intros H. destruct (encryptString_Ok _ _ _ _ _ H) as (_ & _ & Hcons & c & Hc & ->).
  exists c. split; [exact Hc |]. split; [reflexivity |].
  split; [now rewrite toHex_length, nextIV_length |].
  split; [apply toHex_digits |]. split; [apply toHex_digits |].
  split; [apply token_split |]. split; [apply token_lacks_LF |].
  split; [apply token_lacks_equals |].
  split; [apply token_not_passedThrough, nextIV_not_nil | exact Hcons].
Qed.

End Sealing.

Lemma encryptString_token_format_witness :
  let w := Toy.world [] in
  let run := encryptString (crypto := Toy.crypto) "A=1" (PwString "k") w in
  run = (Ok "000102030405060708090a0b0c0d0e0f:423e3283", snd run) /\
  exists c,
    Toy.encrypt (Toy.scrypt (PwString "k") salt keyLength) (nextIV w) "A=1" = Some c /\
    "000102030405060708090a0b0c0d0e0f:423e3283" = Hex.toHex (nextIV w) +:+ ":" +:+ Hex.toHex c /\
    String.length (Hex.toHex (nextIV w)) = 32 /\
    Js.allChars Hex.isHexDigit (Hex.toHex (nextIV w)) = true /\
    Js.allChars Hex.isHexDigit (Hex.toHex c) = true /\
    Js.split ":" "000102030405060708090a0b0c0d0e0f:423e3283" = [Hex.toHex (nextIV w); Hex.toHex c] /\
    Js.lacks LF "000102030405060708090a0b0c0d0e0f:423e3283" = true /\
    Js.lacks "=" "000102030405060708090a0b0c0d0e0f:423e3283" = true /\
    passedThrough "000102030405060708090a0b0c0d0e0f:423e3283" = false /\
    consumed 16 w (snd run).
Proof.
  intros w run. split; [reflexivity |].
  apply (encryptString_token_format (crypto := Toy.crypto) "A=1" (PwString "k") w (snd run)).
  reflexivity.
Defined.

(** ** What [encryptEnv] does *)

Lemma dataLines_cons_passed l (lines : list string) :
  passedThrough l = true -> dataLines (l :: lines) = dataLines lines.
Proof. intros H. unfold dataLines. cbn [List.filter]. now rewrite H. Qed.

Lemma dataLines_cons_data l (lines : list string) :
  passedThrough l = false -> dataLines (l :: lines) = l :: dataLines lines.
Proof. intros H. unfold dataLines. cbn [List.filter]. now rewrite H. Qed.

Lemma getSecretKey_total w : exists stored, getSecretKey w = (Ok stored, w).
Proof. rewrite getSecretKey_run. eauto. Qed.

Lemma getSecretKey_fst w stored :
  fst (getSecretKey w) = Ok stored -> getSecretKey w = (Ok stored, w).
Proof. destruct (getSecretKey_total w) as [s Hs]. rewrite Hs. cbn [fst]. congruence. Qed.

Section Encrypting.
Context {crypto : NodeCrypto}.

Lemma encryptLines_Ok sk (lines : list string) w encs w' :
  mapM (encryptLine sk) lines w = (Ok encs, w') ->
  length encs = length lines /\
  consumed (16 * length (dataLines lines)) w w' /\
  (forall i l, lines !! i = Some l -> passedThrough l = true -> encs !! i = Some l) /\
  (forall i l, lines !! i = Some l -> passedThrough l = false ->
     exists c,
       aesEncrypt (scryptSync (PwString sk) salt keyLength)
         (window w (16 * length (dataLines (take i lines)))) l = Some c /\
       encs !! i = Some (token (window w (16 * length (dataLines (take i lines)))) c)) /\
  (Forall (fun l => Js.lacks LF l = true) lines ->
   Forall (fun l => Js.lacks LF l = true) encs).
Proof.
  revert w encs w'. induction lines as [|l lines IH]; intros w encs w'.
  - intros [= <- <-]. split; [reflexivity |]. split; [apply consumed_0 |].
    split; [intros i l H; discriminate H |].
    split; [intros i l H; discriminate H | auto].
  - cbn [mapM]. rewrite bind_run.
    destruct (encryptLine sk l w) as [[e|err] w1] eqn:E1; [| discriminate].
    rewrite bind_run.
    destruct (mapM (encryptLine sk) lines w1) as [[es|err] w2] eqn:E2; [| discriminate].
    intros [= <- <-].
    destruct (IH _ _ _ E2) as (Hlen & Hcons & Hpass & Hdata & Hlf). clear IH.
    unfold encryptLine in E1. destruct (passedThrough l) eqn:Hp.
    + injection E1 as <- <-. rewrite (dataLines_cons_passed _ _ Hp).
      split; [cbn [length]; now rewrite Hlen |]. split; [exact Hcons |].
      split; [| split].
      * intros [|i] l' Hl Hp'; [exact Hl | now apply Hpass].
      * intros [|i] l' Hl Hp'.
        -- injection Hl as <-. congruence.
        -- change (take (S i) (l :: lines)) with (l :: take i lines).
           rewrite (dataLines_cons_passed _ _ Hp). now apply Hdata.
      * intros Hall. inversion Hall; subst. constructor; auto.
    + destruct (encryptString_Ok _ _ _ _ _ E1) as (_ & _ & Hc16 & c & Hc & ->).
      rewrite (dataLines_cons_data _ _ Hp). cbn [length].
      split; [now rewrite Hlen |].
      split; [replace (16 * S (length (dataLines lines)))
                with (16 + 16 * length (dataLines lines)) by lia;
              eapply consumed_trans; eassumption |].
      split; [| split].
      * intros [|i] l' Hl Hp'; [injection Hl as <-; congruence | now apply Hpass].
      * intros [|i] l' Hl Hp'.
        -- injection Hl as <-. exists c. split; [exact Hc | reflexivity].
        -- change (take (S i) (l :: lines)) with (l :: take i lines).
           rewrite (dataLines_cons_data _ _ Hp). cbn [length].
           destruct (Hdata i l' Hl Hp') as (c' & Hc' & He').
           rewrite (consumed_window _ _ _ _ Hc16) in Hc', He'.
           replace (16 * S (length (dataLines (take i lines))))
             with (16 + 16 * length (dataLines (take i lines))) by lia.
           exists c'. split; assumption.
      * intros Hall. inversion Hall; subst. constructor; [apply token_lacks_LF | auto].
Qed.

Lemma encryptEnv_unfold filePath outputPath passphrase w content stored :
  files w !! filePath = Some content ->
  getSecretKey w = (Ok stored, w) ->
  encryptEnv filePath outputPath passphrase w =
  match stored with
  | None => (Err SecretKeyMissing, w)
  | Some secretKey =>
      if Js.falsy secretKey then (Err SecretKeyMissing, w)
      else if Js.falsy content then (Err (FileEmpty filePath), w)
      else if Js.falsy passphrase then (Err PassphraseEmpty, w)
      else
        (encryptedSecretKey <-
           encryptString (reservedLabel +:+ secretKey)
             (PwBuffer (scryptSync (PwString passphrase) salt keyLength)) ;;
         pushed <- mapM (encryptLine secretKey) (Js.split LF content) ;;
         Fs.writeFileSync outputPath
           (Js.join newline ((headerMarker +:+ encryptedSecretKey) :: pushed)) ;;;
         Fs.removeSync filePath ;;;
         consoleLog (doneMessage "encrypted" filePath outputPath)) w
  end.
Proof.
  intros Hfile Hget. unfold encryptEnv.
  rewrite (bind_Ok _ _ _ _ _ (existsSync_present _ _ _ Hfile)). cbn [negb].
  rewrite (bind_Ok _ _ _ _ _ Hget). destruct stored as [sk|]; [| reflexivity].
  destruct (Js.falsy sk); [reflexivity |].
  rewrite (bind_Ok _ _ _ _ _ (readFileSync_present _ _ _ Hfile)).
  destruct (Js.falsy content); [reflexivity |]. cbv zeta.
  unfold deriveKeyFromPassphrase. destruct (Js.falsy passphrase); reflexivity.
Qed.

Lemma encryptEnv_missing filePath outputPath passphrase w :
  files w !! filePath = None ->
  encryptEnv filePath outputPath passphrase w = (Err (FileMissing filePath), w).
Proof.
  intros H. unfold encryptEnv.
  now rewrite (bind_Ok _ _ _ _ _ (existsSync_absent _ _ H)).
Qed.

(** X3. The order in which [encryptEnv] refuses, each time leaving the world
    as it is: a missing input file (FileStateError); then a secret key that
    [getSecretKey] does not find or finds empty (MissingSecretKey); then an
    empty input file (FileStateError); then an empty passphrase
    (InvalidInput). When the input file is [.env] itself and is empty, the
    refusal is the one for the missing secret key. *)
Theorem encryptEnv_refusals (filePath outputPath passphrase : string) (w : World) :
  (files w !! filePath = None ->
   encryptEnv filePath outputPath passphrase w = (Err (FileMissing filePath), w)) /\
  (forall content, files w !! filePath = Some content ->
     (fst (getSecretKey w) = Ok None \/ fst (getSecretKey w) = Ok (Some "") ->
      encryptEnv filePath outputPath passphrase w = (Err SecretKeyMissing, w)) /\
     (forall secret, fst (getSecretKey w) = Ok (Some secret) -> secret <> "" ->
        (content = "" ->
         encryptEnv filePath outputPath passphrase w = (Err (FileEmpty filePath), w)) /\
        (content <> "" -> passphrase = "" ->
         encryptEnv filePath outputPath passphrase w = (Err PassphraseEmpty, w)))) /\
  (envFile w = Some "" ->
   encryptEnv (Path.join (cwd w) ".env") outputPath passphrase w = (Err SecretKeyMissing, w)).
Proof.
  split; [apply encryptEnv_missing |]. split.
  - intros content Hfile. split.
    + intros [H | H]; apply getSecretKey_fst in H;
        now rewrite (encryptEnv_unfold _ _ _ _ _ _ Hfile H).
    + intros secret H Hne. apply getSecretKey_fst in H.
      rewrite (encryptEnv_unfold _ _ _ _ _ _ Hfile H), (falsy_false _ Hne).
      split; [now intros -> |].
      intros Hc ->. now rewrite (falsy_false _ Hc).
  - intros Henv.
    assert (Hget : getSecretKey w = (Ok None, w)) by now rewrite getSecretKey_run, Henv.
    now rewrite (encryptEnv_unfold _ _ _ _ _ _ Henv Hget).
Qed.

End Encrypting.

Lemma encryptEnv_refusals_witness :
  let w := Toy.world [("/app/.env", "ENV_SECURE_KEY=k"); ("/app/empty.env", "");
                      ("/app/vars.env", "A=1")] in
  let blank := Toy.world [("/app/.env", "")] in
  (files w !! "/app/none.env" = None /\
   encryptEnv (crypto := Toy.crypto) "/app/none.env" "/app/out" "pw" w =
     (Err (FileMissing "/app/none.env"), w)) /\
  (files w !! "/app/empty.env" = Some "" /\ fst (getSecretKey w) = Ok (Some "k") /\
   encryptEnv (crypto := Toy.crypto) "/app/empty.env" "/app/out" "pw" w =
     (Err (FileEmpty "/app/empty.env"), w)) /\
  (files w !! "/app/vars.env" = Some "A=1" /\
   encryptEnv (crypto := Toy.crypto) "/app/vars.env" "/app/out" "" w = (Err PassphraseEmpty, w)) /\
  (envFile blank = Some "" /\
   encryptEnv (crypto := Toy.crypto) "/app/.env" "/app/out" "pw" blank =
     (Err SecretKeyMissing, blank)).
Proof.
  intros w blank. split; [| split; [| split]].
  - split; [reflexivity |].
    now apply (proj1 (encryptEnv_refusals (crypto := Toy.crypto) "/app/none.env" "/app/out" "pw" w)).
  - split; [reflexivity |]. split; [reflexivity |].
    now apply (proj1 (proj2 (proj1 (proj2
             (encryptEnv_refusals (crypto := Toy.crypto) "/app/empty.env" "/app/out" "pw" w))
             "" eq_refl) "k" eq_refl ltac:(discriminate))).
  - split; [reflexivity |].
    apply (proj2 (proj2 (proj1 (proj2
             (encryptEnv_refusals (crypto := Toy.crypto) "/app/vars.env" "/app/out" "" w))
             "A=1" eq_refl) "k" eq_refl ltac:(discriminate)));
      [discriminate | reflexivity].
  - split; [reflexivity |].
    now apply (proj2 (proj2
             (encryptEnv_refusals (crypto := Toy.crypto) "/app/.env" "/app/out" "pw" blank))).
Defined.

Lemma dataLines_before (lines : list string) i j l :
  lines !! i = Some l -> passedThrough l = false -> i < j ->
  S (length (dataLines (take i lines))) <= length (dataLines (take j lines)).
Proof.
  revert i j. induction lines as [|x lines IH]; intros i j Hl Hp Hij; [discriminate Hl |].
  destruct j as [|j]; [lia |].
  change (take (S j) (x :: lines)) with (x :: take j lines).
  destruct i as [|i].
  - injection Hl as ->. rewrite (dataLines_cons_data _ _ Hp).
    change (dataLines (take 0 (l :: lines))) with (@nil string). cbn [length]. lia.
  - change (take (S i) (x :: lines)) with (x :: take i lines).
    assert (H : S (length (dataLines (take i lines))) <= length (dataLines (take j lines)))
      by (apply (IH i j); [exact Hl | exact Hp | lia]).
    destruct (passedThrough x) eqn:Hx.
    + now rewrite !(dataLines_cons_passed _ _ Hx).
    + rewrite !(dataLines_cons_data _ _ Hx). cbn [length]. lia.
Qed.

Section EncryptedFile.
Context {crypto : NodeCrypto}.

Lemma join_header_starts header (pushed : list string) :
  Js.startsWith (Js.join newline ((headerMarker +:+ header) :: pushed)) headerMarker = true.
Proof.
  destruct pushed as [|x pushed].
  - apply startsWith_app.
  - rewrite join_cons, append_assoc. apply startsWith_app.
Qed.

Lemma encryptEnv_Ok filePath outputPath passphrase w w' :
  encryptEnv filePath outputPath passphrase w = (Ok tt, w') ->
  exists content secret c pushed w1 w2,
    files w !! filePath = Some content /\ content <> "" /\
    fst (getSecretKey w) = Ok (Some secret) /\ secret <> "" /\ passphrase <> "" /\
    aesEncrypt (wrappingKey passphrase) (window w 0) (reservedLabel +:+ secret) = Some c /\
    consumed 16 w w1 /\
    mapM (encryptLine secret) (Js.split LF content) w1 = (Ok pushed, w2) /\
    entropy w' = entropy w2 /\
    cwd w' = cwd w /\
    files w' = delete filePath
      (<[outputPath := Js.join newline ((headerMarker +:+ token (window w 0) c) :: pushed)]>
         (files w)) /\
    console w' = console w ++ [doneMessage "encrypted" filePath outputPath].
Proof.
  destruct (files w !! filePath) as [content|] eqn:Hfile;
    [| rewrite (encryptEnv_missing _ _ _ _ Hfile); discriminate].
  destruct (getSecretKey_total w) as [stored Hget].
  rewrite (encryptEnv_unfold _ _ _ _ _ _ Hfile Hget).
  destruct stored as [sk|]; [| discriminate].
  destruct (Js.falsy sk) eqn:Hsk; [discriminate |].
  destruct (Js.falsy content) eqn:Hcontent; [discriminate |].
  destruct (Js.falsy passphrase) eqn:Hpass; [discriminate |].
  rewrite bind_run.
  destruct (encryptString _ _ w) as [[tok|err] w1] eqn:E1; [| discriminate].
  destruct (encryptString_Ok _ _ _ _ _ E1) as (_ & _ & Hc16 & c & Hc & ->).
  rewrite bind_run.
  destruct (mapM _ _ w1) as [[pushed|err] w2] eqn:E2; [| discriminate].
  pose proof (encryptLines_frame sk (Js.split LF content) w1) as Hframe.
  rewrite E2 in Hframe. cbn [snd] in Hframe.
  pose proof (sameButEntropy_trans _ _ _ (proj1 Hc16) Hframe) as (Hcwd & Hfiles & Hcons).
  intros [= <-]. exists content, sk, c, pushed, w1, w2.
  split; [reflexivity |]. split; [now destruct content |].
  split; [now rewrite Hget |]. split; [now destruct sk |].
  split; [now destruct passphrase |]. split; [exact Hc |].
  split; [exact Hc16 |]. split; [exact E2 |].
  cbn [cwd files entropy console].
  split; [reflexivity |]. split; [exact Hcwd |].
  split; [now rewrite Hfiles | now rewrite Hcons].
Qed.

(** X4. What a successful [encryptEnv] leaves: the input file is removed and
    the output file holds one line more than the input had, the first of
    which starts with [SECRET_KEY=]; every blank or comment line of the input
    stands unchanged one position further down; no other file is touched and
    one line is logged. The input was not empty and neither was the
    passphrase. No assumption on the crypto library is needed. *)
Theorem encryptEnv_success_shape
    (filePath outputPath passphrase : string) (w w' : World) :
  encryptEnv filePath outputPath passphrase w = (Ok tt, w') ->
  exists content encrypted,
    files w !! filePath = Some content /\ content <> "" /\ passphrase <> "" /\
    files w' = delete filePath (<[outputPath := encrypted]> (files w)) /\
    length (Js.split LF encrypted) = S (length (Js.split LF content)) /\
    Js.startsWith encrypted headerMarker = true /\
    (forall i l, Js.split LF content !! i = Some l -> passedThrough l = true ->
                 Js.split LF encrypted !! S i = Some l) /\
    cwd w' = cwd w /\
    console w' = console w ++ [doneMessage "encrypted" filePath outputPath].
Proof.
  intros H.
  destruct (encryptEnv_Ok _ _ _ _ _ H)
    as (content & sk & c & pushed & w1 & w2 & Hfile & Hcontent & _ & _ & Hpass & _ & _ &
        Hlines & _ & Hcwd & Hfiles & Hconsole).
  destruct (encryptLines_Ok _ _ _ _ _ Hlines) as (Hlen & _ & Hpt & _ & Hlf).
  assert (Hsplit : Js.split LF (Js.join newline ((headerMarker +:+ token (window w 0) c) :: pushed))
                   = (headerMarker +:+ token (window w 0) c) :: pushed).
  { unfold newline. apply split_join; [discriminate |].
    constructor; [apply header_lacks_LF | apply Hlf, split_pieces]. }
  exists content. eexists. split; [exact Hfile |]. split; [exact Hcontent |].
  split; [exact Hpass |]. split; [exact Hfiles |].
  split; [rewrite Hsplit; cbn [length]; now rewrite Hlen |].
  split; [apply join_header_starts |].
  split; [| split; assumption].
  intros i l Hl Hp. rewrite Hsplit. now apply Hpt.
Qed.

(** X5. Fresh random bytes for every token: a successful [encryptEnv] seals
    the header under the first 16 bytes of the random source and the data
    line at position [i] under the 16 bytes that start at offset
    [16 * (1 + d)], where [d] is the number of data lines before it; the
    offsets of two data lines are at least 16 apart, so no two tokens share a
    byte of the random source, and the source is left
    [16 * (1 + number of data lines)] bytes further. *)
Theorem encryptEnv_fresh_windows
    (filePath outputPath passphrase : string) (w w' : World) :
  encryptEnv filePath outputPath passphrase w = (Ok tt, w') ->
  exists content secret encrypted,
    files w !! filePath = Some content /\
    fst (getSecretKey w) = Ok (Some secret) /\
    files w' = delete filePath (<[outputPath := encrypted]> (files w)) /\
    (exists c,
       aesEncrypt (wrappingKey passphrase) (window w 0) (reservedLabel +:+ secret) = Some c /\
       Js.split LF encrypted !! 0 = Some (headerMarker +:+ token (window w 0) c)) /\
    (forall i l,
       Js.split LF content !! i = Some l -> passedThrough l = false ->
       exists c,
         aesEncrypt (scryptSync (PwString secret) salt keyLength)
           (window w (16 * S (length (dataLines (take i (Js.split LF content)))))) l = Some c /\
         Js.split LF encrypted !! S i =
           Some (token (window w (16 * S (length (dataLines (take i (Js.split LF content)))))) c)) /\
    (forall i j l,
       Js.split LF content !! i = Some l -> passedThrough l = false -> i < j ->
       16 * S (length (dataLines (take i (Js.split LF content)))) + 16 <=
       16 * S (length (dataLines (take j (Js.split LF content))))) /\
    (forall i, entropy w' i =
               entropy w (16 * S (length (dataLines (Js.split LF content))) + i)).
Proof.
  intros H.
  destruct (encryptEnv_Ok _ _ _ _ _ H)
    as (content & sk & c & pushed & w1 & w2 & Hfile & _ & Hget & _ & _ & Hc & Hc16 &
        Hlines & Hent' & _ & Hfiles & _).
  destruct (encryptLines_Ok _ _ _ _ _ Hlines) as (_ & Hcons & _ & Hdata & Hlf).
  assert (Hsplit : Js.split LF (Js.join newline ((headerMarker +:+ token (window w 0) c) :: pushed))
                   = (headerMarker +:+ token (window w 0) c) :: pushed).
  { unfold newline. apply split_join; [discriminate |].
    constructor; [apply header_lacks_LF | apply Hlf, split_pieces]. }
  exists content, sk. eexists. split; [exact Hfile |]. split; [exact Hget |].
  split; [exact Hfiles |]. rewrite Hsplit. split; [| split; [| split]].
  - exists c. split; [exact Hc | reflexivity].
  - intros i l Hl Hp. destruct (Hdata i l Hl Hp) as (c' & Hc' & He').
    rewrite (consumed_window _ _ _ _ Hc16) in Hc', He'.
    replace (16 * S (length (dataLines (take i (Js.split LF content)))))
      with (16 + 16 * length (dataLines (take i (Js.split LF content)))) by lia.
    exists c'. split; assumption.
  - intros i j l Hl Hp Hij. pose proof (dataLines_before _ _ _ _ Hl Hp Hij). lia.
  - intros i. destruct (consumed_trans _ _ _ _ _ Hc16 Hcons) as [_ Hent].
    rewrite Hent', Hent. f_equal. lia.
Qed.

End EncryptedFile.

Lemma encryptEnv_success_shape_witness :
  let w := Toy.world
    [("/app/.env", Js.join newline ["ENV_SECURE_KEY=k"; "# note"; "A=1"]);
     ("/app/notes.txt", "keep")] in
  let run := encryptEnv (crypto := Toy.crypto) "/app/.env" "/app/.env.enc" "pw" w in
  run = (Ok tt, snd run) /\
  exists content encrypted,
    files w !! "/app/.env" = Some content /\ content <> "" /\ "pw" <> "" /\
    files (snd run) = delete "/app/.env" (<["/app/.env.enc" := encrypted]> (files w)) /\
    length (Js.split LF encrypted) = S (length (Js.split LF content)) /\
    Js.startsWith encrypted headerMarker = true /\
    (forall i l, Js.split LF content !! i = Some l -> passedThrough l = true ->
                 Js.split LF encrypted !! S i = Some l) /\
    cwd (snd run) = cwd w /\
    console (snd run) = console w ++ [doneMessage "encrypted" "/app/.env" "/app/.env.enc"].
Proof.
  intros w run. split; [reflexivity |].
  apply (encryptEnv_success_shape (crypto := Toy.crypto) "/app/.env" "/app/.env.enc" "pw" w).
  reflexivity.
Defined.

Lemma encryptEnv_fresh_windows_witness :
  let w := Toy.world
    [("/app/.env", Js.join newline ["ENV_SECURE_KEY=k"; "# note"; "A=1"])] in
  let run := encryptEnv (crypto := Toy.crypto) "/app/.env" "/app/.env.enc" "pw" w in
  run = (Ok tt, snd run) /\
  exists content secret encrypted,
    files w !! "/app/.env" = Some content /\
    fst (getSecretKey w) = Ok (Some secret) /\
    files (snd run) = delete "/app/.env" (<["/app/.env.enc" := encrypted]> (files w)) /\
    (exists c,
       Toy.encrypt (wrappingKey (crypto := Toy.crypto) "pw") (window w 0)
         (reservedLabel +:+ secret) = Some c /\
       Js.split LF encrypted !! 0 = Some (headerMarker +:+ token (window w 0) c)) /\
    (forall i l,
       Js.split LF content !! i = Some l -> passedThrough l = false ->
       exists c,
         Toy.encrypt (Toy.scrypt (PwString secret) salt keyLength)
           (window w (16 * S (length (dataLines (take i (Js.split LF content)))))) l = Some c /\
         Js.split LF encrypted !! S i =
           Some (token (window w (16 * S (length (dataLines (take i (Js.split LF content)))))) c)) /\
    (forall i j l,
       Js.split LF content !! i = Some l -> passedThrough l = false -> i < j ->
       16 * S (length (dataLines (take i (Js.split LF content)))) + 16 <=
       16 * S (length (dataLines (take j (Js.split LF content))))) /\
    (forall i, entropy (snd run) i =
               entropy w (16 * S (length (dataLines (Js.split LF content))) + i)).
Proof.
  intros w run. split; [reflexivity |].
  apply (encryptEnv_fresh_windows (crypto := Toy.crypto) "/app/.env" "/app/.env.enc" "pw" w).
  reflexivity.
Defined.

(** ** What [decryptEnv] does *)

Section Decrypting.
Context {crypto : NodeCrypto}.

Lemma decryptString_independent tok key w w0 :
  fst (decryptString tok key w) = fst (decryptString tok key w0).
Proof.
  unfold decryptString.
  destruct (Js.falsy tok || pwFalsy key); [reflexivity |]. cbv zeta.
  destruct (Js.falsy _ || Js.falsy _); [reflexivity |].
  now destruct (aesDecrypt _ _ _).
Qed.

Lemma decryptLine_world sk l w : snd (decryptLine sk l w) = w.
Proof.
  unfold decryptLine. destruct (passedThrough l); [reflexivity |].
  apply decryptString_world.
Qed.

Lemma decryptLine_independent sk l w w0 :
  fst (decryptLine sk l w) = fst (decryptLine sk l w0).
Proof.
  unfold decryptLine. destruct (passedThrough l); [reflexivity |].
  apply decryptString_independent.
Qed.

Lemma decryptLines_world sk (lines : list string) w :
  snd (mapM (decryptLine sk) lines w) = w.
Proof.
  induction lines as [|l lines IH]; [reflexivity |].
  cbn [mapM]. rewrite bind_run.
  pose proof (decryptLine_world sk l w) as H1.
  destruct (decryptLine sk l w) as [[d|e] w1]; cbn [snd] in H1; subst w1; [| reflexivity].
  rewrite bind_run.
  destruct (mapM (decryptLine sk) lines w) as [[ds|e] w2]; cbn [snd] in *; now subst.
Qed.

Lemma decryptLines_independent sk (lines : list string) w w0 :
  fst (mapM (decryptLine sk) lines w) = fst (mapM (decryptLine sk) lines w0).
Proof.
  induction lines as [|l lines IH]; [reflexivity |].
  cbn [mapM]. rewrite !bind_run.
  pose proof (decryptLine_world sk l w) as H1.
  pose proof (decryptLine_world sk l w0) as H2.
  pose proof (decryptLine_independent sk l w w0) as H3.
  destruct (decryptLine sk l w) as [[d|e] w1], (decryptLine sk l w0) as [[d0|e0] w2];
    cbn [fst snd] in *; subst; try discriminate; [| congruence].
  injection H3 as <-. rewrite !bind_run.
  destruct (mapM (decryptLine sk) lines w) as [[ds|e] w1] eqn:E1;
    destruct (mapM (decryptLine sk) lines w0) as [[ds0|e0] w2] eqn:E2;
    cbn [fst snd ret] in *; congruence.
Qed.

Lemma decryptLines_result sk (lines : list string) w r :
  fst (mapM (decryptLine sk) lines w) = r -> mapM (decryptLine sk) lines w = (r, w).
Proof.
  intros <-. rewrite <- (decryptLines_world sk lines w) at 3.
  now destruct (mapM (decryptLine sk) lines w).
Qed.

Lemma decryptLines_Ok sk (lines : list string) w ds :
  fst (mapM (decryptLine sk) lines w) = Ok ds ->
  length ds = length lines /\
  (forall i l, lines !! i = Some l -> passedThrough l = true -> ds !! i = Some l) /\
  (forall i l, lines !! i = Some l -> passedThrough l = false ->
     exists d, fst (decryptString l (PwString sk) w) = Ok d /\ ds !! i = Some d).
Proof.
  revert ds. induction lines as [|l lines IH]; intros ds.
  - intros [= <-]. split; [reflexivity |].
    split; intros i l H; discriminate H.
  - cbn [mapM]. rewrite bind_run.
    pose proof (decryptLine_world sk l w) as H1.
    destruct (decryptLine sk l w) as [[d|e] w1] eqn:E1; cbn [snd] in H1; subst w1;
      [| discriminate].
    rewrite bind_run.
    destruct (mapM (decryptLine sk) lines w) as [[ds'|e] w2] eqn:E2; [| discriminate].
    intros [= <-]. destruct (IH ds' eq_refl) as (Hlen & Hpass & Hdata).
    split; [cbn [length]; now rewrite Hlen |].
    unfold decryptLine in E1. split.
    + intros [|i] l' Hl Hp; [| now apply Hpass].
      injection Hl as <-. rewrite Hp in E1. now injection E1 as <-.
    + intros [|i] l' Hl Hp; [| now apply Hdata].
      injection Hl as <-. rewrite Hp in E1. exists d. rewrite E1. now split.
Qed.

Lemma decryptEnv_missing filePath outputPath passphrase w :
  files w !! filePath = None ->
  decryptEnv filePath outputPath passphrase w = (Err (FileMissing filePath), w).
Proof.
  intros H. unfold decryptEnv.
  now rewrite (bind_Ok _ _ _ _ _ (existsSync_absent _ _ H)).
Qed.

Lemma decryptEnv_unfold filePath outputPath passphrase w content :
  files w !! filePath = Some content ->
  decryptEnv filePath outputPath passphrase w =
  let lines := Js.split LF content in
  let header := Js.at_ lines 0 in
  if Js.falsy header || negb (Js.startsWith header headerMarker)
  then (Err BadEncryptedFile, w)
  else if Js.falsy passphrase then (Err PassphraseEmpty, w)
  else
    match fst (decryptString (Js.at_ (Js.split "=" header) 1)
                 (PwBuffer (scryptSync (PwString passphrase) salt keyLength)) w) with
    | Err e => (Err e, w)
    | Ok line =>
        match Js.matchLabel reservedLabel line with
        | None => (Err BadEncryptedFile, w)
        | Some secretKey =>
            if Js.falsy secretKey then (Err BadEncryptedFile, w)
            else
              match fst (mapM (decryptLine secretKey) (List.tail lines) w) with
              | Err e => (Err e, w)
              | Ok decryptedLines =>
                  (Ok tt, mkWorld (cwd w)
                            (delete filePath
                               (<[outputPath := Js.join newline decryptedLines]> (files w)))
                            (entropy w)
                            (console w ++ [doneMessage "decrypted" filePath outputPath]))
              end
        end
    end.
Proof.
  intros Hfile. unfold decryptEnv.
  rewrite (bind_Ok _ _ _ _ _ (existsSync_present _ _ _ Hfile)). cbn [negb].
  rewrite (bind_Ok _ _ _ _ _ (readFileSync_present _ _ _ Hfile)). cbv zeta.
  destruct (Js.falsy _ || negb _); [reflexivity |].
  unfold deriveKeyFromPassphrase. destruct (Js.falsy passphrase); [reflexivity |].
  rewrite bind_run. cbn [ret]. rewrite bind_run.
  destruct (decryptString _ _ w) as [r w1] eqn:E.
  pose proof (f_equal snd E) as Hw. rewrite decryptString_world in Hw.
  cbn [snd] in Hw. subst w1.
  cbn [fst]. destruct r as [line|e]; [| reflexivity].
  destruct (Js.matchLabel reservedLabel line) as [sk|]; [| reflexivity].
  destruct (Js.falsy sk); [reflexivity |].
  rewrite bind_run.
  destruct (mapM _ _ w) as [r w1] eqn:E2.
  pose proof (f_equal snd E2) as Hw. rewrite decryptLines_world in Hw.
  cbn [snd] in Hw. subst w1.
  cbn [fst]. now destruct r.
Qed.

(** X7. [decryptEnv] reads nothing but its input file: on two worlds, and
    under any paths, where the input file holds the same text, it succeeds
    or fails alike under the same passphrase, and when it succeeds it writes
    the same text. Neither [.env], the stored secret key, the working
    directory nor the random source has a part in it. *)
Theorem decryptEnv_reads_only_its_input
    (w1 w2 : World) (file1 out1 file2 out2 passphrase content : string) :
  files w1 !! file1 = Some content ->
  files w2 !! file2 = Some content ->
  fst (decryptEnv file1 out1 passphrase w1) = fst (decryptEnv file2 out2 passphrase w2) /\
  (file1 <> out1 -> file2 <> out2 ->
   fst (decryptEnv file1 out1 passphrase w1) = Ok tt ->
   files (snd (decryptEnv file1 out1 passphrase w1)) !! out1 =
   files (snd (decryptEnv file2 out2 passphrase w2)) !! out2).
Proof.
  intros H1 H2.
  rewrite (decryptEnv_unfold _ _ _ _ _ H1), (decryptEnv_unfold _ _ _ _ _ H2). cbv zeta.
  destruct (Js.falsy _ || negb _); [split; [reflexivity | discriminate] |].
  destruct (Js.falsy passphrase); [split; [reflexivity | discriminate] |].
  rewrite (decryptString_independent _ _ w2 w1).
  destruct (fst (decryptString _ _ w1)) as [line|e1]; [| split; [reflexivity | discriminate]].
  destruct (Js.matchLabel reservedLabel line) as [sk|]; [| split; [reflexivity | discriminate]].
  destruct (Js.falsy sk); [split; [reflexivity | discriminate] |].
  rewrite (decryptLines_independent _ _ w2 w1).
  destruct (fst (mapM _ _ w1)) as [ds|e2]; [| split; [reflexivity | discriminate]].
  split; [reflexivity |]. intros Hne1 Hne2 _. cbn [snd files].
  now rewrite !lookup_delete_ne, !lookup_insert_eq by assumption.
Qed.

Lemma decryptEnv_Ok_frame filePath outputPath passphrase w w' :
  decryptEnv filePath outputPath passphrase w = (Ok tt, w') ->
  cwd w' = cwd w /\ is_Some (files w !! filePath) /\
  exists text, files w' = delete filePath (<[outputPath := text]> (files w)).
Proof.
  destruct (files w !! filePath) as [content|] eqn:Hfile;
    [| rewrite (decryptEnv_missing _ _ _ _ Hfile); discriminate].
  rewrite (decryptEnv_unfold _ _ _ _ _ Hfile). cbv zeta.
  destruct (Js.falsy _ || negb _); [discriminate |].
  destruct (Js.falsy passphrase); [discriminate |].
  destruct (fst (decryptString _ _ w)) as [line|e1]; [| discriminate].
  destruct (Js.matchLabel reservedLabel line) as [sk|]; [| discriminate].
  destruct (Js.falsy sk); [discriminate |].
  destruct (fst (mapM _ _ w)) as [ds|e2]; [| discriminate].
  intros [= <-]. split; [reflexivity |]. split; eauto.
Qed.

(** X8. What a successful [decryptEnv] leaves: the input file, whose first
    line starts with [SECRET_KEY=], is removed; the output file holds one
    line for each line after the header, joined by line feeds, every blank or
    comment line unchanged at its position; no other file is touched, no
    random byte is used and one line is logged. *)
Theorem decryptEnv_success_shape
    (filePath outputPath passphrase : string) (w w' : World) :
  decryptEnv filePath outputPath passphrase w = (Ok tt, w') ->
  exists content decryptedLines,
    files w !! filePath = Some content /\ passphrase <> "" /\
    Js.startsWith content headerMarker = true /\
    files w' = delete filePath (<[outputPath := Js.join newline decryptedLines]> (files w)) /\
    S (length decryptedLines) = length (Js.split LF content) /\
    (forall i l, Js.split LF content !! S i = Some l -> passedThrough l = true ->
                 decryptedLines !! i = Some l) /\
    cwd w' = cwd w /\ entropy w' = entropy w /\
    console w' = console w ++ [doneMessage "decrypted" filePath outputPath].
Proof.
  destruct (files w !! filePath) as [content|] eqn:Hfile;
    [| rewrite (decryptEnv_missing _ _ _ _ Hfile); discriminate].
  rewrite (decryptEnv_unfold _ _ _ _ _ Hfile). cbv zeta.
  destruct (Js.falsy _ || negb _) eqn:Hhead; [discriminate |].
  destruct (Js.falsy passphrase) eqn:Hpass; [discriminate |].
  destruct (fst (decryptString _ _ w)) as [line|e1]; [| discriminate].
  destruct (Js.matchLabel reservedLabel line) as [sk|]; [| discriminate].
  destruct (Js.falsy sk); [discriminate |].
  destruct (fst (mapM _ _ w)) as [ds|e2] eqn:Hds; [| discriminate].
  intros [= <-]. destruct (decryptLines_Ok _ _ _ _ Hds) as (Hlen & Hpt & _).
  exists content, ds. split; [reflexivity |]. split; [now destruct passphrase |].
  apply orb_false_iff in Hhead as [_ Hstart]. apply negb_false_iff in Hstart.
  pose proof (split_not_nil LF content) as Hne.
  pose proof (join_split LF content) as Hjoin.
  destruct (Js.split LF content) as [|header rest] eqn:Hsplit; [congruence |].
  cbn [List.tail] in *. change (Js.at_ (header :: rest) 0) with header in Hstart.
  split; [| split; [reflexivity | split; [cbn [length]; now rewrite Hlen | split]]].
  - rewrite <- Hjoin. unfold Js.startsWith in Hstart.
    destruct (Js.stripPrefix headerMarker header) as [tok|] eqn:Htok; [| discriminate].
    apply stripPrefix_Some in Htok. subst header.
    exact (join_header_starts tok rest).
  - intros i l Hl Hp. now apply Hpt.
  - now repeat split.
Qed.

End Decrypting.

Lemma decryptEnv_reads_only_its_input_witness :
  let text := Js.join newline
    ["SECRET_KEY=000102030405060708090a0b0c0d0e0f:2a2139303c2a2c3a3d2a30242a365204ef";
     "# note"; "202122232425262728292a2b2c2d2e2f:423e3283"] in
  let w1 := Toy.world [("/app/.env.enc", text)] in
  let w2 := mkWorld "/srv" (list_to_map [("/srv/backup.enc", text); ("/srv/.env", "ENV_SECURE_KEY=other")])
              (Toy.counter 7) ["started"] in
  files w1 !! "/app/.env.enc" = Some text /\
  files w2 !! "/srv/backup.enc" = Some text /\
  "/app/.env.enc" <> "/app/.env" /\ "/srv/backup.enc" <> "/srv/restored" /\
  fst (decryptEnv (crypto := Toy.crypto) "/app/.env.enc" "/app/.env" "pw" w1) = Ok tt /\
  fst (decryptEnv (crypto := Toy.crypto) "/app/.env.enc" "/app/.env" "pw" w1) =
    fst (decryptEnv (crypto := Toy.crypto) "/srv/backup.enc" "/srv/restored" "pw" w2) /\
  files (snd (decryptEnv (crypto := Toy.crypto) "/app/.env.enc" "/app/.env" "pw" w1)) !! "/app/.env" =
    files (snd (decryptEnv (crypto := Toy.crypto) "/srv/backup.enc" "/srv/restored" "pw" w2)) !! "/srv/restored".
Proof.
  intros text w1 w2.
  pose proof (decryptEnv_reads_only_its_input (crypto := Toy.crypto) w1 w2
                "/app/.env.enc" "/app/.env" "/srv/backup.enc" "/srv/restored" "pw" text
                eq_refl eq_refl) as [Hsame Hwritten].
  split; [reflexivity |]. split; [reflexivity |].
  split; [discriminate |]. split; [discriminate |].
  split; [reflexivity |]. split; [exact Hsame |].
  apply Hwritten; [discriminate | discriminate | reflexivity].
Defined.

Lemma decryptEnv_success_shape_witness :
  let text := Js.join newline
    ["SECRET_KEY=000102030405060708090a0b0c0d0e0f:2a2139303c2a2c3a3d2a30242a365204ef";
     "# note"; "202122232425262728292a2b2c2d2e2f:423e3283"] in
  let w := Toy.world [("/app/.env.enc", text); ("/app/notes.txt", "keep")] in
  let run := decryptEnv (crypto := Toy.crypto) "/app/.env.enc" "/app/.env" "pw" w in
  run = (Ok tt, snd run) /\
  exists content decryptedLines,
    files w !! "/app/.env.enc" = Some content /\ "pw" <> "" /\
    Js.startsWith content headerMarker = true /\
    files (snd run) =
      delete "/app/.env.enc" (<["/app/.env" := Js.join newline decryptedLines]> (files w)) /\
    S (length decryptedLines) = length (Js.split LF content) /\
    (forall i l, Js.split LF content !! S i = Some l -> passedThrough l = true ->
                 decryptedLines !! i = Some l) /\
    cwd (snd run) = cwd w /\ entropy (snd run) = entropy w /\
    console (snd run) = console w ++ [doneMessage "decrypted" "/app/.env.enc" "/app/.env"].
Proof.
  intros text w run. split; [reflexivity |].
  apply (decryptEnv_success_shape (crypto := Toy.crypto) "/app/.env.enc" "/app/.env" "pw" w).
  reflexivity.
Defined.

(** X9. The same path for input and output loses the file: a call of
    [encryptEnv] or of [decryptEnv] that succeeds with [outputPath] equal to
    [filePath] leaves no file at that path, neither the plaintext nor the
    ciphertext, since the output is written first and the input removed
    after. *)
Theorem same_path_loses_the_file {crypto : NodeCrypto}
    (filePath passphrase : string) (w w' : World) :
  (encryptEnv filePath filePath passphrase w = (Ok tt, w') ->
   is_Some (files w !! filePath) /\ files w' = delete filePath (files w)) /\
  (decryptEnv filePath filePath passphrase w = (Ok tt, w') ->
   is_Some (files w !! filePath) /\ files w' = delete filePath (files w)).
Proof.
  split; intros H.
  - destruct (encryptEnv_Ok _ _ _ _ _ H)
      as (content & sk & c & pushed & w1 & w2 & Hfile & _ & _ & _ & _ & _ & _ & _ & _ & _ &
          Hfiles & _).
    split; [eauto |]. now rewrite Hfiles, delete_insert_eq.
  - destruct (decryptEnv_Ok_frame _ _ _ _ _ H) as (_ & Hfile & text & Hfiles).
    split; [exact Hfile |]. now rewrite Hfiles, delete_insert_eq.
Qed.

Lemma same_path_loses_the_file_witness :
  let w := Toy.world [("/app/.env", Js.join newline ["ENV_SECURE_KEY=k"; "A=1"])] in
  let run := encryptEnv (crypto := Toy.crypto) "/app/.env" "/app/.env" "pw" w in
  run = (Ok tt, snd run) /\
  is_Some (files w !! "/app/.env") /\ files (snd run) = delete "/app/.env" (files w).
Proof.
  intros w run. split; [reflexivity |].
  apply (proj1 (same_path_loses_the_file (crypto := Toy.crypto) "/app/.env" "pw" w (snd run))).
  reflexivity.
Defined.

(** ** The key commands *)

Lemma test_unfold label s :
  Js.test label s =
  match Js.stripPrefix label s with
  | Some _ => true
  | None => match s with
            | EmptyString => false
            | String _ s' => Js.test label s'
            end
  end.
Proof. destruct s; reflexivity. Qed.

Lemma test_occurs label pre post : Js.test label (pre +:+ label +:+ post) = true.
Proof.
  induction pre as [|c pre IH]; rewrite test_unfold.
  - cbn [append]. now rewrite stripPrefix_app.
  - destruct (Js.stripPrefix label _); [reflexivity |]. exact IH.
Qed.

Lemma test_true label s :
  Js.test label s = true -> exists pre post, s = pre +:+ label +:+ post.
Proof.
  induction s as [|c s IH]; rewrite test_unfold;
    destruct (Js.stripPrefix label _) as [rest|] eqn:E.
  - intros _. exists "", rest. now apply stripPrefix_Some in E.
  - discriminate.
  - intros _. exists "", rest. now apply stripPrefix_Some in E.
  - intros H. destruct (IH H) as (pre & post & ->). now exists (String c pre), post.
Qed.

Lemma matchLabel_test label s v : Js.matchLabel label s = Some v -> Js.test label s = true.
Proof.
  induction s as [|c s IH]; rewrite matchLabel_unfold, test_unfold;
    unfold Js.matchHere; destruct (Js.stripPrefix label _); try reflexivity;
    try discriminate.
  exact IH.
Qed.

Lemma isSecretKeySet_run w :
  Cli.isSecretKeySet w =
  (Ok match envFile w with
      | Some text => Js.test reservedLabel text
      | None => false
      end, w).
Proof.
  unfold Cli.isSecretKeySet, Cli.envFilePath, envFile, getCwd.
  rewrite bind_run. cbn [bind ret]. rewrite bind_run.
  destruct (files w !! Path.join (cwd w) ".env") as [text|] eqn:E.
  - rewrite (existsSync_present _ _ _ E). cbn [negb].
    now rewrite bind_run, (readFileSync_present _ _ _ E).
  - now rewrite (existsSync_absent _ _ E).
Qed.

Lemma getSecretKey_isSecretKeySet w secret :
  fst (getSecretKey w) = Ok (Some secret) -> fst (Cli.isSecretKeySet w) = Ok true.
Proof.
  rewrite getSecretKey_run, isSecretKeySet_run. cbn [fst].
  destruct (envFile w) as [text|]; [| discriminate].
  destruct (Js.matchLabel reservedLabel text) as [v|] eqn:E; [| discriminate].
  intros _. now rewrite (matchLabel_test _ _ _ E).
Qed.

Lemma matchLabel_written k :
  k <> "" -> Js.allChars Js.notLineTerminator k = true ->
  Js.matchLabel reservedLabel (reservedLabel +:+ k +:+ newline) = Some k.
Proof.
  intros Hne Hk. rewrite matchLabel_unfold.
  assert (H : Js.matchHere reservedLabel (reservedLabel +:+ k +:+ newline) = Some k).
  { apply matchHere_valuedAt. exists "", newline. repeat split; try assumption.
    right. exists LF, "". split; reflexivity. }
  now rewrite H.
Qed.

Lemma env_paths_differ dir : Path.join dir ".env" <> Path.join dir ".env.enc".
Proof. unfold Path.join. intros H. apply append_inj_l in H. discriminate H. Qed.

(** The world after [updateSecretKey] and the line that the command logs. *)
Lemma updated_getSecretKey w k msg :
  k <> "" -> Js.allChars Js.notLineTerminator k = true ->
  fst (getSecretKey
         (mkWorld (cwd w) (<[Path.join (cwd w) ".env" := reservedLabel +:+ k +:+ newline]> (files w))
            (entropy w) (console w ++ [msg]))) = Ok (Some (Js.trim k)).
Proof.
  intros Hne Hk. rewrite getSecretKey_run. unfold envFile. cbn [cwd files fst].
  now rewrite lookup_insert_eq, (matchLabel_written _ Hne Hk).
Qed.

(** X10. [set-key] is refused whenever the text of [.env] contains
    [ENV_SECURE_KEY=] anywhere, in a comment, inside a longer name or with
    nothing after it, and in particular whenever [getSecretKey] finds a key:
    whatever the answer to the prompt, the command logs its error and exits
    with 1, and no file changes. *)
Theorem setKey_refused_when_label_occurs (secretKey pre post : string) (w : World) :
  envFile w = Some (pre +:+ reservedLabel +:+ post) ->
  Cli.setKey secretKey w =
    (Cli.Exited 1,
     mkWorld (cwd w) (files w) (entropy w)
       (console w ++ ["Error: Secret key is already set. Use `rotate-key` to change it."])).
Proof.
  intros Henv. unfold Cli.setKey. rewrite isSecretKeySet_run, Henv, test_occurs.
  reflexivity.
Qed.

Lemma setKey_refused_when_label_occurs_witness :
  let w := Toy.world [("/app/.env", "A=1" +:+ newline +:+ "# ENV_SECURE_KEY=")] in
  envFile w = Some (("A=1" +:+ newline +:+ "# ") +:+ reservedLabel +:+ "") /\
  Cli.setKey "fresh" w =
    (Cli.Exited 1,
     mkWorld (cwd w) (files w) (entropy w)
       (console w ++ ["Error: Secret key is already set. Use `rotate-key` to change it."])).
Proof.
  intros w. split; [reflexivity |].
  apply (setKey_refused_when_label_occurs "fresh" ("A=1" +:+ newline +:+ "# ") "" w).
  reflexivity.
Defined.

(** X11. [set-key] then [getSecretKey]: when [.env] is absent or does not
    contain the label, and the answer is a non-empty line, [set-key]
    finishes; afterwards [.env] is exactly the one line
    [ENV_SECURE_KEY=<answer>] (whatever it held before), no other file has
    changed, the key is set, and [getSecretKey] returns the answer with its
    surrounding whitespace trimmed. *)
Theorem setKey_then_getSecretKey (secretKey : string) (w : World) :
  fst (Cli.isSecretKeySet w) = Ok false ->
  secretKey <> "" -> Js.allChars Js.notLineTerminator secretKey = true ->
  exists w',
    Cli.setKey secretKey w = (Cli.Finished, w') /\
    envFile w' = Some (reservedLabel +:+ secretKey +:+ newline) /\
    (forall p, p <> Path.join (cwd w) ".env" -> files w' !! p = files w !! p) /\
    fst (Cli.isSecretKeySet w') = Ok true /\
    fst (getSecretKey w') = Ok (Some (Js.trim secretKey)).
Proof.
  intros Hset Hne Hk. eexists. split; [| split; [| split; [| split]]].
  - unfold Cli.setKey. rewrite isSecretKeySet_run in *. cbn [fst] in Hset.
    injection Hset as ->. rewrite (falsy_false _ Hne). reflexivity.
  - unfold envFile. cbn [cwd files]. now rewrite lookup_insert_eq.
  - intros p Hp. cbn [files]. now rewrite lookup_insert_ne.
  - eapply getSecretKey_isSecretKeySet.
    exact (updated_getSecretKey w secretKey _ Hne Hk).
  - exact (updated_getSecretKey w secretKey _ Hne Hk).
Qed.

Lemma setKey_then_getSecretKey_witness :
  let w := Toy.world [("/app/.env", "A=1"); ("/app/notes.txt", "keep")] in
  fst (Cli.isSecretKeySet w) = Ok false /\ " s3cr3t " <> "" /\
  Js.allChars Js.notLineTerminator " s3cr3t " = true /\
  exists w',
    Cli.setKey " s3cr3t " w = (Cli.Finished, w') /\
    envFile w' = Some (reservedLabel +:+ " s3cr3t " +:+ newline) /\
    (forall p, p <> Path.join (cwd w) ".env" -> files w' !! p = files w !! p) /\
    fst (Cli.isSecretKeySet w') = Ok true /\
    fst (getSecretKey w') = Ok (Some "s3cr3t").
Proof.
  intros w. split; [reflexivity |]. split; [discriminate |]. split; [reflexivity |].
  apply (setKey_then_getSecretKey " s3cr3t " w); [reflexivity | discriminate | reflexivity].
Defined.

(** X12. [rotate-key] finishes exactly when the first answer equals the key
    that [getSecretKey] returns (the stored value, trimmed) and the second
    answer is not empty. It then leaves every file but [.env] as it was, and
    [getSecretKey] returns the new key, trimmed. In every other case it logs
    one error line and exits with 1, and no file changes. *)
Theorem rotateKey_outcome (currentSecretKey newSecretKey : string) (w : World) :
  (fst (getSecretKey w) = Ok (Some currentSecretKey) -> newSecretKey <> "" ->
   exists w',
     Cli.rotateKey currentSecretKey newSecretKey w = (Cli.Finished, w') /\
     (forall p, p <> Path.join (cwd w) ".env" -> files w' !! p = files w !! p) /\
     (Js.allChars Js.notLineTerminator newSecretKey = true ->
      fst (getSecretKey w') = Ok (Some (Js.trim newSecretKey)))) /\
  (fst (getSecretKey w) <> Ok (Some currentSecretKey) \/ newSecretKey = "" ->
   exists msg,
     Cli.rotateKey currentSecretKey newSecretKey w =
       (Cli.Exited 1, mkWorld (cwd w) (files w) (entropy w) (console w ++ [msg]))).
Proof.
  split.
  - intros Hget Hnew. eexists. split; [| split].
    + unfold Cli.rotateKey.
      pose proof (getSecretKey_isSecretKeySet _ _ Hget) as Hset.
      rewrite isSecretKeySet_run in *. cbn [fst] in Hset. injection Hset as ->.
      rewrite (getSecretKey_fst _ _ Hget).
      rewrite bool_decide_eq_true_2 by reflexivity. cbn [negb].
      rewrite (falsy_false _ Hnew). reflexivity.
    + intros p Hp. cbn [files]. now rewrite lookup_insert_ne.
    + intros Hk. exact (updated_getSecretKey w newSecretKey _ Hnew Hk).
  - intros Hcase. unfold Cli.rotateKey. rewrite isSecretKeySet_run.
    destruct (match envFile w with Some text => _ | None => _ end);
      [| eexists; reflexivity].
    destruct (getSecretKey_total w) as [stored Hstored]. rewrite Hstored.
    destruct (decide (Some currentSecretKey = stored)) as [Heq | Hneq].
    + rewrite bool_decide_eq_true_2 by assumption. cbn [negb].
      destruct Hcase as [Hcase | ->]; [| eexists; reflexivity].
      exfalso. apply Hcase. rewrite Hstored. cbn [fst]. congruence.
    + rewrite bool_decide_eq_false_2 by assumption. eexists. reflexivity.
Qed.

Lemma rotateKey_outcome_witness :
  let w := Toy.world [("/app/.env", "ENV_SECURE_KEY= old "); ("/app/notes.txt", "keep")] in
  (fst (getSecretKey w) = Ok (Some "old") /\ "new" <> "" /\
   exists w',
     Cli.rotateKey "old" "new" w = (Cli.Finished, w') /\
     (forall p, p <> Path.join (cwd w) ".env" -> files w' !! p = files w !! p) /\
     (Js.allChars Js.notLineTerminator "new" = true ->
      fst (getSecretKey w') = Ok (Some (Js.trim "new")))) /\
  (fst (getSecretKey w) <> Ok (Some " old ") /\
   exists msg,
     Cli.rotateKey " old " "new" w =
       (Cli.Exited 1, mkWorld (cwd w) (files w) (entropy w) (console w ++ [msg]))).
Proof.
  intros w. split.
  - split; [reflexivity |]. split; [discriminate |].
    apply (proj1 (rotateKey_outcome "old" "new" w)); [reflexivity | discriminate].
  - split; [discriminate |].
    apply (proj2 (rotateKey_outcome " old " "new" w)). left. discriminate.
Defined.

(** X13. A dead end: when [.env] contains the label but no occurrence of it
    has a value (as in a file with the line [ENV_SECURE_KEY=] alone), no key
    can be installed by the commands: [set-key] is refused because the label
    is there, and [rotate-key] is refused, whatever the answers, because
    there is no stored key for the first answer to be equal to. No file
    changes. *)
Theorem label_without_value_is_a_dead_end (pre post : string) (w : World) :
  envFile w = Some (pre +:+ reservedLabel +:+ post) ->
  (forall i v, ~ Js.valuedAt reservedLabel (pre +:+ reservedLabel +:+ post) i v) ->
  fst (getSecretKey w) = Ok None /\
  (forall answer, exists msg,
     Cli.setKey answer w =
       (Cli.Exited 1, mkWorld (cwd w) (files w) (entropy w) (console w ++ [msg]))) /\
  (forall current new, exists msg,
     Cli.rotateKey current new w =
       (Cli.Exited 1, mkWorld (cwd w) (files w) (entropy w) (console w ++ [msg]))).
Proof.
  intros Henv Hnone.
  assert (Hget : fst (getSecretKey w) = Ok None).
  { now rewrite getSecretKey_run, Henv, (matchLabel_none _ _ Hnone). }
  split; [exact Hget |]. split.
  - intros answer. eexists. unfold Cli.setKey.
    rewrite isSecretKeySet_run, Henv, test_occurs. reflexivity.
  - intros current new. eexists. unfold Cli.rotateKey.
    rewrite isSecretKeySet_run, Henv, test_occurs, (getSecretKey_fst _ _ Hget).
    rewrite bool_decide_eq_false_2 by discriminate. reflexivity.
Qed.

Lemma valuedAt_matchLabel label s i v :
  Js.valuedAt label s i v -> exists v', Js.matchLabel label s = Some v'.
Proof.
  revert i. induction s as [|c s IH]; intros i Hat; rewrite matchLabel_unfold;
    destruct (Js.matchHere label _) as [v0|] eqn:E; eauto.
  - destruct i as [|i]; [apply matchHere_valuedAt in Hat; congruence |].
    now apply valuedAt_empty in Hat.
  - destruct i as [|i]; [apply matchHere_valuedAt in Hat; congruence |].
    apply valuedAt_cons in Hat. eauto.
Qed.

Lemma label_without_value_is_a_dead_end_witness :
  let w := Toy.world [("/app/.env", "A=1" +:+ newline +:+ "ENV_SECURE_KEY=")] in
  envFile w = Some (("A=1" +:+ newline) +:+ reservedLabel +:+ "") /\
  fst (getSecretKey w) = Ok None /\
  (forall answer, exists msg,
     Cli.setKey answer w =
       (Cli.Exited 1, mkWorld (cwd w) (files w) (entropy w) (console w ++ [msg]))) /\
  (forall current new, exists msg,
     Cli.rotateKey current new w =
       (Cli.Exited 1, mkWorld (cwd w) (files w) (entropy w) (console w ++ [msg]))).
Proof.
  intros w. split; [reflexivity |].
  apply (label_without_value_is_a_dead_end ("A=1" +:+ newline) "" w); [reflexivity |].
  intros i v Hat. destruct (valuedAt_matchLabel _ _ _ _ Hat) as [v' Hv']. discriminate Hv'.
Defined.

(** ** The commands [encrypt] and [decrypt] *)

Section Commands.
Context {crypto : NodeCrypto}.

Lemma encryptCommand_Finished passphrase w w' :
  Cli.encryptCommand passphrase w = (Cli.Finished, w') ->
  encryptEnv (Path.join (cwd w) ".env") (Path.join (cwd w) ".env.enc") passphrase w = (Ok tt, w').
Proof.
  unfold Cli.encryptCommand. cbv zeta. unfold Fs.existsSync.
  destruct (bool_decide _); [| discriminate].
  destruct (Js.falsy passphrase); [discriminate |].
  unfold Cli.finish. destruct (encryptEnv _ _ _ w) as [[[]|e] w1]; [| discriminate].
  now intros [= <-].
Qed.

Lemma decryptCommand_Finished passphrase w w' :
  Cli.decryptCommand passphrase w = (Cli.Finished, w') ->
  decryptEnv (Path.join (cwd w) ".env.enc") (Path.join (cwd w) ".env") passphrase w = (Ok tt, w').
Proof.
  unfold Cli.decryptCommand. cbv zeta. unfold Fs.existsSync.
  destruct (bool_decide _); [| discriminate].
  destruct (Js.falsy passphrase); [discriminate |].
  unfold Cli.finish. destruct (decryptEnv _ _ _ w) as [[[]|e] w1]; [| discriminate].
  now intros [= <-].
Qed.

(** X15. While the file is encrypted there is no key to rotate: after an
    [encrypt] that finished, [.env] is gone, [getSecretKey] returns [null],
    [rotate-key] and a second [encrypt] exit with 1 whatever the answers, and
    [set-key] accepts any non-empty answer as a first key. *)
Theorem after_encrypt_the_key_is_not_set (passphrase : string) (w w1 : World) :
  Cli.encryptCommand passphrase w = (Cli.Finished, w1) ->
  envFile w1 = None /\
  is_Some (files w1 !! Path.join (cwd w1) ".env.enc") /\
  fst (getSecretKey w1) = Ok None /\
  (forall current new, fst (Cli.rotateKey current new w1) = Cli.Exited 1) /\
  (forall again, fst (Cli.encryptCommand again w1) = Cli.Exited 1) /\
  (forall key, key <> "" -> fst (Cli.setKey key w1) = Cli.Finished).
Proof.
  intros H. apply encryptCommand_Finished in H.
  destruct (encryptEnv_Ok _ _ _ _ _ H)
    as (content & sk & c & pushed & wa & wb & _ & _ & _ & _ & _ & _ & _ & _ & _ & Hcwd &
        Hfiles & _).
  assert (Henv : envFile w1 = None).
  { unfold envFile. rewrite Hcwd, Hfiles. apply lookup_delete_eq. }
  split; [exact Henv |]. split; [| split; [| split; [| split]]].
  - rewrite Hcwd, Hfiles, lookup_delete_ne, lookup_insert_eq by apply env_paths_differ.
    eauto.
  - now rewrite getSecretKey_run, Henv.
  - intros current new. unfold Cli.rotateKey. now rewrite isSecretKeySet_run, Henv.
  - intros again. unfold Cli.encryptCommand. cbv zeta.
    now rewrite (existsSync_absent _ _ Henv).
  - intros key Hkey. unfold Cli.setKey.
    now rewrite isSecretKeySet_run, Henv, (falsy_false _ Hkey).
Qed.

Context {laws : CryptoLaws crypto}.

(** X16. The round trip of the commands: on a [.env] in which
    [getSecretKey] finds a non-empty key, [encrypt] followed by [decrypt]
    with the same non-empty passphrase both finish; in between there is
    [.env.enc] and no [.env]; at the end [.env] holds exactly its original
    text, [.env.enc] is gone, and [getSecretKey] finds the same key. *)
Theorem commands_round_trip (passphrase secret content : string) (w : World) :
  envFile w = Some content ->
  fst (getSecretKey w) = Ok (Some secret) -> secret <> "" ->
  passphrase <> "" ->
  exists w1 w2,
    Cli.encryptCommand passphrase w = (Cli.Finished, w1) /\
    envFile w1 = None /\
    is_Some (files w1 !! Path.join (cwd w) ".env.enc") /\
    Cli.decryptCommand passphrase w1 = (Cli.Finished, w2) /\
    envFile w2 = Some content /\
    files w2 !! Path.join (cwd w) ".env.enc" = None /\
    fst (getSecretKey w2) = Ok (Some secret).
Proof.
  intros Henv Hget Hsecret Hpass.
  assert (Hcontent : content <> "").
  { intros ->. rewrite getSecretKey_run, Henv in Hget. discriminate Hget. }
  destruct (encrypt_then_decrypt w _ (Path.join (cwd w) ".env.enc") (Path.join (cwd w) ".env")
              passphrase content secret Henv Hcontent Hget Hsecret Hpass
              (env_paths_differ _) (fun H => env_paths_differ _ (eq_sym H)))
    as (w1 & w2 & encrypted & Henc & Hout & Hgone & _ & Hdec & Hback & Hgone2).
  destruct (encryptEnv_Ok _ _ _ _ _ Henc)
    as (_ & _ & _ & _ & _ & _ & _ & _ & _ & _ & _ & _ & _ & _ & _ & Hcwd1 & _).
  destruct (decryptEnv_Ok_frame _ _ _ _ _ Hdec) as (Hcwd2 & _).
  assert (Henv2 : envFile w2 = Some content).
  { unfold envFile. now rewrite Hcwd2, Hcwd1. }
  exists w1, w2. split; [| split; [| split; [| split; [| split; [| split]]]]].
  - unfold Cli.encryptCommand. cbv zeta.
    rewrite (existsSync_present _ _ _ Henv), (falsy_false _ Hpass).
    unfold Cli.finish. now rewrite Henc.
  - unfold envFile. now rewrite Hcwd1.
  - rewrite Hout. eauto.
  - unfold Cli.decryptCommand. cbv zeta. rewrite Hcwd1.
    rewrite (existsSync_present _ _ _ Hout), (falsy_false _ Hpass).
    unfold Cli.finish. now rewrite Hdec.
  - exact Henv2.
  - exact Hgone2.
  - rewrite getSecretKey_run, Henv2. rewrite getSecretKey_run, Henv in Hget. exact Hget.
Qed.

End Commands.

Lemma after_encrypt_the_key_is_not_set_witness :
  let w := Toy.world [("/app/.env", Js.join newline ["ENV_SECURE_KEY=k"; "A=1"])] in
  let run := Cli.encryptCommand (crypto := Toy.crypto) "pw" w in
  run = (Cli.Finished, snd run) /\
  envFile (snd run) = None /\
  is_Some (files (snd run) !! Path.join (cwd (snd run)) ".env.enc") /\
  fst (getSecretKey (snd run)) = Ok None /\
  (forall current new, fst (Cli.rotateKey current new (snd run)) = Cli.Exited 1) /\
  (forall again, fst (Cli.encryptCommand (crypto := Toy.crypto) again (snd run)) = Cli.Exited 1) /\
  (forall key, key <> "" -> fst (Cli.setKey key (snd run)) = Cli.Finished).
Proof.
  intros w run. split; [reflexivity |].
  apply (after_encrypt_the_key_is_not_set (crypto := Toy.crypto) "pw" w (snd run)).
  reflexivity.
Defined.

Lemma commands_round_trip_witness :
  let content := Js.join newline ["ENV_SECURE_KEY=k"; "# note"; "A=1"] in
  let w := Toy.world [("/app/.env", content)] in
  CryptoLaws Toy.crypto /\
  envFile w = Some content /\ fst (getSecretKey w) = Ok (Some "k") /\ "k" <> "" /\ "pw" <> "" /\
  exists w1 w2,
    Cli.encryptCommand (crypto := Toy.crypto) "pw" w = (Cli.Finished, w1) /\
    envFile w1 = None /\
    is_Some (files w1 !! Path.join (cwd w) ".env.enc") /\
    Cli.decryptCommand (crypto := Toy.crypto) "pw" w1 = (Cli.Finished, w2) /\
    envFile w2 = Some content /\
    files w2 !! Path.join (cwd w) ".env.enc" = None /\
    fst (getSecretKey w2) = Ok (Some "k").
Proof.
  intros content w. split; [exact toy_laws |].
  split; [reflexivity |]. split; [reflexivity |]. split; [discriminate |]. split; [discriminate |].
  apply (commands_round_trip (laws := toy_laws) "pw" "k" content w);
    [reflexivity | reflexivity | discriminate | discriminate].
Defined.

(** ** The key that [getSecretKey] returns *)

Lemma trimEnd_idempotent s : Js.trimEnd (Js.trimEnd s) = Js.trimEnd s.
Proof.
  induction s as [|c s IH]; [reflexivity |].
  cbn [Js.trimEnd]. destruct (Js.trimEnd s) as [|d t] eqn:E.
  - destruct (Js.isWhiteSpace c) eqn:Hc; [reflexivity |].
    cbn [Js.trimEnd]. now rewrite Hc.
  - change (Js.trimEnd (String c (String d t)))
      with (match Js.trimEnd (String d t) with
            | EmptyString =>
                if Js.isWhiteSpace c then EmptyString else String c EmptyString
            | String _ _ as t' => String c t'
            end).
    now rewrite IH.
Qed.

Lemma trimStart_head s :
  Js.trimStart s = "" \/
  exists c t, Js.trimStart s = String c t /\ Js.isWhiteSpace c = false.
Proof.
  induction s as [|c s IH]; [now left |].
  cbn [Js.trimStart]. destruct (Js.isWhiteSpace c) eqn:Hc; [exact IH |].
  right. eauto.
Qed.

Lemma trimEnd_head c t :
  Js.isWhiteSpace c = false -> exists t', Js.trimEnd (String c t) = String c t'.
Proof.
  intros Hc. cbn [Js.trimEnd]. destruct (Js.trimEnd t); [rewrite Hc |]; eauto.
Qed.

Lemma trim_idempotent s : Js.trim (Js.trim s) = Js.trim s.
Proof.
  unfold Js.trim. destruct (trimStart_head s) as [-> | (c & t & -> & Hc)]; [reflexivity |].
  destruct (trimEnd_head c t Hc) as [t' Ht']. rewrite Ht'.
  cbn [Js.trimStart]. rewrite Hc, <- Ht'. apply trimEnd_idempotent.
Qed.

(** X17. The key that [getSecretKey] returns is one trimmed line: it holds
    no line terminator and no whitespace at either end; and when it is not
    empty, the header text [ENV_SECURE_KEY=<key>] that [encryptEnv] seals is
    read back to exactly this key by the pattern of [decryptEnv]. *)
Theorem getSecretKey_value_is_a_trimmed_line (w : World) (secret : string) :
  fst (getSecretKey w) = Ok (Some secret) ->
  Js.allChars Js.notLineTerminator secret = true /\
  Js.trim secret = secret /\
  (secret <> "" -> Js.matchLabel reservedLabel (reservedLabel +:+ secret) = Some secret).
Proof.
  intros H. pose proof (getSecretKey_chars _ _ H) as Hchars.
  split; [exact Hchars |]. split.
  - rewrite getSecretKey_run in H. cbn [fst] in H.
    destruct (envFile w) as [text|]; [| discriminate].
    destruct (Js.matchLabel reservedLabel text) as [g|]; [| discriminate].
    injection H as <-. apply trim_idempotent.
  - intros Hne. now apply matchLabel_app.
Qed.

Lemma getSecretKey_value_is_a_trimmed_line_witness :
  let w := Toy.world [("/app/.env", "export ENV_SECURE_KEY=  s3 cr3t  " +:+ newline +:+ "A=1")] in
  fst (getSecretKey w) = Ok (Some "s3 cr3t") /\
  Js.allChars Js.notLineTerminator "s3 cr3t" = true /\
  Js.trim "s3 cr3t" = "s3 cr3t" /\
  ("s3 cr3t" <> "" -> Js.matchLabel reservedLabel (reservedLabel +:+ "s3 cr3t") = Some "s3 cr3t").
Proof.
  intros w. split; [reflexivity |].
  apply (getSecretKey_value_is_a_trimmed_line w "s3 cr3t"). reflexivity.
Defined.

(** ** A header without a token *)

(** X18. A header that starts with [SECRET_KEY=] but carries no token (the
    marker alone, or the marker followed by another [=]) is not reported as
    an invalid file: under a non-empty passphrase [decryptEnv] fails in
    [decryptString] with the error for missing input (InvalidInput), and
    the world stays as it is. *)
Theorem decryptEnv_header_without_token {crypto : NodeCrypto}
    (filePath outputPath passphrase content rest : string) (w : World) :
  files w !! filePath = Some content ->
  Js.at_ (Js.split LF content) 0 = headerMarker +:+ rest ->
  (rest = "" \/ exists r, rest = "=" +:+ r) ->
  passphrase <> "" ->
  decryptEnv filePath outputPath passphrase w = (Err DecryptArgsMissing, w) /\
  classify DecryptArgsMissing = InvalidInput.
Proof.
  intros Hfile Hheader Hrest Hpass. split; [| reflexivity].
  rewrite (decryptEnv_unfold _ _ _ _ _ Hfile). cbv zeta. rewrite Hheader.
  change (Js.falsy (headerMarker +:+ rest)) with false.
  rewrite startsWith_app, (falsy_false _ Hpass). cbn [orb negb].
  assert (Htoken : Js.at_ (Js.split "=" (headerMarker +:+ rest)) 1 = "").
  { change (headerMarker +:+ rest) with ("SECRET_KEY" +:+ String "=" rest).
    rewrite split_app by reflexivity.
    destruct Hrest as [-> | [r ->]]; [reflexivity |].
    change ("=" +:+ r) with (String "=" r). cbn [Js.split].
    now rewrite Ascii.eqb_refl. }
  rewrite Htoken. reflexivity.
Qed.

Lemma decryptEnv_header_without_token_witness :
  let w := Toy.world [("/app/.env.enc", "SECRET_KEY=" +:+ newline +:+ "A=1")] in
  files w !! "/app/.env.enc" = Some ("SECRET_KEY=" +:+ newline +:+ "A=1") /\
  Js.at_ (Js.split LF ("SECRET_KEY=" +:+ newline +:+ "A=1")) 0 = headerMarker +:+ "" /\
  "pw" <> "" /\
  decryptEnv (crypto := Toy.crypto) "/app/.env.enc" "/app/.env" "pw" w =
    (Err DecryptArgsMissing, w) /\
  classify DecryptArgsMissing = InvalidInput.
Proof.
  intros w. split; [reflexivity |]. split; [reflexivity |]. split; [discriminate |].
  apply (decryptEnv_header_without_token (crypto := Toy.crypto) "/app/.env.enc" "/app/.env"
           "pw" ("SECRET_KEY=" +:+ newline +:+ "A=1") "" w);
    [reflexivity | reflexivity | now left | discriminate].
Defined.

(** ** A key set while the file is encrypted *)

(** X19. [decrypt] takes the secret key from the header of [.env.enc], not
    from [.env]: when [set-key] installs another key after [encrypt] has
    finished, a following [decrypt] with the passphrase of the encryption
    still finishes, and puts back the original text of [.env]; the key set
    in between is overwritten and [getSecretKey] finds the original key. *)
Theorem key_set_while_encrypted_is_discarded
    {crypto : NodeCrypto} {laws : CryptoLaws crypto}
    (passphrase secret content key : string) (w : World) :
  envFile w = Some content ->
  fst (getSecretKey w) = Ok (Some secret) -> secret <> "" ->
  passphrase <> "" -> key <> "" ->
  exists w1 w2 w3,
    Cli.encryptCommand passphrase w = (Cli.Finished, w1) /\
    Cli.setKey key w1 = (Cli.Finished, w2) /\
    envFile w2 = Some (reservedLabel +:+ key +:+ newline) /\
    Cli.decryptCommand passphrase w2 = (Cli.Finished, w3) /\
    envFile w3 = Some content /\
    fst (getSecretKey w3) = Ok (Some secret).
Proof.
  intros Henv Hget Hsecret Hpass Hkey.
  assert (Hcontent : content <> "").
  { intros ->. rewrite getSecretKey_run, Henv in Hget. discriminate Hget. }
  pose proof (env_paths_differ (cwd w)) as Hpaths.
  destruct (encryptEnv_run w _ (Path.join (cwd w) ".env.enc") passphrase content secret
              Henv Hcontent Hget Hsecret Hpass)
    as (c & encs & w1 & Henc & Hcwd1 & Hfiles1 & Hsealed).
  assert (Henv1 : envFile w1 = None).
  { unfold envFile. rewrite Hcwd1, Hfiles1. apply lookup_delete_eq. }
  set (w2 := mkWorld (cwd w1)
               (<[Path.join (cwd w1) ".env" := reservedLabel +:+ key +:+ newline]> (files w1))
               (entropy w1) (console w1 ++ ["Secret key saved successfully."])).
  assert (Hcwd2 : cwd w2 = cwd w) by exact Hcwd1.
  assert (Hout2 : files w2 !! Path.join (cwd w) ".env.enc" =
                  Some (Js.join newline ((headerMarker +:+ token (nextIV w) c) :: encs))).
  { unfold w2. cbn [files]. rewrite Hcwd1, lookup_insert_ne by assumption.
    rewrite Hfiles1, lookup_delete_ne, lookup_insert_eq by assumption. reflexivity. }
  destruct (decryptEnv_sealed w2 (Path.join (cwd w) ".env.enc") (Path.join (cwd w) ".env")
              passphrase passphrase secret _ _ c encs Hout2 Hsealed Hsecret
              (getSecretKey_chars _ _ Hget) Hpass eq_refl)
    as (w3 & Hdec & Hcwd3 & _ & Hfiles3).
  assert (Henv3 : envFile w3 = Some content).
  { unfold envFile. rewrite Hcwd3, Hcwd2, Hfiles3.
    rewrite lookup_delete_ne, lookup_insert_eq by (intros H; now apply Hpaths).
    unfold newline, LF. now rewrite join_split. }
  exists w1, w2, w3. split; [| split; [| split; [| split; [| split]]]].
  - unfold Cli.encryptCommand. cbv zeta.
    rewrite (existsSync_present _ _ _ Henv), (falsy_false _ Hpass).
    unfold Cli.finish. now rewrite Henc.
  - unfold Cli.setKey. rewrite isSecretKeySet_run, Henv1, (falsy_false _ Hkey). reflexivity.
  - unfold envFile, w2. cbn [cwd files]. apply lookup_insert_eq.
  - unfold Cli.decryptCommand. cbv zeta. rewrite Hcwd2.
    rewrite (existsSync_present _ _ _ Hout2), (falsy_false _ Hpass).
    unfold Cli.finish. now rewrite Hdec.
  - exact Henv3.
  - rewrite getSecretKey_run, Henv3. rewrite getSecretKey_run, Henv in Hget. exact Hget.
Qed.

Lemma key_set_while_encrypted_is_discarded_witness :
  let content := Js.join newline ["ENV_SECURE_KEY=k"; "A=1"] in
  let w := Toy.world [("/app/.env", content)] in
  CryptoLaws Toy.crypto /\
  envFile w = Some content /\ fst (getSecretKey w) = Ok (Some "k") /\
  "k" <> "" /\ "pw" <> "" /\ "other" <> "" /\
  exists w1 w2 w3,
    Cli.encryptCommand (crypto := Toy.crypto) "pw" w = (Cli.Finished, w1) /\
    Cli.setKey "other" w1 = (Cli.Finished, w2) /\
    envFile w2 = Some (reservedLabel +:+ "other" +:+ newline) /\
    Cli.decryptCommand (crypto := Toy.crypto) "pw" w2 = (Cli.Finished, w3) /\
    envFile w3 = Some content /\
    fst (getSecretKey w3) = Ok (Some "k").
Proof.
  intros content w. split; [exact toy_laws |].
  split; [reflexivity |]. split; [reflexivity |].
  split; [discriminate |]. split; [discriminate |]. split; [discriminate |].
  apply (key_set_while_encrypted_is_discarded (laws := toy_laws) "pw" "k" content "other" w);
    [reflexivity | reflexivity | discriminate | discriminate | discriminate].
Defined.
